(** * github-telegram-bot: event ingestion, novelty detection and deduplication

    A shallow embedding of the Go packages [internal/storage] (the
    [event_records] ledger), [internal/github] (webhook handler and poller)
    and [internal/notifier] (fan-out), with the properties of the
    specification stated over it.

    Conventions.
    - Go [string] and [[]byte] are [string]; Go [int] and [int64] are [Z].
    - [time.Time] is an instant counted in nanoseconds from the Unix epoch;
      the zero [time.Time] is January 1 of year 1.
    - The SQLite database, the Telegram API, the buffered event channel and
      the logger are the fields of one [World]; every method is a function
      in the monad [M] over it.  Storage and Telegram calls fail according
      to a fault schedule carried by the world, so that every theorem
      quantified over worlds covers every pattern of failures.
    - A Go panic (slice bounds out of range) aborts the computation and
      leaves the world as it was at that point.
    - Only [Warn] and [Error] log lines are kept; [Debug] and [Info] lines
      carry no information the properties use.
    - The context of the poller is taken as not cancelled, and HTTP timeouts
      surface as failed API calls. *)

From Stdlib Require Import ZArith String Ascii List DecimalString Lia.
From stdpp Require Import gmap strings list.
Import ListNotations.

Local Open Scope string_scope.
Local Open Scope Z_scope.
Local Open Scope list_scope.

#[local] Set Warnings "-clear-no-such-hyp".

(** ** Strings and formatting *)

(** [fmt.Sprintf("%d", n)] for a Go [int]. *)
Definition itoa (n : Z) : string := NilZero.string_of_int (Z.to_int n).

(** [strings.HasPrefix(s, p)]. *)
Definition HasPrefix (s p : string) : bool := String.prefix p s.

(** [s[n:]] for [n <= len(s)]. *)
Definition sliceFrom (n : nat) (s : string) : string :=
  String.substring n (String.length s - n) s.

(** ** Time *)

Definition Time := Z.

(** The zero value of [time.Time] (0001-01-01T00:00:00Z). *)
Definition zeroTime : Time := -62135596800000000000.

Definition IsZero (t : Time) : bool := t =? zeroTime.
Definition Before (t u : Time) : bool := t <? u.
Definition After (t u : Time) : bool := t >? u.

(** ** Normalized event model ([internal/github/events.go]) *)

Record UserInfo := mkUserInfo {
  Login : string;
  AvatarURL : string;
  UserURL : string
}.

Record CommitInfo := mkCommitInfo {
  SHA : string;
  Message : string;
  CommitAuthor : UserInfo;
  CommitURL : string;
  Added : list string;
  Removed : list string;
  Modified : list string
}.

Record BranchInfo := mkBranchInfo {
  BranchRef : string;
  BranchSHA : string
}.

Record PushEvent := mkPushEvent {
  PushRef : string;
  PushBefore : string;
  PushAfter : string;
  PushCommits : list CommitInfo;
  Pusher : UserInfo;
  Compare : string
}.

Record ReleaseEvent := mkReleaseEvent {
  RelAction : string;
  TagName : string;
  RelName : string;
  RelBody : string;
  Draft : bool;
  Prerelease : bool;
  RelURL : string;
  RelAuthor : UserInfo
}.

Record IssueEvent := mkIssueEvent {
  IssAction : string;
  IssNumber : Z;
  IssTitle : string;
  IssBody : string;
  IssState : string;
  IssURL : string;
  IssUser : UserInfo;
  IssLabels : list string;
  IssAssignee : option UserInfo
}.

Record PullRequestEvent := mkPullRequestEvent {
  PRAction : string;
  PRNumber : Z;
  PRTitle : string;
  PRBody : string;
  PRState : string;
  PRURL : string;
  PRUser : UserInfo;
  PRMerged : bool;
  PRMergedBy : option UserInfo;
  PRBase : BranchInfo;
  PRHead : BranchInfo;
  PRAdditions : Z;
  PRDeletions : Z;
  PRCommits : Z
}.

(** The [Payload interface{}] of a [WebhookEvent]: the four pointer types the
    program ever stores in it. *)
Inductive Payload :=
| PPush (e : PushEvent)
| PRelease (e : ReleaseEvent)
| PIssue (e : IssueEvent)
| PPullRequest (e : PullRequestEvent).

Record WebhookEvent := mkWebhookEvent {
  Type_ : string;
  RepoOwner : string;
  RepoName : string;
  EvPayload : Payload
}.

(** ** Storage model ([internal/storage]) *)

(** A row of [event_records], restricted to the columns of its UNIQUE
    constraint: (repo_owner, repo_name, event_type, event_id). *)
Definition Key : Type := string * string * string * string.

Record Subscription := mkSubscription {
  ChatID : Z;
  SubRepoOwner : string;
  SubRepoName : string;
  Events : string
}.

(** Calls on the collaborators, in the order they happened. *)
Inductive Effect :=
| Select (err : bool)
| Lookup (k : Key) (err : bool)
| Insert (k : Key) (err : bool)
| Enqueued (e : WebhookEvent)
| Dropped (e : WebhookEvent)
| Delivered (chat : Z) (msg : string)
| DeliveryFailed (chat : Z) (msg : string)
| Warned (msg : string)
| Errored (msg : string).

Record World := mkWorld {
  records : gset Key;
  subscriptions : list Subscription;
  dbFaults : list bool;
  eventsCh : list WebhookEvent;
  chanCap : nat;
  tgFaults : list bool;
  history : list Effect
}.

(** ** The monad of methods *)

Definition M (A : Type) : Type := World -> option A * World.

Definition ret {A} (a : A) : M A := fun w => (Some a, w).

Definition bind {A B} (m : M A) (f : A -> M B) : M B :=
  fun w => match m w with
           | (Some a, w') => f a w'
           | (None, w') => (None, w')
           end.

Definition panic {A} : M A := fun w => (None, w).

Notation "x <- m ;; k" := (bind m (fun x => k))
  (at level 100, m at next level, right associativity).
Notation "m ;;; k" := (bind m (fun _ => k))
  (at level 100, right associativity).

Definition exec {A} (m : M A) (w : World) : World := snd (m w).
Definition result {A} (m : M A) (w : World) : option A := fst (m w).

(** [for _, x := range l { body }]. *)
Fixpoint forM_ {A} (l : list A) (body : A -> M unit) : M unit :=
  match l with
  | [] => ret tt
  | x :: l' => body x ;;; forM_ l' body
  end.

Definition record (e : Effect) : M unit :=
  fun w => (Some tt,
            mkWorld (records w) (subscriptions w) (dbFaults w) (eventsCh w)
                    (chanCap w) (tgFaults w) (history w ++ [e])).

Definition logWarn (msg : string) : M unit := record (Warned msg).
Definition logError (msg : string) : M unit := record (Errored msg).

(** The next entry of the storage fault schedule; an exhausted schedule
    means a healthy database. *)
Definition dbFault : M bool :=
  fun w => (Some (hd false (dbFaults w)),
            mkWorld (records w) (subscriptions w) (tl (dbFaults w))
                    (eventsCh w) (chanCap w) (tgFaults w) (history w)).

Definition tgFault : M bool :=
  fun w => (Some (hd false (tgFaults w)),
            mkWorld (records w) (subscriptions w) (dbFaults w) (eventsCh w)
                    (chanCap w) (tl (tgFaults w)) (history w)).

Definition insertRow (k : Key) : M unit :=
  fun w => (Some tt,
            mkWorld ({[ k ]} ∪ records w) (subscriptions w) (dbFaults w)
                    (eventsCh w) (chanCap w) (tgFaults w) (history w)).

Definition hasRow (k : Key) : M bool :=
  fun w => (Some (bool_decide (k ∈ records w)), w).

Definition rows : M (list Subscription) :=
  fun w => (Some (subscriptions w), w).

(** [RecordEvent]: INSERT OR IGNORE INTO event_records.  The result of
    [Exec] is discarded; the method returns the error alone ([true] when
    there is one). *)
Definition RecordEvent (repoOwner repoName eventType eventID : string) : M bool :=
  let k := (repoOwner, repoName, eventType, eventID) in
  err <- dbFault ;;
  record (Insert k err) ;;;
  if err then ret true
  else insertRow k ;;; ret false.

(** [IsEventProcessed]: SELECT COUNT( * ) ... ; returns [(count > 0, err)].
    When [Get] fails [count] keeps its zero value. *)
Definition IsEventProcessed (repoOwner repoName eventType eventID : string)
  : M (bool * bool) :=
  let k := (repoOwner, repoName, eventType, eventID) in
  err <- dbFault ;;
  record (Lookup k err) ;;;
  if err then ret (false, true)
  else present <- hasRow k ;; ret (present, false).

(** [GetSubscriptionsByRepo]. *)
Definition GetSubscriptionsByRepo (repoOwner repoName : string)
  : M (list Subscription * bool) :=
  err <- dbFault ;;
  record (Select err) ;;;
  if err then ret ([], true)
  else
    all <- rows ;;
    ret (List.filter (fun s => String.eqb (SubRepoOwner s) repoOwner
                          && String.eqb (SubRepoName s) repoName) all, false).

(** [GetAllSubscribedRepos]: SELECT DISTINCT repo_owner, repo_name.  Rows
    come in the order of their first occurrence. *)
Definition GetAllSubscribedRepos : M (list (string * string) * bool) :=
  err <- dbFault ;;
  record (Select err) ;;;
  if err then ret ([], true)
  else
    all <- rows ;;
    ret (remove_dups (map (fun s => (SubRepoOwner s, SubRepoName s)) all), false).

(** ** The event channel *)

(** [select { case ch <- ev: ...; default: ... }] on the buffered channel:
    the send succeeds exactly when the buffer has room.  (A consumer blocked
    in a receive has emptied the buffer, so there is room.) *)
Definition trySend (ev : WebhookEvent) : M bool :=
  fun w =>
    if (length (eventsCh w) <? chanCap w)%nat
    then (Some true,
          mkWorld (records w) (subscriptions w) (dbFaults w) (eventsCh w ++ [ev])
                  (chanCap w) (tgFaults w) (history w ++ [Enqueued ev]))
    else (Some false,
          mkWorld (records w) (subscriptions w) (dbFaults w) (eventsCh w)
                  (chanCap w) (tgFaults w) (history w ++ [Dropped ev])).

(** [event, ok := <-ch] when the buffer is not empty. *)
Definition receive : M (option WebhookEvent) :=
  fun w =>
    match eventsCh w with
    | [] => (Some None, w)
    | ev :: rest =>
        (Some (Some ev),
         mkWorld (records w) (subscriptions w) (dbFaults w) rest
                 (chanCap w) (tgFaults w) (history w))
    end.

(** The events producers tried to put on the channel, sent or dropped. *)
Fixpoint emitted (h : list Effect) : list WebhookEvent :=
  match h with
  | [] => []
  | Enqueued e :: h' => e :: emitted h'
  | Dropped e :: h' => e :: emitted h'
  | _ :: h' => emitted h'
  end.

(** ** Decoding ([encoding/json], [encoding/hex], [crypto/hmac]) *)

(** [json.Unmarshal(data, &v)] for a target of type [T]; [None] is a non-nil
    error.  The decoder belongs to the Go library and stays abstract. *)
Class Unmarshal (T : Type) := unmarshal : string -> option T.

Definition fromHexChar (c : ascii) : option nat :=
  let n := nat_of_ascii c in
  if ((48 <=? n) && (n <=? 57))%nat then Some (n - 48)%nat
  else if ((97 <=? n) && (n <=? 102))%nat then Some (n - 97 + 10)%nat
  else if ((65 <=? n) && (n <=? 70))%nat then Some (n - 65 + 10)%nat
  else None.

(** [hex.DecodeString]. *)
Fixpoint DecodeString (s : string) : option string :=
  match s with
  | EmptyString => Some EmptyString
  | String _ EmptyString => None
  | String a (String b rest) =>
      match fromHexChar a, fromHexChar b, DecodeString rest with
      | Some hi, Some lo, Some out =>
          Some (String (ascii_of_nat (16 * hi + lo)) out)
      | _, _, _ => None
      end
  end.

(** ** Webhook ingestor ([internal/github/webhook.go]) *)

(** The anonymous structs [parseEvent] decodes the body into. *)
Record baseEvent := mkBaseEvent {
  baseOwnerLogin : string;
  baseName : string
}.

Record rawCommit := mkRawCommit {
  rcID : string;
  rcMessage : string;
  rcURL : string;
  rcAdded : list string;
  rcRemoved : list string;
  rcModified : list string;
  rcAuthorName : string
}.

Record pushPayload := mkPushPayload {
  ppRef : string;
  ppBefore : string;
  ppAfter : string;
  ppCompare : string;
  ppPusherName : string;
  ppCommits : list rawCommit
}.

Record releasePayload := mkReleasePayload {
  rpAction : string;
  rpTagName : string;
  rpName : string;
  rpBody : string;
  rpDraft : bool;
  rpPrerelease : bool;
  rpHTMLURL : string;
  rpAuthor : UserInfo
}.

Record issuePayload := mkIssuePayload {
  ipAction : string;
  ipNumber : Z;
  ipTitle : string;
  ipBody : string;
  ipState : string;
  ipHTMLURL : string;
  ipUser : UserInfo;
  ipLabels : list string;
  ipAssignee : option UserInfo
}.

Record prPayload := mkPrPayload {
  prAction : string;
  prNumber : Z;
  prTitle : string;
  prBody : string;
  prState : string;
  prHTMLURL : string;
  prMerged : bool;
  prAdditions : Z;
  prDeletions : Z;
  prCommits : Z;
  prUser : UserInfo;
  prMergedBy : option UserInfo;
  prBase : BranchInfo;
  prHead : BranchInfo
}.

(** The pair [( *WebhookEvent, error)] returned by [parseEvent]. *)
Inductive ParseResult :=
| Parsed (event : option WebhookEvent)
| ParseError (msg : string).

Record Request := mkRequest {
  Method : string;
  Body : option string;            (* [None]: [io.ReadAll] failed *)
  XHubSignature256 : string;       (* [Header.Get]: empty when absent *)
  XGitHubEvent : string
}.

Record WebhookHandler := mkWebhookHandler {
  secret : string
}.

Definition StatusOK : Z := 200.
Definition StatusBadRequest : Z := 400.
Definition StatusUnauthorized : Z := 401.
Definition StatusMethodNotAllowed : Z := 405.

Section Webhook.

Context {U_base : Unmarshal baseEvent}
        {U_push : Unmarshal pushPayload}
        {U_release : Unmarshal releasePayload}
        {U_issue : Unmarshal issuePayload}
        {U_pr : Unmarshal prPayload}.

(** [hmac.New(sha256.New, key)]; [Write(body)]; [Sum(nil)]. *)
Variable hmacSHA256 : string -> string -> string.

Definition verifySignature (h : WebhookHandler) (body signature : string) : bool :=
  if negb (HasPrefix signature "sha256=") then false
  else
    match DecodeString (sliceFrom 7 signature) with
    | None => false
    | Some sig => String.eqb sig (hmacSHA256 (secret h) body)
    end.

Definition parseEvent (eventType body : string) : ParseResult :=
  match unmarshal (T := baseEvent) body with
  | None => ParseError "failed to parse base event"
  | Some base =>
      let repoOwner := baseOwnerLogin base in
      let repoName := baseName base in
      let done payload :=
        Parsed (Some (mkWebhookEvent eventType repoOwner repoName payload)) in
      if String.eqb eventType "push" then
        match unmarshal (T := pushPayload) body with
        | None => ParseError "failed to parse push event"
        | Some p =>
            let commits :=
              map (fun c => mkCommitInfo (rcID c) (rcMessage c)
                              (mkUserInfo (rcAuthorName c) "" "") (rcURL c)
                              (rcAdded c) (rcRemoved c) (rcModified c))
                  (ppCommits p) in
            done (PPush (mkPushEvent (ppRef p) (ppBefore p) (ppAfter p) commits
                           (mkUserInfo (ppPusherName p) "" "") (ppCompare p)))
        end
      else if String.eqb eventType "release" then
        match unmarshal (T := releasePayload) body with
        | None => ParseError "failed to parse release event"
        | Some p =>
            if negb (String.eqb (rpAction p) "published") then Parsed None
            else
              done (PRelease (mkReleaseEvent (rpAction p) (rpTagName p) (rpName p)
                                (rpBody p) (rpDraft p) (rpPrerelease p)
                                (rpHTMLURL p) (rpAuthor p)))
        end
      else if String.eqb eventType "issues" then
        match unmarshal (T := issuePayload) body with
        | None => ParseError "failed to parse issue event"
        | Some p =>
            if negb (String.eqb (ipAction p) "opened")
               && negb (String.eqb (ipAction p) "closed")
               && negb (String.eqb (ipAction p) "reopened")
            then Parsed None
            else
              done (PIssue (mkIssueEvent (ipAction p) (ipNumber p) (ipTitle p)
                              (ipBody p) (ipState p) (ipHTMLURL p) (ipUser p)
                              (ipLabels p) (ipAssignee p)))
        end
      else if String.eqb eventType "pull_request" then
        match unmarshal (T := prPayload) body with
        | None => ParseError "failed to parse pull request event"
        | Some p =>
            if negb (String.eqb (prAction p) "opened")
               && negb (String.eqb (prAction p) "closed")
               && negb (String.eqb (prAction p) "reopened")
            then Parsed None
            else
              done (PPullRequest
                      (mkPullRequestEvent (prAction p) (prNumber p) (prTitle p)
                         (prBody p) (prState p) (prHTMLURL p) (prUser p)
                         (prMerged p) (prMergedBy p) (prBase p) (prHead p)
                         (prAdditions p) (prDeletions p) (prCommits p)))
        end
      else Parsed None
  end.

(** [ServeHTTP]; the value returned is the status code written. *)
Definition ServeHTTP (h : WebhookHandler) (r : Request) : M Z :=
  if negb (String.eqb (Method r) "POST") then ret StatusMethodNotAllowed
  else
    match Body r with
    | None =>
        logError "Failed to read webhook body" ;;;
        ret StatusBadRequest
    | Some body =>
        if negb (String.eqb (secret h) "")
           && negb (verifySignature h body (XHubSignature256 r))
        then logWarn "Invalid webhook signature" ;;; ret StatusUnauthorized
        else
          let eventType := XGitHubEvent r in
          if String.eqb eventType "" then ret StatusBadRequest
          else
            match parseEvent eventType body with
            | ParseError _ =>
                logError "Failed to parse event" ;;;
                ret StatusBadRequest
            | Parsed None => ret StatusOK
            | Parsed (Some event) =>
                sent <- trySend event ;;
                (if sent then ret tt
                 else logWarn "Event channel full, dropping event") ;;;
                ret StatusOK
            end
    end.

End Webhook.

(** ** Notifier ([internal/notifier/notifier.go]) *)

Definition nl : string := String "010"%char EmptyString.

(** [generateEventID]. *)
Definition generateEventID (event : WebhookEvent) : string :=
  match EvPayload event with
  | PPush e => PushAfter e
  | PRelease e => TagName e
  | PIssue e => itoa (IssNumber e) +:+ "-" +:+ IssAction e
  | PPullRequest e => itoa (PRNumber e) +:+ "-" +:+ PRAction e
  end.

Section Notifier.

Context {U_events : Unmarshal (list string)}.

(** The four [FormatMessage] methods of [events.go]; [None] when the
    formatter panics (it slices commit hashes to seven bytes). *)
Variable FormatMessage : Payload -> option string.

(** [buildMessage], through the [Build...Message] methods of the message
    builder: a header naming the repository, then the formatted event. *)
Definition buildMessage (event : WebhookEvent) : M string :=
  let header :=
    "🔔 *" +:+ RepoOwner event +:+ "/" +:+ RepoName event +:+ "*" +:+ nl +:+ nl in
  match FormatMessage (EvPayload event) with
  | Some text => ret (header +:+ text)
  | None => panic
  end.

(** [isEventEnabled]. *)
Definition isEventEnabled (sub : Subscription) (eventType : string) : bool :=
  match unmarshal (T := list string) (Events sub) with
  | None => true
  | Some events => existsb (fun e => String.eqb e eventType) events
  end.

(** [sendNotification]; returns whether [bot.Send] failed. *)
Definition sendNotification (chatID : Z) (message : string) : M bool :=
  err <- tgFault ;;
  record (if err then DeliveryFailed chatID message
          else Delivered chatID message) ;;;
  ret err.

(** The body of the fan-out loop of [HandleWebhookEvent]. *)
Definition notifySubscriber (eventType message : string) (sub : Subscription)
  : M unit :=
  if isEventEnabled sub eventType then
    err <- sendNotification (ChatID sub) message ;;
    if err then logError "Failed to send notification" else ret tt
  else ret tt.

(** [HandleWebhookEvent]; the value is the returned error, [None] for nil. *)
Definition HandleWebhookEvent (event : WebhookEvent) : M (option string) :=
  r <- GetSubscriptionsByRepo (RepoOwner event) (RepoName event) ;;
  let '(subs, err) := r in
  if err then ret (Some "failed to get subscribers")
  else if (length subs =? 0)%nat then ret None
  else
    let eventID := generateEventID event in
    r <- IsEventProcessed (RepoOwner event) (RepoName event) (Type_ event) eventID ;;
    let '(processed, err) := r in
    (if err then logWarn "Failed to check event processing status" else ret tt) ;;;
    if processed then ret None
    else
      message <- buildMessage event ;;
      if String.eqb message "" then ret None
      else
        forM_ subs (notifySubscriber (Type_ event) message) ;;;
        err <- RecordEvent (RepoOwner event) (RepoName event) (Type_ event) eventID ;;
        (if err then logWarn "Failed to record event" else ret tt) ;;;
        ret None.

(** The consumer goroutine of [main]: one receive and its handling. *)
Definition consumeOne : M unit :=
  next <- receive ;;
  match next with
  | None => ret tt
  | Some event =>
      err <- HandleWebhookEvent event ;;
      match err with
      | Some _ => logError "Failed to handle event"
      | None => ret tt
      end
  end.

(** The consumer run until the buffer it found is empty. *)
Definition drain : M unit :=
  fun w => forM_ (eventsCh w) (fun _ => consumeOne) w.

End Notifier.

(** ** Poller ([internal/github], the poller file) *)

(** The fields of the go-github records the poller reads, through their
    nil-safe getters. *)
Record RepositoryCommit := mkRepositoryCommit {
  GetSHA : string;
  GetCommitMessage : string;
  GetCommitAuthorName : string;
  GetCommitterDate : Time;
  GetAuthorLogin : string;
  GetCommitHTMLURL : string
}.

Record RepositoryRelease := mkRepositoryRelease {
  GetDraft : bool;
  GetPublishedAt : Time;
  GetTagName : string;
  GetName : string;
  GetReleaseBody : string;
  GetPrerelease : bool;
  GetReleaseHTMLURL : string;
  GetReleaseAuthorLogin : string
}.

Record Issue := mkIssue {
  IsPullRequest : bool;
  GetIssueNumber : Z;
  GetIssueState : string;
  GetIssueCreatedAt : Time;
  GetIssueClosedAt : Time;
  GetIssueTitle : string;
  GetIssueBody : string;
  GetIssueHTMLURL : string;
  GetIssueUserLogin : string;
  IssueLabels : list string
}.

Record PullRequest := mkPullRequest {
  GetPRNumber : Z;
  GetPRState : string;
  GetMerged : bool;
  GetPRCreatedAt : Time;
  GetPRClosedAt : Time;
  GetPRTitle : string;
  GetPRBody : string;
  GetPRHTMLURL : string;
  GetPRUserLogin : string;
  GetAdditions : Z;
  GetDeletions : Z;
  GetCommits : Z;
  GetBaseRef : string;
  GetHeadRef : string
}.

Record CommitsListOptions := mkCommitsListOptions {
  clSince : Time;
  clPerPage : Z
}.

Record ListOptions := mkListOptions {
  PerPage : Z
}.

Record IssueListByRepoOptions := mkIssueListByRepoOptions {
  ilState : string;
  ilSort : string;
  ilDirection : string;
  ilSince : Time;
  ilPerPage : Z
}.

Record PullRequestListOptions := mkPullRequestListOptions {
  plState : string;
  plSort : string;
  plDirection : string;
  plPerPage : Z
}.

(** The GitHub API as the poller sees it: what each list call answers for
    the request options given, [None] when the call fails. *)
Record Client := mkClient {
  ListCommits : string -> string -> CommitsListOptions -> option (list RepositoryCommit);
  ListReleases : string -> string -> ListOptions -> option (list RepositoryRelease);
  ListByRepo : string -> string -> IssueListByRepoOptions -> option (list Issue);
  ListPullRequests : string -> string -> PullRequestListOptions -> option (list PullRequest)
}.

Record Poller := mkPoller {
  client : Client;
  startTime : Time
}.

(** The event ids the poller formats with [fmt.Sprintf]. *)
Definition releaseEventID (tagName : string) : string := "release-" +:+ tagName.
Definition issueCreatedID (number : Z) : string := "issue-" +:+ itoa number +:+ "-created".
Definition issueClosedID (number : Z) : string := "issue-" +:+ itoa number +:+ "-closed".
Definition prCreatedID (number : Z) : string := "pr-" +:+ itoa number +:+ "-created".
Definition prMergedID (number : Z) : string := "pr-" +:+ itoa number +:+ "-merged".
Definition prClosedID (number : Z) : string := "pr-" +:+ itoa number +:+ "-closed".

(** The bodies of the four loops of [recordExistingEvents]. *)
Definition recordCommit (owner name : string) (commit : RepositoryCommit) : M unit :=
  let sha := GetSHA commit in
  if negb (String.eqb sha "") then RecordEvent owner name "push" sha ;;; ret tt
  else ret tt.

Definition recordRelease (owner name : string) (release : RepositoryRelease) : M unit :=
  if negb (GetDraft release) then
    RecordEvent owner name "release" (releaseEventID (GetTagName release)) ;;; ret tt
  else ret tt.

Definition recordIssue (owner name : string) (issue : Issue) : M unit :=
  if negb (IsPullRequest issue) then
    RecordEvent owner name "issues" (issueCreatedID (GetIssueNumber issue)) ;;;
    if String.eqb (GetIssueState issue) "closed" then
      RecordEvent owner name "issues" (issueClosedID (GetIssueNumber issue)) ;;; ret tt
    else ret tt
  else ret tt.

Definition recordPR (owner name : string) (pr : PullRequest) : M unit :=
  RecordEvent owner name "pull_request" (prCreatedID (GetPRNumber pr)) ;;;
  if String.eqb (GetPRState pr) "closed" then
    let eventID :=
      if GetMerged pr then prMergedID (GetPRNumber pr)
      else prClosedID (GetPRNumber pr) in
    RecordEvent owner name "pull_request" eventID ;;; ret tt
  else ret tt.

(** [if err == nil { for ... }] *)
Definition whenOk {A} (r : option (list A)) (body : A -> M unit) : M unit :=
  match r with
  | Some l => forM_ l body
  | None => ret tt
  end.

(** [recordExistingEvents]. *)
Definition recordExistingEvents (p : Poller) (owner name : string) : M unit :=
  whenOk (ListCommits (client p) owner name (mkCommitsListOptions zeroTime 10))
         (recordCommit owner name) ;;;
  whenOk (ListReleases (client p) owner name (mkListOptions 5))
         (recordRelease owner name) ;;;
  whenOk (ListByRepo (client p) owner name
            (mkIssueListByRepoOptions "all" "created" "desc" zeroTime 20))
         (recordIssue owner name) ;;;
  whenOk (ListPullRequests (client p) owner name
            (mkPullRequestListOptions "all" "created" "desc" 20))
         (recordPR owner name).

(** [initializeRepos]. *)
Definition initializeRepos (p : Poller) : M unit :=
  r <- GetAllSubscribedRepos ;;
  let '(repos, err) := r in
  if err then logError "Failed to get subscribed repos"
  else if (length repos =? 0)%nat then ret tt
  else forM_ repos (fun repo => recordExistingEvents p (fst repo) (snd repo)).

(** The push event [pollCommits] builds for a commit. *)
Definition pushEventOf (owner name : string) (commit : RepositoryCommit) : WebhookEvent :=
  let sha := GetSHA commit in
  mkWebhookEvent "push" owner name
    (PPush (mkPushEvent "refs/heads/main" "" sha
              [mkCommitInfo sha (GetCommitMessage commit)
                 (mkUserInfo (GetCommitAuthorName commit) "" "")
                 (GetCommitHTMLURL commit) [] [] []]
              (mkUserInfo (GetAuthorLogin commit) "" "")
              (GetCommitHTMLURL commit))).

(** The body of the loop of [pollCommits]. *)
Definition pollCommit (owner name : string) (commit : RepositoryCommit) : M unit :=
  let sha := GetSHA commit in
  if String.eqb sha "" then ret tt
  else
    r <- IsEventProcessed owner name "push" sha ;;
    let '(processed, _) := r in
    if processed then ret tt
    else
      sent <- trySend (pushEventOf owner name commit) ;;
      if sent then
        (* the log line of this branch evaluates [sha[:7]] *)
        if (String.length sha <? 7)%nat then panic else ret tt
      else logWarn "Event channel full".

(** [pollCommits]. *)
Definition pollCommits (p : Poller) (owner name : string) : M unit :=
  match ListCommits (client p) owner name (mkCommitsListOptions (startTime p) 10) with
  | None => ret tt
  | Some commits => forM_ commits (pollCommit owner name)
  end.

(** The release event [pollReleases] builds. *)
Definition releaseEventOf (owner name : string) (release : RepositoryRelease)
  : WebhookEvent :=
  mkWebhookEvent "release" owner name
    (PRelease (mkReleaseEvent "published" (GetTagName release) (GetName release)
                 (GetReleaseBody release) false (GetPrerelease release)
                 (GetReleaseHTMLURL release)
                 (mkUserInfo (GetReleaseAuthorLogin release) "" ""))).

Definition pollRelease (p : Poller) (owner name : string) (release : RepositoryRelease)
  : M unit :=
  if GetDraft release then ret tt
  else if Before (GetPublishedAt release) (startTime p) then ret tt
  else
    let tagName := GetTagName release in
    let eventID := releaseEventID tagName in
    r <- IsEventProcessed owner name "release" eventID ;;
    let '(processed, _) := r in
    if processed then ret tt
    else trySend (releaseEventOf owner name release) ;;; ret tt.

(** [pollReleases]. *)
Definition pollReleases (p : Poller) (owner name : string) : M unit :=
  match ListReleases (client p) owner name (mkListOptions 5) with
  | None => ret tt
  | Some releases => forM_ releases (pollRelease p owner name)
  end.

(** The issue event the poller builds, with the action and state given. *)
Definition issueEventOf (owner name action state : string) (issue : Issue)
  : WebhookEvent :=
  mkWebhookEvent "issues" owner name
    (PIssue (mkIssueEvent action (GetIssueNumber issue) (GetIssueTitle issue)
               (GetIssueBody issue) state (GetIssueHTMLURL issue)
               (mkUserInfo (GetIssueUserLogin issue) "" "")
               (IssueLabels issue) None)).

(** [notifyIssueClosed]. *)
Definition notifyIssueClosed (owner name : string) (issue : Issue) : M unit :=
  let number := GetIssueNumber issue in
  let eventID := issueClosedID number in
  r <- IsEventProcessed owner name "issues" eventID ;;
  let '(processed, _) := r in
  if processed then ret tt
  else trySend (issueEventOf owner name "closed" "closed" issue) ;;; ret tt.

Definition pollIssue (p : Poller) (owner name : string) (issue : Issue) : M unit :=
  if IsPullRequest issue then ret tt
  else if Before (GetIssueCreatedAt issue) (startTime p) then
    if String.eqb (GetIssueState issue) "closed" then
      let closedAt := GetIssueClosedAt issue in
      if negb (IsZero closedAt) && After closedAt (startTime p)
      then notifyIssueClosed owner name issue
      else ret tt
    else ret tt
  else
    let number := GetIssueNumber issue in
    let eventID := issueCreatedID number in
    r <- IsEventProcessed owner name "issues" eventID ;;
    let '(processed, _) := r in
    if processed then ret tt
    else trySend (issueEventOf owner name "opened" (GetIssueState issue) issue) ;;; ret tt.

(** [pollIssues]. *)
Definition pollIssues (p : Poller) (owner name : string) : M unit :=
  match ListByRepo (client p) owner name
          (mkIssueListByRepoOptions "all" "created" "desc" (startTime p) 10) with
  | None => ret tt
  | Some issues => forM_ issues (pollIssue p owner name)
  end.

(** The pull request event the poller builds. *)
Definition prEvent (owner name action state : string) (merged : bool) (pr : PullRequest)
  : WebhookEvent :=
  mkWebhookEvent "pull_request" owner name
    (PPullRequest
       (mkPullRequestEvent action (GetPRNumber pr) (GetPRTitle pr) (GetPRBody pr)
          state (GetPRHTMLURL pr) (mkUserInfo (GetPRUserLogin pr) "" "")
          merged None (mkBranchInfo (GetBaseRef pr) "") (mkBranchInfo (GetHeadRef pr) "")
          (GetAdditions pr) (GetDeletions pr) (GetCommits pr))).

(** [notifyPRClosed]. *)
Definition notifyPRClosed (owner name : string) (pr : PullRequest) : M unit :=
  let number := GetPRNumber pr in
  let merged := GetMerged pr in
  let '(eventID, action) :=
    if merged then (prMergedID number, "merged")
    else (prClosedID number, "closed") in
  r <- IsEventProcessed owner name "pull_request" eventID ;;
  let '(processed, _) := r in
  if processed then ret tt
  else trySend (prEvent owner name action "closed" merged pr) ;;; ret tt.

Definition pollPullRequest (p : Poller) (owner name : string) (pr : PullRequest)
  : M unit :=
  if Before (GetPRCreatedAt pr) (startTime p) then
    if String.eqb (GetPRState pr) "closed" then
      let closedAt := GetPRClosedAt pr in
      if negb (IsZero closedAt) && After closedAt (startTime p)
      then notifyPRClosed owner name pr
      else ret tt
    else ret tt
  else
    let number := GetPRNumber pr in
    let eventID := prCreatedID number in
    r <- IsEventProcessed owner name "pull_request" eventID ;;
    let '(processed, _) := r in
    if processed then ret tt
    else trySend (prEvent owner name "opened" (GetPRState pr) (GetMerged pr) pr) ;;; ret tt.

(** [pollPullRequests]. *)
Definition pollPullRequests (p : Poller) (owner name : string) : M unit :=
  match ListPullRequests (client p) owner name
          (mkPullRequestListOptions "all" "created" "desc" 10) with
  | None => ret tt
  | Some prs => forM_ prs (pollPullRequest p owner name)
  end.

(** [pollRepo]. *)
Definition pollRepo (p : Poller) (owner name : string) : M unit :=
  pollCommits p owner name ;;;
  pollReleases p owner name ;;;
  pollIssues p owner name ;;;
  pollPullRequests p owner name.

(** [pollAllRepos]. *)
Definition pollAllRepos (p : Poller) : M unit :=
  r <- GetAllSubscribedRepos ;;
  let '(repos, err) := r in
  if err then logError "Failed to get subscribed repos"
  else if (length repos =? 0)%nat then ret tt
  else forM_ repos (fun repo => pollRepo p (fst repo) (snd repo)).

(** ** Message formatting ([internal/github/events.go]) *)

(** [extractBranchName]. *)
Definition extractBranchName (ref : string) : string :=
  if (11 <? String.length ref)%nat && String.eqb (String.substring 0 11 ref) "refs/heads/"
  then sliceFrom 11 ref
  else ref.

(** [truncateString]; [None] when the slice [s[:maxLen-3]] is out of range. *)
Definition truncateString (s : string) (maxLen : Z) : option string :=
  if Z.of_nat (String.length s) <=? maxLen then Some s
  else if maxLen - 3 <? 0 then None
  else Some (String.substring 0 (Z.to_nat (maxLen - 3)) s +:+ "...").

(** The characters [escapeMarkdown] puts a backslash before. *)
Definition markdownSpecial (c : ascii) : bool :=
  existsb (Ascii.eqb c)
    ["_"; "*"; "["; "]"; "("; ")"; "~"; "`"; ">"; "#"; "+"; "-"; "="; "|"; "{"; "}";
     "."; "!"]%char.

(** [escapeMarkdown]: the replacer has one-byte patterns only, so it works
    byte by byte. *)
Fixpoint escapeMarkdown (s : string) : string :=
  match s with
  | EmptyString => EmptyString
  | String c rest =>
      if markdownSpecial c then String "\"%char (String c (escapeMarkdown rest))
      else String c (escapeMarkdown rest)
  end.

(** The pictographs the messages start their lines with; their bytes play
    no role in what follows. *)
Record Glyphs := mkGlyphs {
  gPush : string;
  gBullet : string;
  gRelease : string;
  gPrerelease : string;
  gTag : string;
  gUser : string;
  gIssueOpened : string;
  gIssueClosed : string;
  gReopened : string;
  gIssueOther : string;
  gTitle : string;
  gLabels : string;
  gPR : string;
  gPRClosed : string;
  gPRMerged : string;
  gArrow : string;
  gStats : string
}.

(** [fmt.Sprintf("%v", labels)] for a slice of strings. *)
Definition sliceToString (l : list string) : string :=
  "[" +:+ String.concat " " l +:+ "]".

Section Formatting.

Variable g : Glyphs.

(** One line of the commit list of a push message; [None] when [SHA[:7]]
    is out of range. *)
Definition commitLine (commit : CommitInfo) : option string :=
  if (String.length (SHA commit) <? 7)%nat then None
  else
    match truncateString (Message commit) 50 with
    | None => None
    | Some short =>
        Some (gBullet g +:+ " [`" +:+ String.substring 0 7 (SHA commit) +:+ "`]("
              +:+ CommitURL commit +:+ ") " +:+ escapeMarkdown short +:+ nl)
    end.

(** The loop over the first commits of a push message. *)
Fixpoint commitLines (commits : list CommitInfo) (msg : string) : option string :=
  match commits with
  | [] => Some msg
  | commit :: rest =>
      match commitLine commit with
      | None => None
      | Some line => commitLines rest (msg +:+ line)
      end
  end.

(** [(e *PushEvent) FormatMessage]. *)
Definition FormatPush (e : PushEvent) : option string :=
  let branch := extractBranchName (PushRef e) in
  let commitCount := length (PushCommits e) in
  let commitWord := if (1 <? commitCount)%nat then "commits" else "commit" in
  let msg :=
    gPush g +:+ " *" +:+ Login (Pusher e) +:+ "* pushed " +:+ itoa (Z.of_nat commitCount)
    +:+ " " +:+ commitWord +:+ " to `" +:+ branch +:+ "`" +:+ nl +:+ nl in
  let maxCommits := if (commitCount <? 5)%nat then commitCount else 5%nat in
  match commitLines (firstn maxCommits (PushCommits e)) msg with
  | None => None
  | Some msg =>
      let msg :=
        if (5 <? commitCount)%nat
        then msg +:+ nl +:+ "_...and " +:+ itoa (Z.of_nat commitCount - 5)
                 +:+ " more commits_" +:+ nl
        else msg in
      Some (msg +:+ nl +:+ "[Compare changes](" +:+ Compare e +:+ ")")
  end.

(** [(e *ReleaseEvent) FormatMessage]. *)
Definition FormatRelease (e : ReleaseEvent) : option string :=
  let emoji := if Prerelease e then gPrerelease g else gRelease g in
  let name := if String.eqb (RelName e) "" then TagName e else RelName e in
  let msg :=
    emoji +:+ " *New Release: " +:+ name +:+ "*" +:+ nl +:+ nl
    +:+ gTag g +:+ " Tag: `" +:+ TagName e +:+ "`" +:+ nl
    +:+ gUser g +:+ " Author: " +:+ Login (RelAuthor e) +:+ nl in
  let withBody :=
    if negb (String.eqb (RelBody e) "") then
      match truncateString (RelBody e) 300 with
      | None => None
      | Some body => Some (msg +:+ nl +:+ body +:+ nl)
      end
    else Some msg in
  match withBody with
  | None => None
  | Some msg => Some (msg +:+ nl +:+ "[View Release](" +:+ RelURL e +:+ ")")
  end.

(** [(e *IssueEvent) FormatMessage]. *)
Definition FormatIssue (e : IssueEvent) : option string :=
  let found :=
    if String.eqb (IssAction e) "opened" then gIssueOpened g
    else if String.eqb (IssAction e) "closed" then gIssueClosed g
    else if String.eqb (IssAction e) "reopened" then gReopened g
    else "" in
  let emoji := if String.eqb found "" then gIssueOther g else found in
  let msg :=
    emoji +:+ " *Issue #" +:+ itoa (IssNumber e) +:+ " " +:+ IssAction e +:+ "*"
    +:+ nl +:+ nl
    +:+ gTitle g +:+ " " +:+ escapeMarkdown (IssTitle e) +:+ nl
    +:+ gUser g +:+ " By: " +:+ escapeMarkdown (Login (IssUser e)) +:+ nl in
  let msg :=
    if (0 <? length (IssLabels e))%nat
    then msg +:+ gLabels g +:+ " Labels: " +:+ sliceToString (IssLabels e) +:+ nl
    else msg in
  Some (msg +:+ nl +:+ "[View Issue](" +:+ IssURL e +:+ ")").

(** [(e *PullRequestEvent) FormatMessage]. *)
Definition FormatPR (e : PullRequestEvent) : option string :=
  let action :=
    if String.eqb (PRAction e) "closed" && PRMerged e then "merged" else PRAction e in
  let found :=
    if String.eqb action "opened" then gPR g
    else if String.eqb action "closed" then gPRClosed g
    else if String.eqb action "merged" then gPRMerged g
    else if String.eqb action "reopened" then gReopened g
    else "" in
  let emoji := if String.eqb found "" then gPR g else found in
  let msg :=
    emoji +:+ " *PR #" +:+ itoa (PRNumber e) +:+ " " +:+ action +:+ "*" +:+ nl +:+ nl
    +:+ gTitle g +:+ " " +:+ escapeMarkdown (PRTitle e) +:+ nl
    +:+ gUser g +:+ " By: " +:+ escapeMarkdown (Login (PRUser e)) +:+ nl
    +:+ gPR g +:+ " " +:+ escapeMarkdown (BranchRef (PRHead e)) +:+ " " +:+ gArrow g
    +:+ " " +:+ escapeMarkdown (BranchRef (PRBase e)) +:+ nl in
  let msg :=
    if 0 <? PRCommits e
    then msg +:+ gStats g +:+ " " +:+ itoa (PRCommits e) +:+ " commits, +"
             +:+ itoa (PRAdditions e) +:+ "/-" +:+ itoa (PRDeletions e) +:+ " lines" +:+ nl
    else msg in
  Some (msg +:+ nl +:+ "[View PR](" +:+ PRURL e +:+ ")").

(** The [FormatMessage] method of the payload of an event, as
    [buildMessage] dispatches on it. *)
Definition FormatMessageOf (payload : Payload) : option string :=
  match payload with
  | PPush e => FormatPush e
  | PRelease e => FormatRelease e
  | PIssue e => FormatIssue e
  | PPullRequest e => FormatPR e
  end.

End Formatting.

(** ** Subscriptions ([internal/storage], the store file) *)

Definition setRows (subs : list Subscription) : M unit :=
  fun w => (Some tt,
            mkWorld (records w) subs (dbFaults w) (eventsCh w) (chanCap w)
                    (tgFaults w) (history w)).

(** The WHERE clause [chat_id = ? AND repo_owner = ? AND repo_name = ?]. *)
Definition isSubscription (chatID : Z) (repoOwner repoName : string)
    (s : Subscription) : bool :=
  (ChatID s =? chatID) && String.eqb (SubRepoOwner s) repoOwner
  && String.eqb (SubRepoName s) repoName.

Inductive StoreError :=
| MarshalFailed             (* "failed to marshal events" *)
| ExecFailed                (* the error of the database driver *)
| SubscriptionNotFound.     (* errors.New("subscription not found") *)

(** [json.Marshal(v)] for a value of type [T]; [None] is a non-nil error.
    For a slice it is the encoding of the slice passed, which is not nil
    at the one place [Subscribe] is called from. *)
Class Marshal (T : Type) := marshal : T -> option string.

(** [DefaultEvents] and [AllEventTypes] of [models.go]. *)
Definition DefaultEvents : list string := ["push"; "release"; "issues"; "pull_request"].
Definition AllEventTypes : list string := ["push"; "release"; "issues"; "pull_request"].

(** The columns of the constraint UNIQUE(chat_id, repo_owner, repo_name). *)
Definition rowKey (s : Subscription) : Z * string * string :=
  (ChatID s, SubRepoOwner s, SubRepoName s).

(** INSERT ... ON CONFLICT(chat_id, repo_owner, repo_name) DO UPDATE SET
    events = excluded.events: the row in conflict keeps its place and takes
    the new events; without a conflict the row is added. *)
Fixpoint upsert (row : Subscription) (all : list Subscription) : list Subscription :=
  match all with
  | [] => [row]
  | s :: rest =>
      if isSubscription (ChatID row) (SubRepoOwner row) (SubRepoName row) s
      then mkSubscription (ChatID s) (SubRepoOwner s) (SubRepoName s) (Events row) :: rest
      else s :: upsert row rest
  end.

(** [Subscribe]. *)
Definition Subscribe {J : Marshal (list string)} (chatID : Z)
    (repoOwner repoName : string) (events : list string) : M (option StoreError) :=
  match marshal events with
  | None => ret (Some MarshalFailed)
  | Some eventsJSON =>
      err <- dbFault ;;
      if err then ret (Some ExecFailed)
      else
        all <- rows ;;
        setRows (upsert (mkSubscription chatID repoOwner repoName eventsJSON) all) ;;;
        ret None
  end.

(** [Unsubscribe]: DELETE FROM subscriptions WHERE ...; an error when no
    row was affected.  ([RowsAffected] itself does not fail on SQLite.) *)
Definition Unsubscribe (chatID : Z) (repoOwner repoName : string)
  : M (option StoreError) :=
  err <- dbFault ;;
  if err then ret (Some ExecFailed)
  else
    all <- rows ;;
    let kept := List.filter (fun s => negb (isSubscription chatID repoOwner repoName s)) all in
    setRows kept ;;;
    let rowsAffected := (length all - length kept)%nat in
    if (rowsAffected =? 0)%nat then ret (Some SubscriptionNotFound) else ret None.

(** The zero value of [Subscription]. *)
Definition zeroSubscription : Subscription := mkSubscription 0 "" "" "".

(** [GetSubscription]: the pointer returned and whether the error is
    non-nil.  No row gives [(nil, nil)]; a failed query gives a pointer to
    the zero value, with the error. *)
Definition GetSubscription (chatID : Z) (repoOwner repoName : string)
  : M (option Subscription * bool) :=
  err <- dbFault ;;
  record (Select err) ;;;
  if err then ret (Some zeroSubscription, true)
  else
    all <- rows ;;
    match List.filter (isSubscription chatID repoOwner repoName) all with
    | [] => ret (None, false)
    | sub :: _ => ret (Some sub, false)
    end.

(** [GetSubscribedEvents]: the slice returned (nil is the empty list) and
    whether the error is non-nil. *)
Definition GetSubscribedEvents {U : Unmarshal (list string)}
    (chatID : Z) (repoOwner repoName : string) : M (list string * bool) :=
  r <- GetSubscription chatID repoOwner repoName ;;
  let '(sub, err) := r in
  if err then ret ([], true)
  else
    match sub with
    | None => ret ([], false)
    | Some sub =>
        match unmarshal (T := list string) (Events sub) with
        | None => ret ([], true)
        | Some events => ret (events, false)
        end
    end.

(** ** The polling loop *)

(** Arithmetic of [int64], the type of [time.Duration]. *)
Definition wrap64 (z : Z) : Z := (z + 2 ^ 63) mod 2 ^ 64 - 2 ^ 63.

(** [time.Second], in nanoseconds. *)
Definition Second : Z := 1000000000.

(** The interval [NewPoller] computes from the configured seconds. *)
Definition pollInterval (intervalSeconds : Z) : Z :=
  let interval := wrap64 (intervalSeconds * Second) in
  if interval <? 60 * Second then 60 * Second else interval.

(** [pollLoop], for the ticks that fire before the context is cancelled;
    each tick sees the API as it answers at that time. *)
Definition pollLoop (p : Poller) (ticks : list Client) : M unit :=
  initializeRepos p ;;;
  forM_ ticks (fun api => pollAllRepos (mkPoller api (startTime p))).

(** [hex.EncodeToString], the encoding of the sender of a signature. *)
Definition hexDigit (n : nat) : ascii :=
  if (n <? 10)%nat then ascii_of_nat (48 + n) else ascii_of_nat (87 + n).

Fixpoint EncodeToString (s : string) : string :=
  match s with
  | EmptyString => EmptyString
  | String c rest =>
      let n := nat_of_ascii c in
      String (hexDigit (n / 16)) (String (hexDigit (n mod 16)) (EncodeToString rest))
  end.

(** * Vocabulary of the properties *)

(** ** Invariants: properties kept by a method, whether or not it panics *)

Definition preserves {A} (I : World -> Prop) (m : M A) : Prop :=
  forall w, I w -> I (exec m w).

(** ** Total correctness: the method returns, and its result and final
    world satisfy the postcondition *)

Definition hoare {A} (P : World -> Prop) (m : M A) (Q : A -> World -> Prop) : Prop :=
  forall w, P w -> exists a w', m w = (Some a, w') /\ Q a w'.

(** An effect other than a send on the channel. *)
Definition silent (e : Effect) : bool :=
  match e with
  | Enqueued _ | Dropped _ => false
  | _ => true
  end.

(** Nothing was put on the channel and nothing was offered to it. *)
Definition quiet_since (ch : list WebhookEvent) (sent : list WebhookEvent) (w : World) : Prop :=
  eventsCh w = ch /\ emitted (history w) = sent.

Definition quiet {A} (m : M A) : Prop :=
  forall ch sent, preserves (quiet_since ch sent) m.

(** The two answers the ledger contract of the specification expects from
    a commit. *)
Inductive Outcome := inserted | alreadyPresent.

Definition healthy (w : World) : Prop := dbFaults w = [].

(** What initialization has to seed for one item of each feed. *)
Definition commitKeys (owner name : string) (c : RepositoryCommit) : list Key :=
  if String.eqb (GetSHA c) "" then [] else [(owner, name, "push", GetSHA c)].

Definition releaseKeys (owner name : string) (r : RepositoryRelease) : list Key :=
  if GetDraft r then [] else [(owner, name, "release", releaseEventID (GetTagName r))].

Definition issueKeys (owner name : string) (i : Issue) : list Key :=
  if IsPullRequest i then []
  else (owner, name, "issues", issueCreatedID (GetIssueNumber i))
       :: (if String.eqb (GetIssueState i) "closed"
           then [(owner, name, "issues", issueClosedID (GetIssueNumber i))]
           else []).

Definition prKeys (owner name : string) (pr : PullRequest) : list Key :=
  (owner, name, "pull_request", prCreatedID (GetPRNumber pr))
  :: (if String.eqb (GetPRState pr) "closed"
      then [(owner, name, "pull_request",
             if GetMerged pr then prMergedID (GetPRNumber pr)
             else prClosedID (GetPRNumber pr))]
      else []).

Definition page {A} (r : option (list A)) : list A :=
  match r with Some l => l | None => [] end.

(** The four pages [recordExistingEvents] asks for. *)
Definition initialCommits (p : Poller) (owner name : string) :=
  page (ListCommits (client p) owner name (mkCommitsListOptions zeroTime 10)).
Definition initialReleases (p : Poller) (owner name : string) :=
  page (ListReleases (client p) owner name (mkListOptions 5)).
Definition initialIssues (p : Poller) (owner name : string) :=
  page (ListByRepo (client p) owner name
          (mkIssueListByRepoOptions "all" "created" "desc" zeroTime 20)).
Definition initialPRs (p : Poller) (owner name : string) :=
  page (ListPullRequests (client p) owner name
          (mkPullRequestListOptions "all" "created" "desc" 20)).

Definition seedKeys (p : Poller) (owner name : string) : list Key :=
  flat_map (commitKeys owner name) (initialCommits p owner name)
  ++ flat_map (releaseKeys owner name) (initialReleases p owner name)
  ++ flat_map (issueKeys owner name) (initialIssues p owner name)
  ++ flat_map (prKeys owner name) (initialPRs p owner name).

(** The API returns at most [per_page] items. *)
Definition honoursPerPage (c : Client) : Prop :=
  (forall o n opts l, ListCommits c o n opts = Some l ->
     (length l <= Z.to_nat (clPerPage opts))%nat)
  /\ (forall o n opts l, ListReleases c o n opts = Some l ->
        (length l <= Z.to_nat (PerPage opts))%nat)
  /\ (forall o n opts l, ListByRepo c o n opts = Some l ->
        (length l <= Z.to_nat (ilPerPage opts))%nat)
  /\ (forall o n opts l, ListPullRequests c o n opts = Some l ->
        (length l <= Z.to_nat (plPerPage opts))%nat).

(** The commit listing returns no commit older than the [since] asked for. *)
Definition honoursSince (c : Client) : Prop :=
  forall o n opts l, ListCommits c o n opts = Some l ->
    forall x, x ∈ l -> Before (GetCommitterDate x) (clSince opts) = false.

(** Items that were created, and closed if they are closed, before [t]. *)
Definition oldIssue (t : Time) (i : Issue) : Prop :=
  Before (GetIssueCreatedAt i) t = true
  /\ (GetIssueState i = "closed" ->
      IsZero (GetIssueClosedAt i) = true \/ Before (GetIssueClosedAt i) t = true).

Definition oldPullRequest (t : Time) (pr : PullRequest) : Prop :=
  Before (GetPRCreatedAt pr) t = true
  /\ (GetPRState pr = "closed" ->
      IsZero (GetPRClosedAt pr) = true \/ Before (GetPRClosedAt pr) t = true).

(** The four pages a steady-state tick asks for. *)
Definition tickCommits (p : Poller) (owner name : string) :=
  page (ListCommits (client p) owner name (mkCommitsListOptions (startTime p) 10)).
Definition tickReleases (p : Poller) (owner name : string) :=
  page (ListReleases (client p) owner name (mkListOptions 5)).
Definition tickIssues (p : Poller) (owner name : string) :=
  page (ListByRepo (client p) owner name
          (mkIssueListByRepoOptions "all" "created" "desc" (startTime p) 10)).
Definition tickPRs (p : Poller) (owner name : string) :=
  page (ListPullRequests (client p) owner name
          (mkPullRequestListOptions "all" "created" "desc" 10)).

(** The tick of [p] on the repository observes nothing that happened at or
    after the watch epoch. *)
Definition nothingNew (p : Poller) (owner name : string) : Prop :=
  (forall c, c ∈ tickCommits p owner name ->
     Before (GetCommitterDate c) (startTime p) = true)
  /\ (forall r, r ∈ tickReleases p owner name ->
        Before (GetPublishedAt r) (startTime p) = true)
  /\ (forall i, i ∈ tickIssues p owner name -> oldIssue (startTime p) i)
  /\ (forall pr, pr ∈ tickPRs p owner name -> oldPullRequest (startTime p) pr).

(** The ledger writes attempted so far. *)
Definition isInsert (e : Effect) : bool :=
  match e with Insert _ _ => true | _ => false end.

Definition writes (w : World) : nat := length (List.filter isInsert (history w)).

(** The storage is healthy and the ledger holds at least the keys [S]. *)
Definition covers (S : gset Key) (w : World) : Prop :=
  healthy w /\ S ⊆ records w.

(** The method attempts at most [c] ledger writes. *)
Definition costs {A} (c : nat) (m : M A) : Prop :=
  forall w, (writes (exec m w) <= writes w + c)%nat.

(** The subscriptions of a repository, as [GetSubscriptionsByRepo] selects
    them. *)
Definition subscribersOf (owner name : string) (w : World) : list Subscription :=
  List.filter (fun s => String.eqb (SubRepoOwner s) owner
                   && String.eqb (SubRepoName s) name) (subscriptions w).

(** The trace of the fan-out loop of [HandleWebhookEvent] for a message:
    one send per subscriber whose filter admits the event type, each
    failing or not by the Telegram fault schedule. *)
Fixpoint fanout {U : Unmarshal (list string)} (eventType message : string)
    (subs : list Subscription) (faults : list bool) : list Effect :=
  match subs with
  | [] => []
  | sub :: rest =>
      if isEventEnabled sub eventType then
        (if hd false faults
         then [DeliveryFailed (ChatID sub) message;
               Errored "Failed to send notification"]
         else [Delivered (ChatID sub) message])
        ++ fanout eventType message rest (tl faults)
      else fanout eventType message rest faults
  end.

Fixpoint fanoutFaults {U : Unmarshal (list string)} (eventType : string)
    (subs : list Subscription) (faults : list bool) : list bool :=
  match subs with
  | [] => faults
  | sub :: rest =>
      if isEventEnabled sub eventType then fanoutFaults eventType rest (tl faults)
      else fanoutFaults eventType rest faults
  end.

(** The header [buildMessage] puts before the formatted event. *)
Definition header (event : WebhookEvent) : string :=
  "🔔 *" +:+ RepoOwner event +:+ "/" +:+ RepoName event +:+ "*" +:+ nl +:+ nl.

(** The event is a push whose head commit is [sha]. *)
Definition announces (sha : string) (event : WebhookEvent) : bool :=
  match EvPayload event with
  | PPush e => String.eqb (PushAfter e) sha
  | _ => false
  end.

(** The ledger key the notifier uses for an event. *)
Definition keyOf (event : WebhookEvent) : Key :=
  (RepoOwner event, RepoName event, Type_ event, generateEventID event).

(** The storage is healthy, the ledger holds the push key of [sha] for the
    repository, and the pushes of [sha] offered to the channel and waiting
    in it are [offered] and [waiting]. *)
Definition knownPush (owner name sha : string) (offered waiting : list WebhookEvent)
    (w : World) : Prop :=
  healthy w
  /\ (owner, name, "push", sha) ∈ records w
  /\ List.filter (announces sha) (emitted (history w)) = offered
  /\ List.filter (announces sha) (eventsCh w) = waiting.

(** Running [m] from [w] offers exactly the event [ev] to the channel, and
    puts it there when the buffer has room. *)
Definition offers {A} (m : M A) (w : World) (ev : WebhookEvent) : Prop :=
  emitted (history (exec m w)) = emitted (history w) ++ [ev]
  /\ ((length (eventsCh w) < chanCap w)%nat ->
      eventsCh (exec m w) = eventsCh w ++ [ev]).

(** The actions of issues and pull requests that are notified. *)
Definition allowed (action : string) : Prop :=
  action = "opened" \/ action = "closed" \/ action = "reopened".

(** The conditions under which the webhook handler refuses a request. *)
Definition unreadable (r : Request) : Prop := Body r = None.

Definition badSignature (hmacSHA256 : string -> string -> string)
    (h : WebhookHandler) (r : Request) : Prop :=
  secret h <> ""
  /\ exists body, Body r = Some body
       /\ verifySignature hmacSHA256 h body (XHubSignature256 r) = false.

Definition missingEventType (r : Request) : Prop := XGitHubEvent r = "".

Definition unparsable `{Unmarshal baseEvent, Unmarshal pushPayload,
    Unmarshal releasePayload, Unmarshal issuePayload, Unmarshal prPayload}
    (r : Request) : Prop :=
  exists body msg, Body r = Some body
    /\ parseEvent (XGitHubEvent r) body = ParseError msg.



(** A commit of a push message whose hash cannot be shortened to seven
    bytes. *)
Definition shortHash (c : CommitInfo) : bool := (String.length (SHA c) <? 7)%nat.

(** The effects of reading the storage and of logging. *)
Definition passive (e : Effect) : bool :=
  match e with
  | Select _ | Lookup _ _ | Warned _ | Errored _ => true
  | _ => false
  end.

(** An invariant that no log line, no read of the storage and no
    consumption of the storage fault schedule disturbs. *)
Definition stable (I : World -> Prop) : Prop :=
  (forall e, passive e = true -> preserves I (record e))
  /\ preserves I dbFault.

(** An invariant that no write to the ledger disturbs. *)
Definition writable (I : World -> Prop) : Prop :=
  (forall k err, preserves I (record (Insert k err)))
  /\ (forall k, preserves I (insertRow k)).

(** The type of an event names the variant of its payload. *)
Definition wellKinded (ev : WebhookEvent) : Prop :=
  match EvPayload ev with
  | PPush _ => Type_ ev = "push"
  | PRelease _ => Type_ ev = "release"
  | PIssue _ => Type_ ev = "issues"
  | PPullRequest _ => Type_ ev = "pull_request"
  end.

(** An event of the repository, well kinded. *)
Definition eventOf (owner name : string) (ev : WebhookEvent) : Prop :=
  wellKinded ev /\ RepoOwner ev = owner /\ RepoName ev = name.

(** Since the events [sent] were offered, only events satisfying [P] have
    been offered to the channel. *)
Definition offeredOnly (P : WebhookEvent -> Prop) (sent : list WebhookEvent)
    (w : World) : Prop :=
  exists more, emitted (history w) = sent ++ more /\ Forall P more.

(** The ledger, the subscriptions, the Telegram schedule and the number of
    ledger writes are as given. *)
Definition storeIs (R : gset Key) (subs : list Subscription) (tg : list bool)
    (n : nat) (w : World) : Prop :=
  records w = R /\ subscriptions w = subs /\ tgFaults w = tg /\ writes w = n.

(** The channel holds the events [ch] followed by others, within the
    larger of its capacity [cap] and the number of events it held. *)
Definition channelGrew (ch : list WebhookEvent) (cap : nat) (w : World) : Prop :=
  chanCap w = cap
  /\ (exists more, eventsCh w = ch ++ more)
  /\ (length (eventsCh w) <= Nat.max (length ch) cap)%nat.

(** The send attempts of a history, delivered or not. *)
Definition isAttempt (e : Effect) : bool :=
  match e with Delivered _ _ | DeliveryFailed _ _ => true | _ => false end.

Definition attempts (h : list Effect) : list Effect := List.filter isAttempt h.

(** The outcome of a send to a subscriber under a fault. *)
Definition sendOutcome (message : string) (sub : Subscription) (failed : bool) : Effect :=
  if failed then DeliveryFailed (ChatID sub) message
  else Delivered (ChatID sub) message.

(** An event of a repository one of the subscriptions names. *)
Definition fromSubscribed (subs : list Subscription) (ev : WebhookEvent) : Prop :=
  exists s, In s subs /\ eventOf (SubRepoOwner s) (SubRepoName s) ev.

(** The ledger holds nothing beyond the keys [R] and [S]. *)
Definition within (R S : gset Key) (w : World) : Prop := records w ⊆ R ∪ S.

(** The keys initialization seeds for the repositories subscribed to. *)
Definition allSeeds (p : Poller) (subs : list Subscription) : gset Key :=
  list_to_set (flat_map (fun s => seedKeys p (SubRepoOwner s) (SubRepoName s)) subs).

(** The subscribers whose filter admits the event type, in the order of
    the rows. *)
Definition enabledFor {U : Unmarshal (list string)} (eventType : string)
    (subs : list Subscription) : list Subscription :=
  List.filter (fun s => isEventEnabled s eventType) subs.

(** One send per subscriber, each failing or not by the fault schedule. *)
Fixpoint sends (message : string) (subs : list Subscription) (faults : list bool)
  : list Effect :=
  match subs with
  | [] => []
  | sub :: rest => sendOutcome message sub (hd false faults) :: sends message rest (tl faults)
  end.

(** The table of subscriptions satisfies its UNIQUE constraint. *)
Definition uniqueRows (subs : list Subscription) : Prop := NoDup (map rowKey subs).

(** The rows of other chats and repositories. *)
Definition otherRows (chatID : Z) (owner name : string) (subs : list Subscription)
  : list Subscription :=
  List.filter (fun s => negb (isSubscription chatID owner name s)) subs.

(** The world with the channel replaced. *)
Definition withChannel (ch : list WebhookEvent) (w : World) : World :=
  mkWorld (records w) (subscriptions w) (dbFaults w) ch (chanCap w) (tgFaults w)
          (history w).

(** The consumer neither offers events nor changes the subscriptions or
    the capacity, and removes nothing from the ledger. *)
Definition consumed (w w' : World) : Prop :=
  chanCap w' = chanCap w
  /\ subscriptions w' = subscriptions w
  /\ records w ⊆ records w'
  /\ emitted (history w') = emitted (history w).

(** The body of the loop [for event := range eventsCh] of [main]. *)
Definition handleOne {U : Unmarshal (list string)} (FormatMessage : Payload -> option string)
    (event : WebhookEvent) : M unit :=
  err <- HandleWebhookEvent FormatMessage event ;;
  match err with
  | Some _ => logError "Failed to handle event"
  | None => ret tt
  end.

(** The events handled one after the other, each in the world the one
    before it left. *)
Definition handleEach {U : Unmarshal (list string)} (FormatMessage : Payload -> option string)
    (events : list WebhookEvent) : M unit :=
  forM_ events (handleOne FormatMessage).

(** A method that neither reads nor writes the channel. *)
Definition chanFree {A} (m : M A) : Prop :=
  forall ch w, m (withChannel ch w) = (fst (m w), withChannel ch (snd (m w))).

(** * Sample data *)

Module Sample.

(** A decoder for the arrays of plain strings that [Subscribe] stores in
    the [events] column: brackets, quoted strings without escapes, commas
    and blanks; [null] decodes to the empty slice, as in Go.  Anything else
    is a decoding error. *)
Inductive ArrayState :=
| AtStart
| AfterOpen
| InString (acc : string)
| AfterString
| AfterComma
| AtEnd.

Definition dq : ascii := ascii_of_nat 34.
Definition isBlank (c : ascii) : bool :=
  let n := nat_of_ascii c in
  ((n =? 32) || (n =? 9) || (n =? 10) || (n =? 13))%nat.

Fixpoint decodeArray (s : string) (st : ArrayState) (out : list string)
  : option (list string) :=
  match s with
  | EmptyString => match st with AtEnd => Some (rev out) | _ => None end
  | String c rest =>
      match st with
      | InString acc =>
          if Ascii.eqb c dq then decodeArray rest AfterString (acc :: out)
          else if Ascii.eqb c "\"%char then None
          else decodeArray rest (InString (acc +:+ String c EmptyString)) out
      | _ =>
          if isBlank c then decodeArray rest st out
          else
            match st with
            | AtStart =>
                if Ascii.eqb c "["%char then decodeArray rest AfterOpen out else None
            | AfterOpen =>
                if Ascii.eqb c "]"%char then decodeArray rest AtEnd out
                else if Ascii.eqb c dq then decodeArray rest (InString EmptyString) out
                else None
            | AfterString =>
                if Ascii.eqb c "]"%char then decodeArray rest AtEnd out
                else if Ascii.eqb c ","%char then decodeArray rest AfterComma out
                else None
            | AfterComma =>
                if Ascii.eqb c dq then decodeArray rest (InString EmptyString) out
                else None
            | _ => None
            end
      end
  end.

#[export] Instance events_decoder : Unmarshal (list string) :=
  fun s => if String.eqb s "null" then Some [] else decodeArray s AtStart [].

Definition quoted (s : string) : string :=
  String dq EmptyString +:+ s +:+ String dq EmptyString.

(** The default of the [events] column. *)
Definition allEvents : string :=
  "[" +:+ quoted "push" +:+ "," +:+ quoted "release" +:+ "," +:+
  quoted "issues" +:+ "," +:+ quoted "pull_request" +:+ "]".

(** A formatter with the one failure of the real one: a push whose listed
    commits (the first five) include a hash shorter than seven bytes. *)
Definition format (payload : Payload) : option string :=
  match payload with
  | PPush e =>
      if forallb (fun c => (7 <=? String.length (SHA c))%nat)
                 (firstn 5 (PushCommits e))
      then Some "push" else None
  | PRelease _ => Some "release"
  | PIssue _ => Some "issue"
  | PPullRequest _ => Some "pull request"
  end.

(** Canned webhook bodies: the body names the payload it stands for. *)
Definition anyone : UserInfo := mkUserInfo "octocat" "" "".
Definition sha1 : string := "7fd1a60b01f91b314f59955a4e4d4e80d8edf11d".

#[export] Instance base_decoder : Unmarshal baseEvent :=
  fun body => if String.eqb body "garbage" then None
              else Some (mkBaseEvent "acme" "widgets").

#[export] Instance push_decoder : Unmarshal pushPayload :=
  fun body =>
    if String.eqb body "push" then
      Some (mkPushPayload "refs/heads/main" "" sha1 "" "octocat"
              [mkRawCommit sha1 "fix" "" [] [] [] "octocat"])
    else None.

#[export] Instance release_decoder : Unmarshal releasePayload :=
  fun body =>
    if String.eqb body "release published" then
      Some (mkReleasePayload "published" "v1.0.0" "First" "" false false "" anyone)
    else if String.eqb body "release edited" then
      Some (mkReleasePayload "edited" "v1.0.0" "First" "" false false "" anyone)
    else None.

#[export] Instance issue_decoder : Unmarshal issuePayload :=
  fun body =>
    if String.eqb body "issue opened" then
      Some (mkIssuePayload "opened" 43 "Bug" "" "open" "" anyone [] None)
    else if String.eqb body "issue labeled" then
      Some (mkIssuePayload "labeled" 43 "Bug" "" "open" "" anyone ["bug"] None)
    else None.

#[export] Instance pr_decoder : Unmarshal prPayload :=
  fun body =>
    if String.eqb body "pr closed" then
      Some (mkPrPayload "closed" 7 "Patch" "" "closed" "" true 1 1 1 anyone None
              (mkBranchInfo "main" "") (mkBranchInfo "fix" ""))
    else if String.eqb body "pr synchronize" then
      Some (mkPrPayload "synchronize" 7 "Patch" "" "open" "" false 1 1 1 anyone None
              (mkBranchInfo "main" "") (mkBranchInfo "fix" ""))
    else None.

(** An encoder for arrays of plain strings, the inverse of the decoder
    above on strings without quotes. *)
#[export] Instance events_encoder : Marshal (list string) :=
  fun l => Some ("[" +:+ String.concat "," (map quoted l) +:+ "]").

(** The pictographs of the messages. *)
Definition glyphs : Glyphs :=
  mkGlyphs "🔨" "•" "🎉" "🧪" "📦" "👤" "📝" "✅" "🔄" "📋" "📌" "🏷️" "🔀" "❌" "🎊" "→" "📊".

(** A keyed hash standing in for HMAC-SHA256 in the examples. *)
Definition mac (key body : string) : string := key +:+ body.

Definition subscriber (chat : Z) (events : string) : Subscription :=
  mkSubscription chat "acme" "widgets" events.

(** A world with one subscriber of acme/widgets, an empty ledger, a
    healthy database and an empty channel of capacity 100 (as [main]
    makes it). *)
Definition world : World :=
  mkWorld ∅ [subscriber 1001 allEvents] [] [] 100 [] [].

(** The same world with a second subscriber, whose [events] column is not
    a JSON array. *)
Definition garbled : World :=
  mkWorld ∅ [subscriber 1001 allEvents; subscriber 1002 "push,release"] [] [] 100 [] [].

Definition withFaults (db : list bool) (w : World) : World :=
  mkWorld (records w) (subscriptions w) db (eventsCh w) (chanCap w)
          (tgFaults w) (history w).

(** The world with its channel filled up to the capacity [n] with [ev]. *)
Definition withFullChannel (n : nat) (ev : WebhookEvent) (w : World) : World :=
  mkWorld (records w) (subscriptions w) (dbFaults w) (repeat ev n) n
          (tgFaults w) (history w).

(** The watch epoch of the examples and instants around it. *)
Definition T0 : Time := 1700000000000000000.
Definition earlier : Time := T0 - 86400000000000.
Definition later : Time := T0 + 10000000000.

Definition issue42 : Issue :=
  mkIssue false 42 "closed" earlier later "Crash" "" "" "octocat" [].

Definition issue42open : Issue :=
  mkIssue false 42 "open" earlier zeroTime "Crash" "" "" "octocat" [].

Definition issue41 : Issue :=
  mkIssue false 41 "closed" earlier earlier "Typo" "" "" "octocat" [].

Definition issue43 : Issue :=
  mkIssue false 43 "open" later zeroTime "Bug" "" "" "octocat" [].

Definition oldRelease : RepositoryRelease :=
  mkRepositoryRelease false earlier "v0.9.0" "Old" "" false "" "octocat".

Definition oldPR : PullRequest :=
  mkPullRequest 7 "closed" true earlier earlier "Patch" "" "" "octocat" 1 1 1 "main" "fix".

Definition commit1 : RepositoryCommit :=
  mkRepositoryCommit sha1 "fix" "octocat" later "octocat" "".

(** An upstream holding the given items, newest first: a list call
    answers with the first page of the size asked for, and the commit
    listing leaves out the commits older than [since]. *)
Definition firstPage {A} (perPage : Z) (l : list A) : list A :=
  firstn (Z.to_nat perPage) l.

Definition upstream (commits : list RepositoryCommit)
    (releases : list RepositoryRelease) (issues : list Issue)
    (prs : list PullRequest) : Client :=
  mkClient
    (fun _ _ opts =>
       Some (firstPage (clPerPage opts)
               (List.filter (fun c => negb (Before (GetCommitterDate c) (clSince opts)))
                            commits)))
    (fun _ _ opts => Some (firstPage (PerPage opts) releases))
    (fun _ _ opts => Some (firstPage (ilPerPage opts) issues))
    (fun _ _ opts => Some (firstPage (plPerPage opts) prs)).

Definition oldCommit : RepositoryCommit :=
  mkRepositoryCommit "1c002dd4b536e7479fe34593e72e6c6c1819e53b" "init" "octocat"
                     earlier "octocat" "".

Definition poller (c : Client) : Poller := mkPoller c T0.

End Sample.

(** * Reasoning about methods *)

Lemma exec_bind {A B} (m : M A) (f : A -> M B) w :
  exec (bind m f) w =
    match result m w with
    | Some a => exec (f a) (exec m w)
    | None => exec m w
    end.
Proof.
  unfold exec, result, bind. destruct (m w) as [[a|] w']; reflexivity.
Qed.

Lemma result_bind {A B} (m : M A) (f : A -> M B) w :
  result (bind m f) w =
    match result m w with
    | Some a => result (f a) (exec m w)
    | None => None
    end.
Proof.
  unfold exec, result, bind. destruct (m w) as [[a|] w']; reflexivity.
Qed.

Lemma preserves_ret {A} I (a : A) : preserves I (ret a).
Proof. intros w H; exact H. Qed.

Lemma preserves_panic {A} I : preserves I (@panic A).
Proof. intros w H; exact H. Qed.

Lemma preserves_bind {A B} I (m : M A) (f : A -> M B) :
  preserves I m -> (forall a, preserves I (f a)) -> preserves I (bind m f).
Proof.
  intros Hm Hf w Hw. rewrite exec_bind.
  destruct (result m w); [apply Hf|]; apply Hm, Hw.
Qed.

Lemma preserves_forM_ {A} I (l : list A) (body : A -> M unit) :
  (forall x, x ∈ l -> preserves I (body x)) -> preserves I (forM_ l body).
Proof.
  induction l as [|x l IH]; intros Hb; simpl.
  - apply preserves_ret.
  - apply preserves_bind.
    + apply Hb; left.
    + intros _; apply IH; intros y Hy; apply Hb; right; exact Hy.
Qed.

Lemma preserves_whenOk {A} I (r : option (list A)) (body : A -> M unit) :
  (forall l x, r = Some l -> x ∈ l -> preserves I (body x)) ->
  preserves I (whenOk r body).
Proof.
  destruct r as [l|]; simpl; intros Hb.
  - apply preserves_forM_; intros x Hx; exact (Hb l x eq_refl Hx).
  - apply preserves_ret.
Qed.

Lemma hoare_ret {A} (P : World -> Prop) (a : A) (Q : A -> World -> Prop) :
  (forall w, P w -> Q a w) -> hoare P (ret a) Q.
Proof. intros H w Hw; exists a, w; split; [reflexivity | apply H, Hw]. Qed.

Lemma hoare_bind {A B} P (m : M A) R (f : A -> M B) Q :
  hoare P m R -> (forall a, hoare (R a) (f a) Q) -> hoare P (bind m f) Q.
Proof.
  intros Hm Hf w Hw. destruct (Hm w Hw) as (a & w1 & E1 & HR).
  destruct (Hf a w1 HR) as (b & w2 & E2 & HQ).
  exists b, w2; split; [|exact HQ]. unfold bind; rewrite E1; exact E2.
Qed.

Lemma hoare_conseq {A} (P P' : World -> Prop) (m : M A) (Q Q' : A -> World -> Prop) :
  hoare P' m Q' -> (forall w, P w -> P' w) -> (forall a w, Q' a w -> Q a w) ->
  hoare P m Q.
Proof.
  intros H HP HQ w Hw. destruct (H w (HP w Hw)) as (a & w' & E & Hq).
  exists a, w'; split; [exact E | apply HQ, Hq].
Qed.

(** ** The frame of the primitive operations *)

Lemma emitted_app h1 h2 : emitted (h1 ++ h2) = emitted h1 ++ emitted h2.
Proof.
  induction h1 as [|e h1 IH]; simpl; [reflexivity|].
  destruct e; simpl; rewrite ?IH; reflexivity.
Qed.

Lemma quiet_ret {A} (a : A) : quiet (ret a).
Proof. intros ch sent; apply preserves_ret. Qed.

Lemma quiet_panic {A} : quiet (@panic A).
Proof. intros ch sent; apply preserves_panic. Qed.

Lemma quiet_bind {A B} (m : M A) (f : A -> M B) :
  quiet m -> (forall a, quiet (f a)) -> quiet (bind m f).
Proof. intros Hm Hf ch sent; apply preserves_bind; [apply Hm | intros a; apply Hf]. Qed.

Lemma quiet_forM_ {A} (l : list A) (body : A -> M unit) :
  (forall x, x ∈ l -> quiet (body x)) -> quiet (forM_ l body).
Proof. intros Hb ch sent; apply preserves_forM_; intros x Hx; apply Hb, Hx. Qed.

Lemma quiet_whenOk {A} (r : option (list A)) (body : A -> M unit) :
  (forall x, quiet (body x)) -> quiet (whenOk r body).
Proof. intros Hb ch sent; apply preserves_whenOk; intros l x _ _; apply Hb. Qed.

Lemma quiet_record e : silent e = true -> quiet (record e).
Proof.
  intros He ch sent w [H1 H2]; split; [exact H1|].
  unfold exec, record; simpl. rewrite emitted_app, H2.
  destruct e; simpl in *; try discriminate; apply app_nil_r.
Qed.

Lemma quiet_dbFault : quiet dbFault.
Proof. intros ch sent w H; exact H. Qed.

Lemma quiet_tgFault : quiet tgFault.
Proof. intros ch sent w H; exact H. Qed.

Lemma quiet_insertRow k : quiet (insertRow k).
Proof. intros ch sent w H; exact H. Qed.

Lemma quiet_hasRow k : quiet (hasRow k).
Proof. intros ch sent w H; exact H. Qed.

Lemma quiet_rows : quiet rows.
Proof. intros ch sent w H; exact H. Qed.

Lemma quiet_if {A} (b : bool) (m1 m2 : M A) :
  quiet m1 -> quiet m2 -> quiet (if b then m1 else m2).
Proof. destruct b; auto. Qed.

Create HintDb quiet.
#[export] Hint Resolve quiet_ret quiet_panic quiet_dbFault quiet_tgFault
  quiet_insertRow quiet_hasRow quiet_rows : quiet.

Ltac quiet_step :=
  first
    [ apply quiet_bind; [|intros ?]
    | apply quiet_if
    | apply quiet_record; reflexivity
    | apply quiet_whenOk; intros ?
    | solve [auto with quiet] ].

Lemma quiet_RecordEvent o n t i : quiet (RecordEvent o n t i).
Proof.
  unfold RecordEvent. apply quiet_bind; [auto with quiet|]; intros err.
  apply quiet_bind; [apply quiet_record; reflexivity|]; intros _.
  destruct err; repeat quiet_step.
Qed.

Lemma quiet_IsEventProcessed o n t i : quiet (IsEventProcessed o n t i).
Proof.
  unfold IsEventProcessed. apply quiet_bind; [auto with quiet|]; intros err.
  apply quiet_bind; [apply quiet_record; reflexivity|]; intros _.
  destruct err; repeat quiet_step.
Qed.

Lemma quiet_GetAllSubscribedRepos : quiet GetAllSubscribedRepos.
Proof.
  unfold GetAllSubscribedRepos. apply quiet_bind; [auto with quiet|]; intros err.
  apply quiet_bind; [apply quiet_record; reflexivity|]; intros _.
  destruct err; repeat quiet_step.
Qed.

#[export] Hint Resolve quiet_RecordEvent quiet_IsEventProcessed
  quiet_GetAllSubscribedRepos : quiet.

Lemma quiet_recordExistingEvents p owner name :
  quiet (recordExistingEvents p owner name).
Proof.
  unfold recordExistingEvents, recordCommit, recordRelease, recordIssue, recordPR.
  repeat quiet_step.
Qed.

Lemma quiet_initializeRepos p : quiet (initializeRepos p).
Proof.
  unfold initializeRepos, logError.
  apply quiet_bind; [auto with quiet|]; intros [repos err].
  repeat quiet_step.
  apply quiet_forM_; intros x _; apply quiet_recordExistingEvents.
Qed.

(** * The ledger *)

Lemma RecordEvent_run o n t i w :
  RecordEvent o n t i w =
    (Some (hd false (dbFaults w)),
     mkWorld (if hd false (dbFaults w) then records w
              else {[ (o, n, t, i) ]} ∪ records w)
             (subscriptions w) (tl (dbFaults w)) (eventsCh w) (chanCap w)
             (tgFaults w)
             (history w ++ [Insert (o, n, t, i) (hd false (dbFaults w))])).
Proof.
  unfold RecordEvent, bind, dbFault, record, insertRow, ret; simpl.
  destruct (hd false (dbFaults w)); reflexivity.
Qed.

Lemma IsEventProcessed_run o n t i w :
  IsEventProcessed o n t i w =
    (Some (if hd false (dbFaults w) then false
           else bool_decide ((o, n, t, i) ∈ records w),
           hd false (dbFaults w)),
     mkWorld (records w) (subscriptions w) (tl (dbFaults w)) (eventsCh w)
             (chanCap w) (tgFaults w)
             (history w ++ [Lookup (o, n, t, i) (hd false (dbFaults w))])).
Proof.
  unfold IsEventProcessed, bind, dbFault, record, hasRow, ret; simpl.
  destruct (hd false (dbFaults w)); reflexivity.
Qed.

(** C5, as the code has it: a second [RecordEvent] of a key leaves the
    ledger as the first one left it, and neither call returns an error when
    the storage does not fail; the method returns the error alone, nil both
    times, so the caller is not told whether the row was inserted or was
    already present. *)
Theorem RecordEvent_idempotent o n t i w :
  hd false (dbFaults w) = false ->
  let once := exec (RecordEvent o n t i) w in
  let twice := exec (RecordEvent o n t i) once in
  (o, n, t, i) ∈ records once
  /\ records twice = records once
  /\ result (RecordEvent o n t i) w = Some false
  /\ (hd false (dbFaults once) = false ->
      result (RecordEvent o n t i) once = Some false).
Proof.
  intros Hok once twice. subst once twice.
  unfold exec, result. rewrite !RecordEvent_run; simpl. rewrite !Hok.
  split; [set_solver|]. split.
  - destruct (hd false (tl (dbFaults w))); [reflexivity | set_solver].
  - split; [reflexivity|]. intros ->; reflexivity.
Qed.

Lemma RecordEvent_idempotent_witness :
  let once := exec (RecordEvent "acme" "widgets" "push" Sample.sha1) Sample.world in
  records (exec (RecordEvent "acme" "widgets" "push" Sample.sha1) once) = records once.
Proof.
  intros once.
  exact (proj1 (proj2 (RecordEvent_idempotent "acme" "widgets" "push" Sample.sha1
                         Sample.world eq_refl))).
Defined.

(** C5 as stated fails: the first and the duplicate [RecordEvent] return the
    same value, so no reading of the return value reports [inserted] for the
    one and [alreadyPresent] for the other. *)
Lemma RecordEvent_reports_nothing :
  let call := RecordEvent "acme" "widgets" "push" Sample.sha1 in
  ~ exists report : option bool -> Outcome,
      report (result call Sample.world) = inserted
      /\ report (result call (exec call Sample.world)) = alreadyPresent.
Proof.
  intros call [report [H1 H2]].
  assert (E : result call (exec call Sample.world) = result call Sample.world)
    by reflexivity.
  rewrite E, H1 in H2. discriminate.
Qed.

(** * Initialization *)

Lemma covers_RecordEvent S o n t i :
  hoare (covers S) (RecordEvent o n t i) (fun _ => covers (S ∪ {[ (o, n, t, i) ]})).
Proof.
  intros w [Hh HS]. rewrite RecordEvent_run. red in Hh. rewrite Hh; simpl.
  eexists _, _; split; [reflexivity|]. split; [reflexivity|]. simpl. set_solver.
Qed.

Lemma covers_weaken {A} S S' (m : M A) S1 :
  hoare (covers S) m (fun _ => covers S1) -> S' ⊆ S1 ->
  hoare (covers S) m (fun _ => covers S').
Proof.
  intros H Hsub. eapply hoare_conseq; [exact H | auto |].
  intros _ w [Hh Hs]; split; [exact Hh | set_solver].
Qed.

Lemma covers_ret S S' : S' ⊆ S -> hoare (covers S) (ret tt) (fun _ => covers S').
Proof.
  intros Hsub. apply hoare_ret. intros w [Hh Hs]; split; [exact Hh | set_solver].
Qed.

Lemma covers_forM_ {A} (keys : A -> list Key) (body : A -> M unit) l :
  (forall x S, hoare (covers S) (body x) (fun _ => covers (S ∪ list_to_set (keys x)))) ->
  forall S, hoare (covers S) (forM_ l body)
              (fun _ => covers (S ∪ list_to_set (flat_map keys l))).
Proof.
  intros Hb. induction l as [|x l IH]; intros S; simpl.
  - apply covers_ret. set_solver.
  - eapply hoare_bind; [apply Hb|]. intros ?.
    eapply covers_weaken; [apply IH|]. rewrite list_to_set_app_L. set_solver.
Qed.

Lemma covers_whenOk {A} (keys : A -> list Key) (body : A -> M unit) r :
  (forall x S, hoare (covers S) (body x) (fun _ => covers (S ∪ list_to_set (keys x)))) ->
  forall S, hoare (covers S) (whenOk r body)
              (fun _ => covers (S ∪ list_to_set (flat_map keys (page r)))).
Proof.
  intros Hb S. destruct r as [l|]; simpl.
  - apply covers_forM_, Hb.
  - apply covers_ret. set_solver.
Qed.

Lemma covers_recordCommit o n x S :
  hoare (covers S) (recordCommit o n x) (fun _ => covers (S ∪ list_to_set (commitKeys o n x))).
Proof.
  unfold recordCommit, commitKeys. destruct (String.eqb (GetSHA x) ""); simpl.
  - apply covers_ret. set_solver.
  - eapply hoare_bind; [apply covers_RecordEvent|]. intros ?.
    apply covers_ret. set_solver.
Qed.

Lemma covers_recordRelease o n x S :
  hoare (covers S) (recordRelease o n x)
    (fun _ => covers (S ∪ list_to_set (releaseKeys o n x))).
Proof.
  unfold recordRelease, releaseKeys. destruct (GetDraft x); simpl.
  - apply covers_ret. set_solver.
  - eapply hoare_bind; [apply covers_RecordEvent|]. intros ?.
    apply covers_ret. set_solver.
Qed.

Lemma covers_recordIssue o n x S :
  hoare (covers S) (recordIssue o n x) (fun _ => covers (S ∪ list_to_set (issueKeys o n x))).
Proof.
  unfold recordIssue, issueKeys. destruct (IsPullRequest x); simpl.
  - apply covers_ret. set_solver.
  - eapply hoare_bind; [apply covers_RecordEvent|]. intros ?.
    destruct (String.eqb (GetIssueState x) "closed"); simpl.
    + eapply hoare_bind; [apply covers_RecordEvent|]. intros ?.
      apply covers_ret. set_solver.
    + apply covers_ret. set_solver.
Qed.

Lemma covers_recordPR o n x S :
  hoare (covers S) (recordPR o n x) (fun _ => covers (S ∪ list_to_set (prKeys o n x))).
Proof.
  unfold recordPR, prKeys.
  eapply hoare_bind; [apply covers_RecordEvent|]. intros ?.
  destruct (String.eqb (GetPRState x) "closed"); simpl.
  - eapply hoare_bind; [apply covers_RecordEvent|]. intros ?.
    apply covers_ret. set_solver.
  - apply covers_ret. set_solver.
Qed.

Lemma covers_recordExistingEvents p o n S :
  hoare (covers S) (recordExistingEvents p o n)
    (fun _ => covers (S ∪ list_to_set (seedKeys p o n))).
Proof.
  unfold recordExistingEvents, seedKeys.
  eapply hoare_bind;
    [apply (covers_whenOk (commitKeys o n)); intros; apply covers_recordCommit|].
  intros ?. eapply hoare_bind;
    [apply (covers_whenOk (releaseKeys o n)); intros; apply covers_recordRelease|].
  intros ?. eapply hoare_bind;
    [apply (covers_whenOk (issueKeys o n)); intros; apply covers_recordIssue|].
  intros ?. eapply covers_weaken;
    [apply (covers_whenOk (prKeys o n)); intros; apply covers_recordPR|].
  unfold initialCommits, initialReleases, initialIssues, initialPRs.
  rewrite !list_to_set_app_L. set_solver.
Qed.

Lemma seeded_by_recordExistingEvents p o n w k :
  healthy w -> k ∈ seedKeys p o n ->
  k ∈ records (exec (recordExistingEvents p o n) w).
Proof.
  intros Hh Hk.
  destruct (covers_recordExistingEvents p o n ∅ w) as (a & w' & E & _ & Hs).
  { split; [exact Hh | set_solver]. }
  unfold exec; rewrite E; simpl. set_solver.
Qed.

Lemma costs_ret {A} (a : A) c : costs c (ret a).
Proof. intros w; unfold exec; simpl; lia. Qed.

Lemma costs_weaken {A} c c' (m : M A) : costs c m -> (c <= c')%nat -> costs c' m.
Proof. intros H Hc w. specialize (H w). lia. Qed.

Lemma costs_bind {A B} a b c (m : M A) (f : A -> M B) :
  costs a m -> (forall x, costs b (f x)) -> (a + b <= c)%nat -> costs c (bind m f).
Proof.
  intros Hm Hf Hc w. rewrite exec_bind. specialize (Hm w).
  destruct (result m w) as [x|]; [specialize (Hf x (exec m w))|]; lia.
Qed.

Lemma costs_forM_ {A} c (body : A -> M unit) l :
  (forall x, costs c (body x)) -> costs (c * length l) (forM_ l body).
Proof.
  intros Hb. induction l as [|x l IH]; simpl.
  - apply costs_ret.
  - eapply costs_bind; [apply Hb | intros _; apply IH | lia].
Qed.

Lemma costs_RecordEvent o n t i : costs 1 (RecordEvent o n t i).
Proof.
  intros w. unfold exec, writes. rewrite RecordEvent_run; simpl.
  rewrite List.filter_app, length_app; simpl. lia.
Qed.

Lemma costs_recordCommit o n x : costs 1 (recordCommit o n x).
Proof.
  unfold recordCommit. destruct (negb _).
  - eapply costs_bind; [apply costs_RecordEvent | intros; apply (costs_ret _ 0) | lia].
  - apply costs_ret.
Qed.

Lemma costs_recordRelease o n x : costs 1 (recordRelease o n x).
Proof.
  unfold recordRelease. destruct (negb _).
  - eapply costs_bind; [apply costs_RecordEvent | intros; apply (costs_ret _ 0) | lia].
  - apply costs_ret.
Qed.

Lemma costs_recordIssue o n x : costs 2 (recordIssue o n x).
Proof.
  unfold recordIssue. destruct (negb _); [|apply costs_ret].
  eapply costs_bind; [apply costs_RecordEvent | intros _ | reflexivity].
  destruct (String.eqb _ _); [|apply costs_ret].
  eapply costs_bind; [apply costs_RecordEvent | intros; apply (costs_ret _ 0) | lia].
Qed.

Lemma costs_recordPR o n x : costs 2 (recordPR o n x).
Proof.
  unfold recordPR.
  eapply costs_bind; [apply costs_RecordEvent | intros _ | reflexivity].
  destruct (String.eqb _ _); [|apply costs_ret].
  eapply costs_bind; [apply costs_RecordEvent | intros; apply (costs_ret _ 0) | lia].
Qed.

Lemma costs_whenOk {A} c (body : A -> M unit) r :
  (forall x, costs c (body x)) -> costs (c * length (page r)) (whenOk r body).
Proof.
  intros Hb. destruct r as [l|]; simpl; [apply costs_forM_, Hb | apply costs_ret].
Qed.

Lemma page_bound {A} (r : option (list A)) (n : nat) :
  (forall l, r = Some l -> (length l <= n)%nat) -> (length (page r) <= n)%nat.
Proof.
  intros H. destruct r as [l|]; simpl; [|lia]. exact (H l eq_refl).
Qed.

Lemma costs_recordExistingEvents p o n :
  honoursPerPage (client p) -> costs 95 (recordExistingEvents p o n).
Proof.
  intros (Hc & Hr & Hi & Hp). unfold recordExistingEvents.
  pose proof (page_bound _ 10 (Hc o n (mkCommitsListOptions zeroTime 10))) as B1.
  pose proof (page_bound _ 5 (Hr o n (mkListOptions 5))) as B2.
  pose proof (page_bound _ 20
    (Hi o n (mkIssueListByRepoOptions "all" "created" "desc" zeroTime 20))) as B3.
  pose proof (page_bound _ 20
    (Hp o n (mkPullRequestListOptions "all" "created" "desc" 20))) as B4.
  eapply costs_weaken.
  - eapply costs_bind; [apply costs_whenOk, costs_recordCommit | intros _ | apply le_n].
    eapply costs_bind; [apply costs_whenOk, costs_recordRelease | intros _ | apply le_n].
    eapply costs_bind; [apply costs_whenOk, costs_recordIssue | intros _ | apply le_n].
    apply costs_whenOk, costs_recordPR.
  - lia.
Qed.

Lemma GetAllSubscribedRepos_run w :
  GetAllSubscribedRepos w =
    (Some (if hd false (dbFaults w) then ([], true)
           else (remove_dups (map (fun s => (SubRepoOwner s, SubRepoName s))
                                  (subscriptions w)), false)),
     mkWorld (records w) (subscriptions w) (tl (dbFaults w)) (eventsCh w)
             (chanCap w) (tgFaults w)
             (history w ++ [Select (hd false (dbFaults w))])).
Proof.
  unfold GetAllSubscribedRepos, bind, dbFault, record, rows, ret; simpl.
  destruct (hd false (dbFaults w)); reflexivity.
Qed.

Lemma seeded_by_initializeRepos p w s k :
  healthy w -> s ∈ subscriptions w ->
  k ∈ seedKeys p (SubRepoOwner s) (SubRepoName s) ->
  k ∈ records (exec (initializeRepos p) w).
Proof.
  intros Hh Hs Hk. unfold exec, initializeRepos, bind.
  rewrite GetAllSubscribedRepos_run. red in Hh; rewrite Hh; simpl.
  set (repos := remove_dups _).
  set (w1 := mkWorld _ _ _ _ _ _ _).
  assert (Hin : (SubRepoOwner s, SubRepoName s) ∈ repos).
  { apply elem_of_remove_dups, list_elem_of_In.
    apply (in_map (fun s => (SubRepoOwner s, SubRepoName s))).
    apply list_elem_of_In, Hs. }
  destruct (length repos =? 0)%nat eqn:E.
  - apply Nat.eqb_eq in E. destruct repos; [inversion Hin | discriminate].
  - destruct (covers_forM_ (fun repo => seedKeys p (fst repo) (snd repo))
                (fun repo => recordExistingEvents p (fst repo) (snd repo)) repos
                (fun x S => covers_recordExistingEvents p (fst x) (snd x) S) ∅ w1)
      as (a & w' & E' & _ & Hsub).
    { split; [reflexivity | set_solver]. }
    rewrite E'; simpl. apply Hsub, elem_of_union_r, elem_of_list_to_set.
    apply list_elem_of_In, in_flat_map.
    exists (SubRepoOwner s, SubRepoName s); split; apply list_elem_of_In; assumption.
Qed.

Lemma frame_of_quiet {A} (m : M A) w :
  quiet m ->
  eventsCh (exec m w) = eventsCh w /\ emitted (history (exec m w)) = emitted (history w).
Proof. intros H. apply (H (eventsCh w) (emitted (history w)) w). split; reflexivity. Qed.

(** C9: initialization sends nothing on the event channel, whatever the
    API answers and whatever fails; for one repository it attempts at most
    95 ledger writes when the API keeps to the page sizes asked for (10
    commits, 5 releases, 20 issues, 20 pull requests); and with a healthy
    storage it leaves in the ledger the key of every listed commit and
    published release, the created key of every listed issue and pull
    request, and for those already closed the terminal key as well:
    issue-N-closed, pr-N-merged when merged and pr-N-closed otherwise.  The
    same keys are in the ledger after [initializeRepos] for every
    subscribed repository. *)
Theorem initialization_seeds_silently p w :
  (eventsCh (exec (initializeRepos p) w) = eventsCh w
   /\ emitted (history (exec (initializeRepos p) w)) = emitted (history w))
  /\ (healthy w ->
      forall s k, s ∈ subscriptions w ->
        k ∈ seedKeys p (SubRepoOwner s) (SubRepoName s) ->
        k ∈ records (exec (initializeRepos p) w))
  /\ forall o n,
      let w' := exec (recordExistingEvents p o n) w in
      (eventsCh w' = eventsCh w /\ emitted (history w') = emitted (history w))
      /\ (honoursPerPage (client p) -> (writes w' <= writes w + 95)%nat)
      /\ (healthy w ->
          (forall c, c ∈ initialCommits p o n -> GetSHA c <> "" ->
             (o, n, "push", GetSHA c) ∈ records w')
          /\ (forall r, r ∈ initialReleases p o n -> GetDraft r = false ->
                (o, n, "release", releaseEventID (GetTagName r)) ∈ records w')
          /\ (forall i, i ∈ initialIssues p o n -> IsPullRequest i = false ->
                (o, n, "issues", issueCreatedID (GetIssueNumber i)) ∈ records w'
                /\ (GetIssueState i = "closed" ->
                    (o, n, "issues", issueClosedID (GetIssueNumber i)) ∈ records w'))
          /\ (forall pr, pr ∈ initialPRs p o n ->
                (o, n, "pull_request", prCreatedID (GetPRNumber pr)) ∈ records w'
                /\ (GetPRState pr = "closed" ->
                    (o, n, "pull_request",
                     if GetMerged pr then prMergedID (GetPRNumber pr)
                     else prClosedID (GetPRNumber pr)) ∈ records w'))).
Proof.
  split; [apply frame_of_quiet, quiet_initializeRepos|].
  split; [intros Hh s k; apply seeded_by_initializeRepos, Hh|].
  intros o n w'. split; [apply frame_of_quiet, quiet_recordExistingEvents|].
  split; [intros Hpp; apply costs_recordExistingEvents, Hpp|].
  intros Hh.
  assert (Hseed : forall k, In k (seedKeys p o n) -> k ∈ records w').
  { intros k Hk. apply seeded_by_recordExistingEvents; [exact Hh|].
    apply list_elem_of_In, Hk. }
  unfold seedKeys in Hseed. repeat split.
  - intros c Hc Hsha. apply Hseed, in_or_app; left.
    apply in_flat_map; exists c; split; [apply list_elem_of_In, Hc|].
    unfold commitKeys. apply String.eqb_neq in Hsha; rewrite Hsha. left; reflexivity.
  - intros r Hr Hd. apply Hseed, in_or_app; right; apply in_or_app; left.
    apply in_flat_map; exists r; split; [apply list_elem_of_In, Hr|].
    unfold releaseKeys. rewrite Hd. left; reflexivity.
  - apply Hseed, in_or_app; right; apply in_or_app; right; apply in_or_app; left.
    apply in_flat_map; exists i; split; [apply list_elem_of_In; assumption|].
    unfold issueKeys. rewrite H0. left; reflexivity.
  - intros Hc.
    apply Hseed, in_or_app; right; apply in_or_app; right; apply in_or_app; left.
    apply in_flat_map; exists i; split; [apply list_elem_of_In; assumption|].
    unfold issueKeys. rewrite H0. apply String.eqb_eq in Hc; rewrite Hc.
    right; left; reflexivity.
  - apply Hseed, in_or_app; right; apply in_or_app; right; apply in_or_app; right.
    apply in_flat_map; exists pr; split; [apply list_elem_of_In; assumption|].
    unfold prKeys. left; reflexivity.
  - intros Hc.
    apply Hseed, in_or_app; right; apply in_or_app; right; apply in_or_app; right.
    apply in_flat_map; exists pr; split; [apply list_elem_of_In; assumption|].
    unfold prKeys. apply String.eqb_eq in Hc; rewrite Hc. right; left; reflexivity.
Qed.

(** The sample upstream keeps to the page size and to [since]. *)
Lemma upstream_honoursPerPage commits releases issues prs :
  honoursPerPage (Sample.upstream commits releases issues prs).
Proof.
  unfold honoursPerPage, Sample.upstream, Sample.firstPage; simpl.
  repeat split; intros o n opts l [= <-]; rewrite length_firstn; lia.
Qed.

Lemma upstream_honoursSince commits releases issues prs :
  honoursSince (Sample.upstream commits releases issues prs).
Proof.
  intros o n opts l [= <-] x Hx. unfold Sample.firstPage in Hx.
  apply (subseteq_take (Z.to_nat (clPerPage opts))), list_elem_of_In in Hx.
  apply filter_In in Hx as [_ Hx]. apply negb_true_iff, Hx.
Qed.

Lemma initialization_seeds_silently_witness :
  let p := Sample.poller
             (Sample.upstream [Sample.commit1] [Sample.oldRelease]
                              [Sample.issue42] [Sample.oldPR]) in
  let w' := exec (recordExistingEvents p "acme" "widgets") Sample.world in
  (writes w' <= writes Sample.world + 95)%nat
  /\ ("acme", "widgets", "issues", "issue-42-created") ∈ records w'
  /\ ("acme", "widgets", "issues", "issue-42-closed") ∈ records w'
  /\ ("acme", "widgets", "pull_request", "pr-7-merged") ∈ records w'
  /\ ("acme", "widgets", "pull_request", "pr-7-merged")
       ∈ records (exec (initializeRepos p) Sample.world).
Proof.
  intros p w'.
  destruct (initialization_seeds_silently p Sample.world) as (_ & Hall & Hrepo).
  destruct (Hrepo "acme" "widgets") as (_ & Hbound & Hseed).
  destruct (Hseed eq_refl) as (_ & _ & Hissue & Hpr).
  destruct (Hissue Sample.issue42 ltac:(left) eq_refl) as (Hcreated & Hclosed).
  split; [apply Hbound, upstream_honoursPerPage|].
  split; [exact Hcreated|]. split; [exact (Hclosed eq_refl)|].
  split; [exact (proj2 (Hpr Sample.oldPR ltac:(left)) eq_refl)|].
  apply (Hall eq_refl (Sample.subscriber 1001 Sample.allEvents)); [left|].
  vm_compute. do 5 right. left.
Defined.

(** * The steady-state tick *)

Lemma quiet_pollCommits p o n :
  honoursSince (client p) -> nothingNew p o n -> quiet (pollCommits p o n).
Proof.
  intros Hs (Hc & _). unfold pollCommits. unfold tickCommits in Hc.
  destruct (ListCommits _ _ _ _) as [l|] eqn:E; [|apply quiet_ret].
  apply quiet_forM_. intros x Hx. exfalso.
  specialize (Hs _ _ _ _ E x Hx). specialize (Hc x Hx). simpl in Hs. congruence.
Qed.

Lemma quiet_pollReleases p o n : nothingNew p o n -> quiet (pollReleases p o n).
Proof.
  intros (_ & Hr & _). unfold pollReleases. unfold tickReleases in Hr.
  destruct (ListReleases _ _ _ _) as [l|]; [|apply quiet_ret].
  apply quiet_forM_. intros x Hx. unfold pollRelease.
  rewrite (Hr x Hx). destruct (GetDraft x); apply quiet_ret.
Qed.

Lemma not_After_of_Before t u : Before t u = true -> After t u = false.
Proof. unfold Before, After. intros H. apply Z.ltb_lt in H. rewrite Z.gtb_ltb. apply Z.ltb_ge. lia. Qed.

Lemma quiet_pollIssues p o n : nothingNew p o n -> quiet (pollIssues p o n).
Proof.
  intros (_ & _ & Hi & _). unfold pollIssues. unfold tickIssues in Hi.
  destruct (ListByRepo _ _ _ _) as [l|]; [|apply quiet_ret].
  apply quiet_forM_. intros x Hx. unfold pollIssue.
  destruct (Hi x Hx) as [Hcreated Hclosed]. rewrite Hcreated.
  destruct (IsPullRequest x); [apply quiet_ret|].
  destruct (String.eqb (GetIssueState x) "closed") eqn:E; [|apply quiet_ret].
  apply String.eqb_eq in E. destruct (Hclosed E) as [Hz | Hb].
  - rewrite Hz; simpl. apply quiet_ret.
  - rewrite (not_After_of_Before _ _ Hb), andb_false_r. apply quiet_ret.
Qed.

Lemma quiet_pollPullRequests p o n : nothingNew p o n -> quiet (pollPullRequests p o n).
Proof.
  intros (_ & _ & _ & Hp). unfold pollPullRequests. unfold tickPRs in Hp.
  destruct (ListPullRequests _ _ _ _) as [l|]; [|apply quiet_ret].
  apply quiet_forM_. intros x Hx. unfold pollPullRequest.
  destruct (Hp x Hx) as [Hcreated Hclosed]. rewrite Hcreated.
  destruct (String.eqb (GetPRState x) "closed") eqn:E; [|apply quiet_ret].
  apply String.eqb_eq in E. destruct (Hclosed E) as [Hz | Hb].
  - rewrite Hz; simpl. apply quiet_ret.
  - rewrite (not_After_of_Before _ _ Hb), andb_false_r. apply quiet_ret.
Qed.

Lemma quiet_pollRepo p o n :
  honoursSince (client p) -> nothingNew p o n -> quiet (pollRepo p o n).
Proof.
  intros Hs Hn. unfold pollRepo.
  apply quiet_bind; [apply quiet_pollCommits; assumption | intros _].
  apply quiet_bind; [apply quiet_pollReleases; assumption | intros _].
  apply quiet_bind; [apply quiet_pollIssues; assumption | intros _].
  apply quiet_pollPullRequests; assumption.
Qed.

Lemma quiet_after_commits p o n :
  nothingNew p o n ->
  quiet (pollReleases p o n ;;; pollIssues p o n ;;; pollPullRequests p o n).
Proof.
  intros Hn.
  apply quiet_bind; [apply quiet_pollReleases; assumption | intros _].
  apply quiet_bind; [apply quiet_pollIssues; assumption | intros _].
  apply quiet_pollPullRequests; assumption.
Qed.

(** The commit scan offers nothing for commits whose keys the ledger holds,
    when the storage answers. *)
Lemma seeded_pollCommits p o n S ch sent :
  (forall c, c ∈ tickCommits p o n ->
     GetSHA c = "" \/ (o, n, "push", GetSHA c) ∈ S) ->
  preserves (fun w => covers S w /\ quiet_since ch sent w) (pollCommits p o n).
Proof.
  intros Hkeys. unfold pollCommits. unfold tickCommits in Hkeys.
  destruct (ListCommits _ _ _ _) as [l|]; [|apply preserves_ret].
  apply preserves_forM_. intros c Hc w ([Hh HS] & Hch & Hsent).
  red in Hh. unfold exec, pollCommit.
  destruct (Hkeys c Hc) as [Hempty | Hk].
  { rewrite Hempty. simpl. repeat split; assumption. }
  destruct (String.eqb (GetSHA c) ""); [simpl; repeat split; assumption|].
  unfold bind. rewrite IsEventProcessed_run, Hh. cbn [hd tl].
  rewrite bool_decide_eq_true_2 by set_solver.
  simpl. repeat split; try assumption.
  unfold quiet_since in *; simpl. rewrite emitted_app; simpl. rewrite app_nil_r.
  assumption.
Qed.

Lemma seeded_commit_key p0 o n c :
  c ∈ initialCommits p0 o n ->
  GetSHA c = "" \/ (o, n, "push", GetSHA c) ∈ (list_to_set (seedKeys p0 o n) : gset Key).
Proof.
  intros Hc. destruct (String.eqb_spec (GetSHA c) "") as [He | He]; [left; exact He|].
  right. apply elem_of_list_to_set, list_elem_of_In. unfold seedKeys.
  apply in_or_app; left. apply in_flat_map. exists c.
  split; [apply list_elem_of_In, Hc|].
  unfold commitKeys. apply String.eqb_neq in He. rewrite He. left; reflexivity.
Qed.

(** C4: after [recordExistingEvents] for a repository, a tick on it for
    which the API lists only commits committed, releases published and
    issues and pull requests created (and, if closed, closed) before the
    watch epoch offers no event to the channel, however many such items
    there are.  Releases, issues and pull requests are held back by their
    dates, whatever the ledger holds and whatever the storage does.  The
    commit scan has no date check: it asks the API for the commits since
    the epoch, so either the API answers that question (and lists none),
    or the commits listed are those initialization listed and seeded, with
    the storage healthy. *)
Theorem no_backlog p0 p o n w :
  nothingNew p o n ->
  honoursSince (client p)
  \/ (healthy w /\ forall c, c ∈ tickCommits p o n -> c ∈ initialCommits p0 o n) ->
  let initialized := exec (recordExistingEvents p0 o n) w in
  let ticked := exec (pollRepo p o n) initialized in
  eventsCh ticked = eventsCh initialized
  /\ emitted (history ticked) = emitted (history initialized)
  /\ eventsCh ticked = eventsCh w
  /\ emitted (history ticked) = emitted (history w).
Proof.
  intros Hn Hcommits initialized ticked.
  destruct (frame_of_quiet (recordExistingEvents p0 o n) w
              (quiet_recordExistingEvents p0 o n)) as [H3 H4].
  fold initialized in H3, H4.
  assert (Hframe : quiet_since (eventsCh initialized) (emitted (history initialized))
                     ticked).
  { destruct Hcommits as [Hs | [Hh Hsub]].
    - apply (quiet_pollRepo p o n Hs Hn). split; reflexivity.
    - destruct (covers_recordExistingEvents p0 o n ∅ w) as (a & w1 & E & Hcov).
      { split; [exact Hh | set_solver]. }
      assert (Ew : initialized = w1) by (unfold initialized, exec; rewrite E; reflexivity).
      subst ticked. unfold pollRepo. rewrite exec_bind.
      assert (Hc : covers (∅ ∪ list_to_set (seedKeys p0 o n)) (exec (pollCommits p o n) initialized)
                   /\ quiet_since (eventsCh initialized) (emitted (history initialized))
                        (exec (pollCommits p o n) initialized)).
      { apply seeded_pollCommits.
        - intros c Hc. destruct (seeded_commit_key p0 o n c (Hsub c Hc)) as [He | Hk];
            [left; exact He | right; set_solver].
        - rewrite Ew. split; [exact Hcov | split; reflexivity]. }
      destruct (result (pollCommits p o n) initialized); [|apply Hc].
      apply (quiet_after_commits p o n Hn), Hc. }
  destruct Hframe as [H1 H2]. repeat split; congruence.
Qed.

Lemma no_backlog_witness :
  let p := Sample.poller
             (Sample.upstream [Sample.oldCommit] [Sample.oldRelease]
                              [Sample.issue42open; Sample.issue41] [Sample.oldPR]) in
  let initialized := exec (recordExistingEvents p "acme" "widgets") Sample.world in
  emitted (history (exec (pollRepo p "acme" "widgets") initialized)) = [].
Proof.
  intros p initialized.
  refine (proj2 (proj2 (proj2 (no_backlog p p "acme" "widgets" Sample.world _ _)))).
  2: left; apply upstream_honoursSince.
  - split; [|split; [|split]];
      intros x Hx; apply list_elem_of_In in Hx; vm_compute in Hx;
      repeat (destruct Hx as [<- | Hx];
              [vm_compute;
               first [reflexivity
                     | split; [reflexivity | intros E; first [discriminate E | auto]]]|]);
      destruct Hx.
Defined.

(** * The notifier *)

Lemma GetSubscriptionsByRepo_run o n w :
  GetSubscriptionsByRepo o n w =
    (Some (if hd false (dbFaults w) then ([], true) else (subscribersOf o n w, false)),
     mkWorld (records w) (subscriptions w) (tl (dbFaults w)) (eventsCh w)
             (chanCap w) (tgFaults w)
             (history w ++ [Select (hd false (dbFaults w))])).
Proof.
  unfold GetSubscriptionsByRepo, bind, dbFault, record, rows, ret; simpl.
  destruct (hd false (dbFaults w)); reflexivity.
Qed.

Section NotifierProperties.

Context {U_events : Unmarshal (list string)}.
Variable FormatMessage : Payload -> option string.

Lemma fanout_run eventType message subs w :
  forM_ subs (notifySubscriber eventType message) w =
    (Some tt,
     mkWorld (records w) (subscriptions w) (dbFaults w) (eventsCh w) (chanCap w)
             (fanoutFaults eventType subs (tgFaults w))
             (history w ++ fanout eventType message subs (tgFaults w))).
Proof.
  revert w. induction subs as [|sub rest IH]; intros w; simpl.
  - unfold ret. rewrite app_nil_r. destruct w; reflexivity.
  - unfold bind, notifySubscriber at 1. destruct (isEventEnabled sub eventType).
    + unfold sendNotification, bind, tgFault, record, logError, ret; simpl.
      destruct (hd false (tgFaults w)); simpl; rewrite IH; simpl;
        rewrite <- !app_assoc; reflexivity.
    + unfold ret. apply IH.
Qed.

Lemma header_not_empty event text : String.eqb (header event +:+ text) "" = false.
Proof. reflexivity. Qed.

(** What [HandleWebhookEvent] does when the subscribers are read, there is
    at least one, and the event does not come out of the membership check
    as processed: because the check failed or because the key is absent. *)
Lemma HandleWebhookEvent_run event text w :
  let k := keyOf event in
  let lookupErr := hd false (tl (dbFaults w)) in
  let recordErr := hd false (tl (tl (dbFaults w))) in
  let subs := subscribersOf (RepoOwner event) (RepoName event) w in
  let message := header event +:+ text in
  hd false (dbFaults w) = false ->
  subs <> [] ->
  lookupErr = true \/ k ∉ records w ->
  FormatMessage (EvPayload event) = Some text ->
  HandleWebhookEvent FormatMessage event w =
    (Some None,
     mkWorld (if recordErr then records w else {[ k ]} ∪ records w)
             (subscriptions w) (tl (tl (tl (dbFaults w)))) (eventsCh w) (chanCap w)
             (fanoutFaults (Type_ event) subs (tgFaults w))
             (history w
              ++ [Select false; Lookup k lookupErr]
              ++ (if lookupErr then [Warned "Failed to check event processing status"]
                  else [])
              ++ fanout (Type_ event) message subs (tgFaults w)
              ++ [Insert k recordErr]
              ++ (if recordErr then [Warned "Failed to record event"] else []))).
Proof.
  intros k lookupErr recordErr subs message Hsel Hsubs Hnew Hfmt.
  subst k lookupErr recordErr subs message. unfold keyOf in *.
  unfold HandleWebhookEvent, bind at 1. rewrite GetSubscriptionsByRepo_run, Hsel.
  destruct (subscribersOf (RepoOwner event) (RepoName event) w) as [|s0 rest] eqn:Esubs;
    [congruence|].
  cbn [length Nat.eqb]. unfold bind at 1. rewrite IsEventProcessed_run.
  cbn [dbFaults records history subscriptions eventsCh chanCap tgFaults].
  match goal with
  | |- context [if (if ?e then false else ?b) then _ else _] =>
      assert (Hproc : (if e then false else b) = false)
  end.
  { destruct Hnew as [-> | Hk]; [reflexivity|].
    destruct (hd false (tl (dbFaults w))); [reflexivity|].
    apply bool_decide_eq_false, Hk. }
  rewrite Hproc.
  unfold buildMessage. rewrite Hfmt. fold (header event).
  unfold bind. unfold logWarn, record, ret.
  destruct (hd false (tl (dbFaults w)));
    cbn [dbFaults records history subscriptions eventsCh chanCap tgFaults];
    rewrite header_not_empty;
    rewrite fanout_run;
    cbn [dbFaults records history subscriptions eventsCh chanCap tgFaults];
    rewrite RecordEvent_run;
    cbn [dbFaults records history subscriptions eventsCh chanCap tgFaults];
    destruct (hd false (tl (tl (dbFaults w))));
    cbn [dbFaults records history subscriptions eventsCh chanCap tgFaults];
    rewrite <- ?app_assoc; reflexivity.
Qed.

Lemma HandleWebhookEvent_processed event w :
  hd false (dbFaults w) = false ->
  subscribersOf (RepoOwner event) (RepoName event) w <> [] ->
  hd false (tl (dbFaults w)) = false ->
  keyOf event ∈ records w ->
  HandleWebhookEvent FormatMessage event w =
    (Some None,
     mkWorld (records w) (subscriptions w) (tl (tl (dbFaults w))) (eventsCh w)
             (chanCap w) (tgFaults w)
             (history w ++ [Select false; Lookup (keyOf event) false])).
Proof.
  intros Hsel Hsubs Hlook Hk. unfold keyOf in *.
  unfold HandleWebhookEvent, bind at 1. rewrite GetSubscriptionsByRepo_run, Hsel.
  destruct (subscribersOf (RepoOwner event) (RepoName event) w) as [|s0 rest] eqn:Esubs;
    [congruence|].
  cbn [length Nat.eqb]. unfold bind at 1. rewrite IsEventProcessed_run.
  cbn [dbFaults records history subscriptions eventsCh chanCap tgFaults].
  rewrite Hlook, (bool_decide_eq_true_2 _ Hk). unfold bind, ret; simpl.
  rewrite <- app_assoc. reflexivity.
Qed.

(** With a healthy storage and a subscriber, the key of a handled event is
    in the ledger afterwards, and the storage is still healthy. *)
Lemma HandleWebhookEvent_records event text w :
  healthy w ->
  subscribersOf (RepoOwner event) (RepoName event) w <> [] ->
  FormatMessage (EvPayload event) = Some text ->
  let w' := exec (HandleWebhookEvent FormatMessage event) w in
  healthy w' /\ keyOf event ∈ records w' /\ eventsCh w' = eventsCh w
  /\ emitted (history w') = emitted (history w).
Proof.
  intros Hh Hsubs Hfmt w'. subst w'. red in Hh. unfold exec.
  destruct (decide (keyOf event ∈ records w)) as [Hk | Hk].
  - rewrite HandleWebhookEvent_processed; try assumption; try (rewrite Hh; reflexivity).
    simpl. rewrite Hh, emitted_app. simpl. rewrite ?app_nil_r.
    repeat split; [exact Hk].
  - rewrite (HandleWebhookEvent_run event text);
      try assumption; try (rewrite Hh; reflexivity); [|right; exact Hk].
    rewrite Hh; simpl. split; [reflexivity|]. split; [set_solver|].
    split; [reflexivity|].
    rewrite !emitted_app; simpl.
    rewrite ?app_nil_r.
    assert (Hsilent : forall t m l f, emitted (fanout t m l f) = []).
    { intros t m l. induction l as [|x l IH]; intros f; simpl; [reflexivity|].
      destruct (isEventEnabled x t); [|apply IH].
      rewrite emitted_app, IH. destruct (hd false f); reflexivity. }
    rewrite emitted_app, Hsilent. apply app_nil_r.
Qed.

End NotifierProperties.

(** * Cross-source deduplication of pushes *)

Lemma knownPush_step o n sha offered waiting w w' :
  knownPush o n sha offered waiting w ->
  dbFaults w' = [] ->
  records w' = records w ->
  List.filter (announces sha) (emitted (history w'))
    = List.filter (announces sha) (emitted (history w)) ->
  List.filter (announces sha) (eventsCh w') = List.filter (announces sha) (eventsCh w) ->
  knownPush o n sha offered waiting w'.
Proof.
  intros (Hh & Hk & Ho & Hw) Hd Hr He Hc. repeat split.
  - exact Hd.
  - rewrite Hr; exact Hk.
  - rewrite He; exact Ho.
  - rewrite Hc; exact Hw.
Qed.

Lemma knownPush_pollCommit o n sha offered waiting x :
  preserves (knownPush o n sha offered waiting) (pollCommit o n x).
Proof.
  intros w Hknown. pose proof Hknown as (Hh & Hk & _). red in Hh.
  unfold exec, pollCommit.
  destruct (String.eqb (GetSHA x) "") eqn:Eempty; [exact Hknown|].
  unfold bind at 1. rewrite IsEventProcessed_run, Hh.
  cbn [hd tl dbFaults records history subscriptions eventsCh chanCap tgFaults].
  destruct (bool_decide _) eqn:Eproc.
  - apply (knownPush_step _ _ _ _ _ w); try assumption; try reflexivity.
    simpl. rewrite emitted_app; simpl. rewrite app_nil_r. reflexivity.
  - assert (Hne : String.eqb (GetSHA x) sha = false).
    { apply String.eqb_neq. intros E. rewrite E in Eproc.
      apply bool_decide_eq_false in Eproc. tauto. }
    unfold bind, trySend;
      cbn [dbFaults records history subscriptions eventsCh chanCap tgFaults].
    destruct (length (eventsCh w) <? chanCap w)%nat.
    + destruct (String.length (GetSHA x) <? 7)%nat;
        (apply (knownPush_step _ _ _ _ _ w); try assumption; try reflexivity;
         simpl; rewrite ?emitted_app, ?List.filter_app; simpl;
         unfold announces at 2; simpl; rewrite Hne, ?app_nil_r; reflexivity).
    + apply (knownPush_step _ _ _ _ _ w); try assumption; try reflexivity.
      unfold logWarn, record; simpl. rewrite ?emitted_app, ?List.filter_app; simpl.
      unfold announces at 2; simpl. rewrite Hne, ?app_nil_r. reflexivity.
Qed.

Lemma knownPush_pollCommits p o n sha offered waiting :
  preserves (knownPush o n sha offered waiting) (pollCommits p o n).
Proof.
  unfold pollCommits. destruct (ListCommits _ _ _ _) as [l|]; [|apply preserves_ret].
  apply preserves_forM_. intros x _. apply knownPush_pollCommit.
Qed.

Section CrossSource.

Context {U_events : Unmarshal (list string)}.
Variable FormatMessage : Payload -> option string.

(** C2: when the notifier has handled the webhook push whose head commit
    is S for a repository with a subscriber, the ledger holds the key
    (owner, name, push, S); the commit scan of the poller that lists S,
    right then or in any later world whose ledger still holds the key,
    finds the key and offers no event for S to the channel, so the notifier
    is not given S a second time.  (The storage answers throughout: a
    failed check fails open.) *)
Theorem cross_source_dedup event push text w :
  EvPayload event = PPush push ->
  Type_ event = "push" ->
  healthy w ->
  subscribersOf (RepoOwner event) (RepoName event) w <> [] ->
  FormatMessage (EvPayload event) = Some text ->
  let sha := PushAfter push in
  let handled := exec (HandleWebhookEvent FormatMessage event) w in
  (RepoOwner event, RepoName event, "push", sha) ∈ records handled
  /\ (forall p,
        let polled := exec (pollCommits p (RepoOwner event) (RepoName event)) handled in
        List.filter (announces sha) (emitted (history polled))
          = List.filter (announces sha) (emitted (history w))
        /\ List.filter (announces sha) (eventsCh polled)
           = List.filter (announces sha) (eventsCh w))
  /\ (forall later p,
        healthy later -> records handled ⊆ records later ->
        let polled := exec (pollCommits p (RepoOwner event) (RepoName event)) later in
        List.filter (announces sha) (emitted (history polled))
          = List.filter (announces sha) (emitted (history later))
        /\ List.filter (announces sha) (eventsCh polled)
           = List.filter (announces sha) (eventsCh later)).
Proof.
  intros Hpush Htype Hh Hsubs Hfmt sha handled.
  destruct (HandleWebhookEvent_records FormatMessage event text w Hh Hsubs Hfmt)
    as (Hh' & Hk & Hch & Hem).
  fold handled in Hh', Hk, Hch, Hem.
  assert (Hkey : (RepoOwner event, RepoName event, "push", sha) ∈ records handled).
  { unfold keyOf, generateEventID in Hk. rewrite Hpush, Htype in Hk. exact Hk. }
  assert (Hlater : forall later p,
             healthy later ->
             (RepoOwner event, RepoName event, "push", sha) ∈ records later ->
             let polled :=
               exec (pollCommits p (RepoOwner event) (RepoName event)) later in
             List.filter (announces sha) (emitted (history polled))
               = List.filter (announces sha) (emitted (history later))
             /\ List.filter (announces sha) (eventsCh polled)
                = List.filter (announces sha) (eventsCh later)).
  { intros later p Hl Hkl polled.
    destruct (knownPush_pollCommits p (RepoOwner event) (RepoName event) sha
                (List.filter (announces sha) (emitted (history later)))
                (List.filter (announces sha) (eventsCh later)) later)
      as (_ & _ & Ho & Hw); [repeat split; assumption|].
    split; assumption. }
  split; [exact Hkey|]. split.
  - intros p polled. destruct (Hlater handled p Hh' Hkey) as [Ho Hw].
    fold polled in Ho, Hw. rewrite Ho, Hw, Hem, Hch. split; reflexivity.
  - intros later p Hl Hsub. apply Hlater; [exact Hl | set_solver].
Qed.

Lemma fanout_attempts eventType message subs faults s :
  In s subs -> isEventEnabled s eventType = true ->
  In (Delivered (ChatID s) message) (fanout eventType message subs faults)
  \/ In (DeliveryFailed (ChatID s) message) (fanout eventType message subs faults).
Proof.
  revert faults. induction subs as [|x rest IH]; intros faults Hin Hen; [destruct Hin|].
  simpl. destruct Hin as [-> | Hin].
  - rewrite Hen. destruct (hd false faults); [right | left]; left; reflexivity.
  - destruct (isEventEnabled x eventType).
    + destruct (IH (tl faults) Hin Hen) as [H | H]; [left | right];
        apply in_or_app; right; exact H.
    + apply IH; assumption.
Qed.

Lemma fanout_delivers eventType message subs s :
  In s subs -> isEventEnabled s eventType = true ->
  In (Delivered (ChatID s) message) (fanout eventType message subs []).
Proof.
  induction subs as [|x rest IH]; intros Hin Hen; [destruct Hin|].
  simpl. destruct Hin as [-> | Hin].
  - rewrite Hen. left; reflexivity.
  - destruct (isEventEnabled x eventType); [right|]; apply IH; assumption.
Qed.

End CrossSource.

Lemma cross_source_dedup_witness :
  let event :=
    mkWebhookEvent "push" "acme" "widgets"
      (PPush (mkPushEvent "refs/heads/main" "" Sample.sha1 []
                (mkUserInfo "octocat" "" "") "")) in
  let p := Sample.poller (Sample.upstream [Sample.commit1] [] [] []) in
  let handled :=
    exec (@HandleWebhookEvent Sample.events_decoder Sample.format event) Sample.world in
  List.filter (announces Sample.sha1)
    (emitted (history (exec (pollCommits p "acme" "widgets") handled))) = [].
Proof.
  intros event p handled.
  exact (proj1 (proj1 (proj2 (@cross_source_dedup Sample.events_decoder Sample.format
                                event _ "push" Sample.world eq_refl eq_refl eq_refl
                                ltac:(discriminate) eq_refl)) p)).
Defined.

(** * Failed membership checks *)

Ltac offer_after Herr :=
  unfold offers, exec, bind; rewrite IsEventProcessed_run, Herr; simpl;
  unfold trySend; simpl;
  destruct (length _ <? _)%nat eqn:Eroom; simpl;
  repeat match goal with
         | |- context [if ?b then _ else _] => destruct b; simpl
         end;
  unfold logWarn, record, panic, ret; simpl;
  rewrite ?emitted_app; simpl; rewrite ?app_nil_r;
  (split; [reflexivity
          | intros Hroom; first [reflexivity | apply Nat.ltb_ge in Eroom; lia]]).

Lemma pollCommit_fails_open o n x w :
  hd false (dbFaults w) = true -> GetSHA x <> "" ->
  offers (pollCommit o n x) w (pushEventOf o n x).
Proof.
  intros Herr Hsha. unfold pollCommit.
  apply String.eqb_neq in Hsha; rewrite Hsha. offer_after Herr.
Qed.

Lemma pollRelease_fails_open p o n x w :
  hd false (dbFaults w) = true ->
  GetDraft x = false -> Before (GetPublishedAt x) (startTime p) = false ->
  offers (pollRelease p o n x) w (releaseEventOf o n x).
Proof.
  intros Herr Hd Hb. unfold pollRelease. rewrite Hd, Hb. offer_after Herr.
Qed.

Lemma notifyIssueClosed_fails_open o n x w :
  hd false (dbFaults w) = true ->
  offers (notifyIssueClosed o n x) w (issueEventOf o n "closed" "closed" x).
Proof. intros Herr. unfold notifyIssueClosed. offer_after Herr. Qed.

Lemma pollIssue_fails_open p o n x w :
  hd false (dbFaults w) = true ->
  IsPullRequest x = false -> Before (GetIssueCreatedAt x) (startTime p) = false ->
  offers (pollIssue p o n x) w (issueEventOf o n "opened" (GetIssueState x) x).
Proof.
  intros Herr Hpr Hb. unfold pollIssue. rewrite Hpr, Hb. offer_after Herr.
Qed.

Lemma notifyPRClosed_fails_open o n x w :
  hd false (dbFaults w) = true ->
  offers (notifyPRClosed o n x) w
    (prEvent o n (if GetMerged x then "merged" else "closed") "closed" (GetMerged x) x).
Proof.
  intros Herr. unfold notifyPRClosed. destruct (GetMerged x); offer_after Herr.
Qed.

Lemma pollPullRequest_fails_open p o n x w :
  hd false (dbFaults w) = true ->
  Before (GetPRCreatedAt x) (startTime p) = false ->
  offers (pollPullRequest p o n x) w
    (prEvent o n "opened" (GetPRState x) (GetMerged x) x).
Proof.
  intros Herr Hb. unfold pollPullRequest. rewrite Hb. offer_after Herr.
Qed.

Section FailOpen.

Context {U_events : Unmarshal (list string)}.
Variable FormatMessage : Payload -> option string.

(** C6: when [IsEventProcessed] returns an error, the event is treated
    as not processed.  The notifier (subscribers read, at least one)
    logs the failure, builds the message, attempts the send to every
    subscriber whose filter admits the event type (each send delivered
    when Telegram does not fail), attempts the ledger commit, which
    leaves the key in the ledger unless that write fails too, and
    returns nil.  The poller offers the event to the channel, at each of
    its six membership checks, and the event is in the channel when the
    buffer has room. *)
Theorem lookup_failure_fails_open :
  (forall event text w,
      hd false (dbFaults w) = false ->
      hd false (tl (dbFaults w)) = true ->
      subscribersOf (RepoOwner event) (RepoName event) w <> [] ->
      FormatMessage (EvPayload event) = Some text ->
      let w' := exec (HandleWebhookEvent FormatMessage event) w in
      let message := header event +:+ text in
      let recordErr := hd false (tl (tl (dbFaults w))) in
      result (HandleWebhookEvent FormatMessage event) w = Some None
      /\ In (Lookup (keyOf event) true) (history w')
      /\ In (Warned "Failed to check event processing status") (history w')
      /\ (forall s, In s (subscribersOf (RepoOwner event) (RepoName event) w) ->
            isEventEnabled s (Type_ event) = true ->
            In (Delivered (ChatID s) message) (history w')
            \/ In (DeliveryFailed (ChatID s) message) (history w'))
      /\ (tgFaults w = [] ->
          forall s, In s (subscribersOf (RepoOwner event) (RepoName event) w) ->
            isEventEnabled s (Type_ event) = true ->
            In (Delivered (ChatID s) message) (history w'))
      /\ In (Insert (keyOf event) recordErr) (history w')
      /\ (recordErr = false -> keyOf event ∈ records w'))
  /\ (forall o n x w,
        hd false (dbFaults w) = true -> GetSHA x <> "" ->
        offers (pollCommit o n x) w (pushEventOf o n x))
  /\ (forall p o n x w,
        hd false (dbFaults w) = true ->
        GetDraft x = false -> Before (GetPublishedAt x) (startTime p) = false ->
        offers (pollRelease p o n x) w (releaseEventOf o n x))
  /\ (forall p o n x w,
        hd false (dbFaults w) = true ->
        IsPullRequest x = false ->
        Before (GetIssueCreatedAt x) (startTime p) = false ->
        offers (pollIssue p o n x) w
          (issueEventOf o n "opened" (GetIssueState x) x))
  /\ (forall o n x w,
        hd false (dbFaults w) = true ->
        offers (notifyIssueClosed o n x) w (issueEventOf o n "closed" "closed" x))
  /\ (forall p o n x w,
        hd false (dbFaults w) = true ->
        Before (GetPRCreatedAt x) (startTime p) = false ->
        offers (pollPullRequest p o n x) w
          (prEvent o n "opened" (GetPRState x) (GetMerged x) x))
  /\ (forall o n x w,
        hd false (dbFaults w) = true ->
        offers (notifyPRClosed o n x) w
          (prEvent o n (if GetMerged x then "merged" else "closed") "closed"
                   (GetMerged x) x)).
Proof.
  split.
  { intros event text w Hsel Hlook Hsubs Hfmt w' message recordErr.
    pose proof (HandleWebhookEvent_run FormatMessage event text w Hsel Hsubs
                  (or_introl Hlook) Hfmt) as Hrun.
    cbv zeta in Hrun. rewrite Hlook in Hrun.
    subst w'. unfold exec, result. rewrite Hrun.
    cbn [fst snd history records]. fold message recordErr.
    split; [reflexivity|].
    split; [rewrite !in_app_iff; simpl; tauto|].
    split; [rewrite !in_app_iff; simpl; tauto|].
    split.
    { intros s Hs Hen.
      destruct (fanout_attempts (Type_ event) message _ (tgFaults w) s Hs Hen)
        as [H | H]; [left | right]; rewrite !in_app_iff; tauto. }
    split.
    { intros Htg s Hs Hen. rewrite Htg.
      pose proof (fanout_delivers (Type_ event) message _ s Hs Hen) as H.
      rewrite !in_app_iff; tauto. }
    split; [rewrite !in_app_iff; simpl; tauto|].
    intros ->. set_solver. }
  split; [exact pollCommit_fails_open|].
  split; [exact pollRelease_fails_open|].
  split; [exact pollIssue_fails_open|].
  split; [exact notifyIssueClosed_fails_open|].
  split; [exact pollPullRequest_fails_open | exact notifyPRClosed_fails_open].
Qed.

End FailOpen.

Lemma lookup_failure_fails_open_witness :
  let event := issueEventOf "acme" "widgets" "opened" "open" Sample.issue43 in
  let w := Sample.withFaults [false; true] Sample.world in
  In (Delivered 1001 (header event +:+ "issue"))
     (history (exec (@HandleWebhookEvent Sample.events_decoder Sample.format event) w))
  /\ offers (pollCommit "acme" "widgets" Sample.commit1)
            (Sample.withFaults [true] Sample.world)
            (pushEventOf "acme" "widgets" Sample.commit1).
Proof.
  intros event w.
  destruct (@lookup_failure_fails_open Sample.events_decoder Sample.format)
    as (Hnotifier & Hcommit & _).
  split.
  - destruct (Hnotifier event "issue" w eq_refl eq_refl ltac:(discriminate) eq_refl)
      as (_ & _ & _ & _ & Hdeliver & _).
    apply (Hdeliver eq_refl (Sample.subscriber 1001 Sample.allEvents)).
    + left; reflexivity.
    + reflexivity.
  - apply Hcommit; [reflexivity | discriminate].
Defined.

(** * The webhook ingestor *)

Section WebhookProperties.

Context {U_base : Unmarshal baseEvent}
        {U_push : Unmarshal pushPayload}
        {U_release : Unmarshal releasePayload}
        {U_issue : Unmarshal issuePayload}
        {U_pr : Unmarshal prPayload}.

Lemma allowed_dec action :
  negb (String.eqb action "opened") && negb (String.eqb action "closed")
    && negb (String.eqb action "reopened") = false <-> allowed action.
Proof.
  unfold allowed.
  destruct (String.eqb_spec action "opened"), (String.eqb_spec action "closed"),
    (String.eqb_spec action "reopened"); simpl; split; intros H; auto;
    try discriminate; destruct H as [H | [H | H]]; congruence.
Qed.

(** C7: for a request whose body decodes, [parseEvent] returns at most
    one event (its result holds an optional event), and returns one
    exactly for: push, whatever the payload; release with action
    published; issues and pull_request with action opened, closed or
    reopened.  The event carries the type of the request and the
    repository of the body.  Any other action of these types, and any
    other event type, gives no event and no error. *)
Theorem parseEvent_allow_list eventType body base :
  unmarshal body = Some base ->
  (forall ev, parseEvent eventType body = Parsed (Some ev) ->
     Type_ ev = eventType
     /\ RepoOwner ev = baseOwnerLogin base /\ RepoName ev = baseName base
     /\ ((eventType = "push" /\ exists e, EvPayload ev = PPush e)
         \/ (eventType = "release"
             /\ exists e, EvPayload ev = PRelease e /\ RelAction e = "published")
         \/ (eventType = "issues"
             /\ exists e, EvPayload ev = PIssue e /\ allowed (IssAction e))
         \/ (eventType = "pull_request"
             /\ exists e, EvPayload ev = PPullRequest e /\ allowed (PRAction e))))
  /\ (eventType = "push" -> forall p : pushPayload, unmarshal body = Some p ->
      exists ev, parseEvent eventType body = Parsed (Some ev))
  /\ (eventType = "release" -> forall p : releasePayload, unmarshal body = Some p ->
      if String.eqb (rpAction p) "published"
      then exists ev, parseEvent eventType body = Parsed (Some ev)
      else parseEvent eventType body = Parsed None)
  /\ (eventType = "issues" -> forall p : issuePayload, unmarshal body = Some p ->
      (allowed (ipAction p) -> exists ev, parseEvent eventType body = Parsed (Some ev))
      /\ (~ allowed (ipAction p) -> parseEvent eventType body = Parsed None))
  /\ (eventType = "pull_request" -> forall p : prPayload, unmarshal body = Some p ->
      (allowed (prAction p) -> exists ev, parseEvent eventType body = Parsed (Some ev))
      /\ (~ allowed (prAction p) -> parseEvent eventType body = Parsed None))
  /\ (eventType <> "push" -> eventType <> "release" -> eventType <> "issues" ->
      eventType <> "pull_request" -> parseEvent eventType body = Parsed None).
Proof.
  intros Hbase. unfold parseEvent. rewrite Hbase. cbv zeta. repeat apply conj.
  - intros ev.
    destruct (String.eqb_spec eventType "push") as [-> | Hn1].
    { cbn iota. destruct (unmarshal (T := pushPayload) body) as [p|]; [|discriminate].
      intros [= <-]; simpl. repeat split. left. split; [reflexivity | eauto]. }
    destruct (String.eqb_spec eventType "release") as [-> | Hn2].
    { cbn iota. destruct (unmarshal (T := releasePayload) body) as [p|]; [|discriminate].
      destruct (String.eqb_spec (rpAction p) "published") as [Ha | Ha]; simpl;
        [|discriminate].
      intros [= <-]; simpl. repeat split. right; left. split; [reflexivity | eauto]. }
    destruct (String.eqb_spec eventType "issues") as [-> | Hn3].
    { cbn iota. destruct (unmarshal (T := issuePayload) body) as [p|]; [|discriminate].
      destruct (_ && _) eqn:Ea; [discriminate|]. apply allowed_dec in Ea.
      intros [= <-]; simpl. repeat split. right; right; left.
      split; [reflexivity | eauto]. }
    destruct (String.eqb_spec eventType "pull_request") as [-> | Hn4].
    { cbn iota. destruct (unmarshal (T := prPayload) body) as [p|]; [|discriminate].
      destruct (_ && _) eqn:Ea; [discriminate|]. apply allowed_dec in Ea.
      intros [= <-]; simpl. repeat split. right; right; right.
      split; [reflexivity | eauto]. }
    discriminate.
  - intros -> p Hp. simpl. rewrite Hp. eauto.
  - intros -> p Hp. simpl. rewrite Hp.
    destruct (String.eqb (rpAction p) "published"); simpl; eauto.
  - intros -> p Hp. simpl. rewrite Hp. split; intros Ha.
    + apply allowed_dec in Ha. rewrite Ha. eauto.
    + destruct (_ && _) eqn:Ea; [reflexivity|]. apply allowed_dec in Ea. tauto.
  - intros -> p Hp. simpl. rewrite Hp. split; intros Ha.
    + apply allowed_dec in Ha. rewrite Ha. eauto.
    + destruct (_ && _) eqn:Ea; [reflexivity|]. apply allowed_dec in Ea. tauto.
  - intros H1 H2 H3 H4.
    apply String.eqb_neq in H1, H2, H3, H4. rewrite H1, H2, H3, H4. reflexivity.
Qed.

End WebhookProperties.

Section ServeProperties.

Context {U_base : Unmarshal baseEvent}
        {U_push : Unmarshal pushPayload}
        {U_release : Unmarshal releasePayload}
        {U_issue : Unmarshal issuePayload}
        {U_pr : Unmarshal prPayload}.
Variable hmacSHA256 : string -> string -> string.

Lemma ServeHTTP_run h r w :
  ServeHTTP hmacSHA256 h r w =
    if negb (String.eqb (Method r) "POST") then (Some StatusMethodNotAllowed, w)
    else
      match Body r with
      | None => (Some StatusBadRequest,
                 exec (logError "Failed to read webhook body") w)
      | Some body =>
          if negb (String.eqb (secret h) "")
             && negb (verifySignature hmacSHA256 h body (XHubSignature256 r))
          then (Some StatusUnauthorized, exec (logWarn "Invalid webhook signature") w)
          else if String.eqb (XGitHubEvent r) "" then (Some StatusBadRequest, w)
          else
            match parseEvent (XGitHubEvent r) body with
            | ParseError _ =>
                (Some StatusBadRequest, exec (logError "Failed to parse event") w)
            | Parsed None => (Some StatusOK, w)
            | Parsed (Some event) =>
                (Some StatusOK,
                 if (length (eventsCh w) <? chanCap w)%nat
                 then exec (trySend event) w
                 else exec (logWarn "Event channel full, dropping event")
                           (exec (trySend event) w))
            end
      end.
Proof.
  unfold ServeHTTP.
  destruct (negb (String.eqb (Method r) "POST")); [reflexivity|].
  destruct (Body r) as [body|]; [|reflexivity].
  destruct (_ && _); [reflexivity|].
  destruct (String.eqb (XGitHubEvent r) ""); [reflexivity|].
  destruct (parseEvent (XGitHubEvent r) body) as [[event|]|msg]; try reflexivity.
  unfold bind, trySend, exec.
  destruct (length (eventsCh w) <? chanCap w)%nat; reflexivity.
Qed.

Lemma badSignature_iff h r body :
  Body r = Some body ->
  badSignature hmacSHA256 h r <->
  negb (String.eqb (secret h) "")
    && negb (verifySignature hmacSHA256 h body (XHubSignature256 r)) = true.
Proof.
  intros Hb. unfold badSignature. rewrite Hb.
  destruct (String.eqb_spec (secret h) ""); simpl.
  - split; [tauto | discriminate].
  - rewrite negb_true_iff. split.
    + intros (_ & b & [= <-] & Hv); exact Hv.
    + intros Hv; split; [assumption | eauto].
Qed.

Lemma unparsable_iff r body :
  Body r = Some body ->
  unparsable r <-> exists msg, parseEvent (XGitHubEvent r) body = ParseError msg.
Proof.
  intros Hb. unfold unparsable. rewrite Hb. split.
  - intros (b & msg & [= <-] & H); eauto.
  - intros (msg & H); eauto.
Qed.

Lemma ServeHTTP_accepts h r w body :
  Method r = "POST" -> Body r = Some body ->
  ~ badSignature hmacSHA256 h r -> ~ missingEventType r ->
  ServeHTTP hmacSHA256 h r w =
    match parseEvent (XGitHubEvent r) body with
    | ParseError _ => (Some StatusBadRequest, exec (logError "Failed to parse event") w)
    | Parsed None => (Some StatusOK, w)
    | Parsed (Some event) =>
        (Some StatusOK,
         if (length (eventsCh w) <? chanCap w)%nat
         then exec (trySend event) w
         else exec (logWarn "Event channel full, dropping event")
                   (exec (trySend event) w))
    end.
Proof.
  intros Hm Hb Hsig He. rewrite ServeHTTP_run, Hm, Hb; simpl.
  rewrite (badSignature_iff h r body Hb) in Hsig.
  apply not_true_is_false in Hsig. rewrite Hsig.
  apply String.eqb_neq in He. rewrite He. reflexivity.
Qed.

(** C8: the status [ServeHTTP] answers with.  It is 405 exactly for a
    method other than POST.  For a POST the checks run in the order body,
    signature, event type header, payload: 400 for an unreadable body;
    else 401 when a secret is configured and the signature does not
    verify; else 400 when the X-GitHub-Event header is missing; else 400
    when the payload does not parse; else 200.  So 400 is answered only
    for an unreadable body, a missing header or an unparsable payload,
    401 only for a bad signature under a configured secret, and 200
    exactly when none of these holds: that includes the ignored event,
    which leaves the world untouched, and the event that finds the
    channel full, which is dropped with a warning in the log. *)
Theorem ServeHTTP_status h r w :
  let status := result (ServeHTTP hmacSHA256 h r) w in
  let w' := exec (ServeHTTP hmacSHA256 h r) w in
  (status = Some StatusOK \/ status = Some StatusBadRequest
   \/ status = Some StatusUnauthorized \/ status = Some StatusMethodNotAllowed)
  /\ (status = Some StatusMethodNotAllowed <-> Method r <> "POST")
  /\ (status = Some StatusBadRequest ->
      unreadable r \/ missingEventType r \/ unparsable r)
  /\ (status = Some StatusUnauthorized -> badSignature hmacSHA256 h r)
  /\ (status = Some StatusOK <->
      Method r = "POST" /\ ~ unreadable r /\ ~ badSignature hmacSHA256 h r
      /\ ~ missingEventType r /\ ~ unparsable r)
  /\ (Method r = "POST" -> unreadable r -> status = Some StatusBadRequest)
  /\ (Method r = "POST" -> ~ unreadable r -> badSignature hmacSHA256 h r ->
      status = Some StatusUnauthorized)
  /\ (Method r = "POST" -> ~ unreadable r -> ~ badSignature hmacSHA256 h r ->
      missingEventType r \/ unparsable r -> status = Some StatusBadRequest)
  /\ (forall body, Method r = "POST" -> Body r = Some body ->
      ~ badSignature hmacSHA256 h r -> ~ missingEventType r ->
      (parseEvent (XGitHubEvent r) body = Parsed None ->
       status = Some StatusOK /\ w' = w)
      /\ (forall event, parseEvent (XGitHubEvent r) body = Parsed (Some event) ->
          status = Some StatusOK
          /\ ((length (eventsCh w) < chanCap w)%nat ->
              eventsCh w' = eventsCh w ++ [event]
              /\ history w' = history w ++ [Enqueued event])
          /\ ((chanCap w <= length (eventsCh w))%nat ->
              eventsCh w' = eventsCh w
              /\ history w' = history w
                   ++ [Dropped event; Warned "Event channel full, dropping event"]))).
Proof.
  intros status w'. split; [|split; [|split; [|split; [|split; [|split; [|split; [|split]]]]]]].
  9:{ intros body Hm Hb Hsig He. subst status w'. unfold result, exec.
      rewrite (ServeHTTP_accepts h r w body Hm Hb Hsig He). split.
      - intros ->. split; reflexivity.
      - intros event ->. cbn [fst snd]. split; [reflexivity|].
        unfold trySend, logWarn, record, exec. split; intros Hroom.
        + apply Nat.ltb_lt in Hroom. rewrite Hroom. simpl. rewrite ?Hroom. auto.
        + apply Nat.ltb_ge in Hroom. rewrite Hroom. simpl. rewrite ?Hroom. simpl.
          rewrite <- ?app_assoc. auto. }
  all: subst status w'; unfold result; rewrite ServeHTTP_run;
    unfold unreadable, missingEventType,
      StatusOK, StatusBadRequest, StatusUnauthorized, StatusMethodNotAllowed;
    destruct (String.eqb_spec (Method r) "POST") as [Hm | Hm]; cbn [negb fst];
    [|intuition congruence];
    destruct (Body r) as [body|] eqn:Hb; cbn [fst]; [|intuition congruence];
    rewrite (badSignature_iff h r body Hb), (unparsable_iff r body Hb) ||
      rewrite (badSignature_iff h r body Hb) ||
      rewrite (unparsable_iff r body Hb) || idtac;
    destruct (negb (String.eqb (secret h) "")
              && negb (verifySignature hmacSHA256 h body (XHubSignature256 r)));
    cbn [fst]; [intuition congruence|];
    destruct (String.eqb_spec (XGitHubEvent r) "") as [He | He]; cbn [fst];
    [intuition congruence|];
    destruct (parseEvent (XGitHubEvent r) body) as [[event|]|msg]; cbn [fst];
    try solve [intuition congruence];
    try solve [intuition (try congruence); eauto];
    try solve [repeat split; try congruence; try tauto;
               intros (m & Hx); congruence];
    try solve [split; [intros [=] | intros (_ & _ & _ & _ & Hx);
                                    exfalso; apply Hx; eauto]];
    try solve [intros _ _ _ [Hx | (m & Hx)]; congruence].
Qed.

End ServeProperties.

Lemma parseEvent_allow_list_witness :
  (exists ev,
      @parseEvent Sample.base_decoder Sample.push_decoder Sample.release_decoder
        Sample.issue_decoder Sample.pr_decoder "push" "push" = Parsed (Some ev))
  /\ @parseEvent Sample.base_decoder Sample.push_decoder Sample.release_decoder
       Sample.issue_decoder Sample.pr_decoder "issues" "issue labeled" = Parsed None
  /\ @parseEvent Sample.base_decoder Sample.push_decoder Sample.release_decoder
       Sample.issue_decoder Sample.pr_decoder "star" "anything" = Parsed None.
Proof.
  split; [|split].
  - destruct (@parseEvent_allow_list Sample.base_decoder Sample.push_decoder
                Sample.release_decoder Sample.issue_decoder Sample.pr_decoder
                "push" "push" _ eq_refl) as (_ & Hpush & _).
    exact (Hpush eq_refl _ eq_refl).
  - destruct (@parseEvent_allow_list Sample.base_decoder Sample.push_decoder
                Sample.release_decoder Sample.issue_decoder Sample.pr_decoder
                "issues" "issue labeled" _ eq_refl) as (_ & _ & _ & Hissue & _).
    refine (proj2 (Hissue eq_refl _ eq_refl) _).
    intros [H | [H | H]]; discriminate H.
  - destruct (@parseEvent_allow_list Sample.base_decoder Sample.push_decoder
                Sample.release_decoder Sample.issue_decoder Sample.pr_decoder
                "star" "anything" _ eq_refl) as (_ & _ & _ & _ & _ & Hother).
    apply Hother; discriminate.
Defined.

Lemma ServeHTTP_status_witness :
  let h := mkWebhookHandler "" in
  let r := mkRequest "POST" (Some "push") "" "push" in
  let waiting := pushEventOf "acme" "widgets" Sample.oldCommit in
  let full := Sample.withFullChannel 2 waiting Sample.world in
  let serve :=
    @ServeHTTP Sample.base_decoder Sample.push_decoder Sample.release_decoder
      Sample.issue_decoder Sample.pr_decoder Sample.mac h r in
  result serve full = Some StatusOK
  /\ eventsCh (exec serve full) = [waiting; waiting]
  /\ In (Warned "Event channel full, dropping event") (history (exec serve full)).
Proof.
  intros h r waiting full serve.
  destruct (@ServeHTTP_status Sample.base_decoder Sample.push_decoder
              Sample.release_decoder Sample.issue_decoder Sample.pr_decoder
              Sample.mac h r full) as (_ & _ & _ & _ & _ & _ & _ & _ & Haccept).
  destruct (Haccept "push" eq_refl eq_refl) as (_ & Hevent).
  - intros (Hsecret & _). apply Hsecret. reflexivity.
  - discriminate.
  - destruct (Hevent _ eq_refl) as (Hstatus & _ & Hfull).
    destruct (Hfull (Nat.le_refl 2)) as (Hch & Hhist).
    split; [exact Hstatus|]. split; [exact Hch|].
    fold serve in Hhist. rewrite Hhist. right; left; reflexivity.
Defined.

(** * The subscription filter *)

Section Filter.

Context {U_events : Unmarshal (list string)}.
Variable FormatMessage : Payload -> option string.

(** C10: a subscription whose [Events] column does not decode as a list
    of event types passes the filter for every event type, and so is sent
    the notification of every event of its repository that the notifier
    handles: whatever the type of the event, the run of
    [HandleWebhookEvent] adds to the history a send to the chat of that
    subscription, carrying the message of the event, and the send is a
    delivery when Telegram does not fail. *)
Theorem isEventEnabled_unparsable sub :
  unmarshal (T := list string) (Events sub) = None ->
  (forall eventType, isEventEnabled sub eventType = true)
  /\ forall event text w,
       hd false (dbFaults w) = false ->
       In sub (subscribersOf (RepoOwner event) (RepoName event) w) ->
       hd false (tl (dbFaults w)) = true \/ keyOf event ∉ records w ->
       FormatMessage (EvPayload event) = Some text ->
       let w' := exec (HandleWebhookEvent FormatMessage event) w in
       let message := header event +:+ text in
       result (HandleWebhookEvent FormatMessage event) w = Some None
       /\ exists added,
            history w' = history w ++ added
            /\ (In (Delivered (ChatID sub) message) added
                \/ In (DeliveryFailed (ChatID sub) message) added)
            /\ (tgFaults w = [] -> In (Delivered (ChatID sub) message) added).
Proof.
  intros Herr.
  assert (Hen : forall eventType, isEventEnabled sub eventType = true).
  { intros eventType. unfold isEventEnabled. rewrite Herr. reflexivity. }
  split; [exact Hen|].
  intros event text w Hsel Hsub Hnew Hfmt w' message.
  assert (Hsubs : subscribersOf (RepoOwner event) (RepoName event) w <> []).
  { intros E. rewrite E in Hsub. destruct Hsub. }
  pose proof (HandleWebhookEvent_run FormatMessage event text w Hsel Hsubs Hnew Hfmt)
    as Hrun.
  cbv zeta in Hrun. subst w'. unfold exec, result. rewrite Hrun.
  cbn [fst snd history]. fold message.
  split; [reflexivity|].
  eexists. split; [reflexivity|]. split.
  - destruct (fanout_attempts (Type_ event) message _ (tgFaults w) sub Hsub
                (Hen (Type_ event))) as [H | H]; [left | right];
      rewrite !in_app_iff; tauto.
  - intros Htg. rewrite Htg.
    pose proof (fanout_delivers (Type_ event) message _ sub Hsub (Hen (Type_ event))) as H.
    rewrite !in_app_iff; tauto.
Qed.

End Filter.

Lemma isEventEnabled_unparsable_witness :
  exists added,
    history (exec (@HandleWebhookEvent Sample.events_decoder Sample.format
                     (issueEventOf "acme" "widgets" "opened" "open" Sample.issue43))
               Sample.garbled)
    = history Sample.garbled ++ added
    /\ In (Delivered 1002
             (header (issueEventOf "acme" "widgets" "opened" "open" Sample.issue43)
              +:+ "issue")) added.
Proof.
  destruct (proj2 (@isEventEnabled_unparsable Sample.events_decoder Sample.format
                     (Sample.subscriber 1002 "push,release") eq_refl)
              (issueEventOf "acme" "widgets" "opened" "open" Sample.issue43)
              "issue" Sample.garbled)
    as (_ & added & Hadded & _ & Hdelivered).
  - reflexivity.
  - right; left; reflexivity.
  - right. set_solver.
  - reflexivity.
  - exists added. split; [exact Hadded | exact (Hdelivered eq_refl)].
Defined.

(** * The two event id schemes *)

Lemma length_append (s1 s2 : string) :
  String.length (s1 +:+ s2) = (String.length s1 + String.length s2)%nat.
Proof. induction s1 as [|c s1 IH]; simpl; [reflexivity | rewrite IH; reflexivity]. Qed.

Lemma append_longer (prefix s : string) : prefix <> "" -> prefix +:+ s <> s.
Proof.
  intros Hp E. apply (f_equal String.length) in E.
  rewrite length_append in E. destruct prefix; [congruence|]. simpl in E. lia.
Qed.

(** C1 fails on the code: the notifier and the poller derive different ids
    for the same release, issue or pull request.  [generateEventID] gives
    the bare tag name and number-action, where the poller checks and seeds
    release-tag, issue-N-created, issue-N-closed, pr-N-created, pr-N-merged
    and pr-N-closed.  Only the push ids agree. *)
Theorem eventID_schemes_disagree o n :
  (forall c, generateEventID (pushEventOf o n c) = GetSHA c)
  /\ (forall r,
        generateEventID (releaseEventOf o n r) = GetTagName r
        /\ generateEventID (releaseEventOf o n r) <> releaseEventID (GetTagName r))
  /\ (forall i state,
        generateEventID (issueEventOf o n "opened" state i)
          = itoa (GetIssueNumber i) +:+ "-opened"
        /\ generateEventID (issueEventOf o n "opened" state i)
           <> issueCreatedID (GetIssueNumber i))
  /\ (forall i,
        generateEventID (issueEventOf o n "closed" "closed" i)
          = itoa (GetIssueNumber i) +:+ "-closed"
        /\ generateEventID (issueEventOf o n "closed" "closed" i)
           <> issueClosedID (GetIssueNumber i))
  /\ (forall pr state merged,
        generateEventID (prEvent o n "opened" state merged pr)
        <> prCreatedID (GetPRNumber pr))
  /\ (forall pr,
        generateEventID (prEvent o n "merged" "closed" true pr)
        <> prMergedID (GetPRNumber pr))
  /\ (forall pr,
        generateEventID (prEvent o n "closed" "closed" false pr)
        <> prClosedID (GetPRNumber pr)).
Proof.
  repeat apply conj; intros; try split; try reflexivity;
    unfold generateEventID, releaseEventID, issueCreatedID, issueClosedID,
      prCreatedID, prMergedID, prClosedID; simpl.
  - intros E; symmetry in E; revert E. apply (append_longer "release-"). discriminate.
  - intros E. apply (f_equal String.length) in E.
    rewrite !length_append in E. simpl in E. lia.
  - intros E; symmetry in E; revert E.
    apply (append_longer "issue-" (itoa (GetIssueNumber i) +:+ "-closed")). discriminate.
  - intros E. apply (f_equal String.length) in E.
    rewrite !length_append in E. simpl in E. lia.
  - intros E; symmetry in E; revert E.
    apply (append_longer "pr-" (itoa (GetPRNumber pr) +:+ "-merged")). discriminate.
  - intros E; symmetry in E; revert E.
    apply (append_longer "pr-" (itoa (GetPRNumber pr) +:+ "-closed")). discriminate.
Qed.

(** * Issues closed after the watch epoch *)

(** One tick, for an issue created before the epoch and closed after it:
    the poller checks the key issue-N-closed and, with a healthy storage,
    offers the closed event when the key is absent and nothing when it is
    present; it never offers an opened event for the issue. *)
Lemma pollIssue_closed_after_epoch p o n x w :
  IsPullRequest x = false ->
  Before (GetIssueCreatedAt x) (startTime p) = true ->
  GetIssueState x = "closed" ->
  IsZero (GetIssueClosedAt x) = false ->
  After (GetIssueClosedAt x) (startTime p) = true ->
  healthy w ->
  let k := (o, n, "issues", issueClosedID (GetIssueNumber x)) in
  (k ∉ records w ->
   offers (pollIssue p o n x) w (issueEventOf o n "closed" "closed" x))
  /\ (k ∈ records w ->
      emitted (history (exec (pollIssue p o n x) w)) = emitted (history w)).
Proof.
  intros Hpr Hcreated Hstate Hzero Hafter Hh k. red in Hh.
  assert (Hrun : pollIssue p o n x = notifyIssueClosed o n x).
  { unfold pollIssue. rewrite Hpr, Hcreated, Hstate, Hzero, Hafter. reflexivity. }
  rewrite Hrun. unfold notifyIssueClosed, offers, exec, bind.
  rewrite IsEventProcessed_run, Hh. cbn [hd tl]. fold k.
  split; intros Hk.
  - rewrite (bool_decide_eq_false_2 _ Hk). unfold trySend; simpl.
    destruct (length _ <? _)%nat eqn:Eroom; simpl;
      rewrite ?emitted_app; simpl; rewrite ?app_nil_r;
      (split; [reflexivity
              | intros Hroom; first [reflexivity | apply Nat.ltb_ge in Eroom; lia]]).
  - rewrite (bool_decide_eq_true_2 _ Hk). simpl.
    rewrite emitted_app; simpl. apply app_nil_r.
Qed.

(** C3 fails on the code.  Issue 42 was created before the epoch and is
    closed after it.  The first tick offers its closed event; the notifier
    handles it, delivers one message and records the key 42-closed; the
    second tick looks for issue-42-closed, which nothing has recorded, and
    offers the same closed event again. *)
Theorem closed_issue_offered_each_tick :
  let p := Sample.poller (Sample.upstream [] [] [Sample.issue42] []) in
  let tick := pollRepo p "acme" "widgets" in
  let consume := @drain Sample.events_decoder Sample.format in
  let closed := issueEventOf "acme" "widgets" "closed" "closed" Sample.issue42 in
  let w2 := exec (tick ;;; consume ;;; tick) Sample.world in
  emitted (history w2) = [closed; closed]
  /\ elements (records w2) = [("acme", "widgets", "issues", "42-closed")]
  /\ List.filter (fun e => match e with Delivered _ _ => true | _ => false end)
       (history w2)
     = [Delivered 1001 (header closed +:+ "issue")].
Proof. vm_compute. repeat split. Qed.

(** * Further properties *)

(** ** Strings *)

Lemma substring_split (n : nat) (s : string) :
  (n <= String.length s)%nat ->
  s = String.substring 0 n s +:+ String.substring n (String.length s - n) s.
Proof.
  revert s. induction n as [|n IH]; intros s Hn.
  - simpl. rewrite Nat.sub_0_r.
    assert (H : forall t, String.substring 0 (String.length t) t = t).
    { induction t as [|c t IHt]; simpl; [reflexivity | rewrite IHt; reflexivity]. }
    destruct s; simpl; [reflexivity|]. rewrite H. reflexivity.
  - destruct s as [|c s]; [simpl in Hn; lia|].
    change (String c s = String c (String.substring 0 n s
                                   +:+ String.substring n (String.length s - n) s)).
    f_equal. apply IH. simpl in Hn. lia.
Qed.

Lemma length_substring (n : nat) (s : string) :
  (n <= String.length s)%nat -> String.length (String.substring 0 n s) = n.
Proof.
  revert s. induction n as [|n IH]; intros s Hn.
  - destruct s; reflexivity.
  - destruct s as [|c s]; simpl in *; [lia|]. rewrite IH by lia. reflexivity.
Qed.

Lemma substring_of_append (p s : string) :
  String.substring 0 (String.length p) (p +:+ s) = p.
Proof.
  induction p as [|c p IH]; simpl; [destruct s; reflexivity | rewrite IH; reflexivity].
Qed.

Lemma sliceFrom_of_append (p s : string) : sliceFrom (String.length p) (p +:+ s) = s.
Proof.
  unfold sliceFrom. rewrite length_append.
  replace (String.length p + String.length s - String.length p)%nat
    with (String.length s) by lia.
  induction p as [|c p IH]; simpl; [|exact IH].
  clear. induction s as [|c s IH]; simpl; [reflexivity|].
  f_equal. destruct s; simpl in *; [reflexivity|]. exact IH.
Qed.

(** [truncateString] with a limit of at least three bytes returns a string
    of at most [maxLen] bytes: [s] itself when it fits, and otherwise its
    first [maxLen - 3] bytes followed by three dots, [maxLen] bytes in all.
    With a smaller limit and a longer string the slice is out of range and
    the function panics. *)
Theorem truncateString_bound s maxLen :
  (3 <= maxLen ->
   exists t, truncateString s maxLen = Some t
     /\ Z.of_nat (String.length t) <= maxLen
     /\ (Z.of_nat (String.length s) <= maxLen -> t = s)
     /\ (maxLen < Z.of_nat (String.length s) ->
         t = String.substring 0 (Z.to_nat (maxLen - 3)) s +:+ "..."
         /\ Z.of_nat (String.length t) = maxLen))
  /\ (maxLen < 3 -> maxLen < Z.of_nat (String.length s) ->
      truncateString s maxLen = None).
Proof.
  unfold truncateString. split.
  - intros Hmax. destruct (Z.leb_spec (Z.of_nat (String.length s)) maxLen) as [Hfit | Hlong].
    + exists s. repeat split; intros; try lia; try reflexivity.
    + destruct (Z.ltb_spec (maxLen - 3) 0) as [Hneg | _]; [lia|].
      eexists; split; [reflexivity|].
      assert (Hlen : String.length
                       (String.substring 0 (Z.to_nat (maxLen - 3)) s +:+ "...")
                     = Z.to_nat maxLen).
      { rewrite length_append, length_substring by lia. simpl. lia. }
      rewrite Hlen. repeat split; try lia.
  - intros Hsmall Hlong.
    destruct (Z.leb_spec (Z.of_nat (String.length s)) maxLen) as [Hfit | _]; [lia|].
    destruct (Z.ltb_spec (maxLen - 3) 0) as [_ | Hpos]; [reflexivity | lia].
Qed.

Lemma truncateString_bound_witness :
  exists t, truncateString "a commit message of some length" 10 = Some t
    /\ Z.of_nat (String.length t) <= 10.
Proof.
  destruct (proj1 (truncateString_bound "a commit message of some length" 10)
              ltac:(lia)) as (t & Ht & Hlen & _).
  exists t. split; [exact Ht | exact Hlen].
Defined.



(** [extractBranchName] strips the prefix refs/heads/ from a reference that
    has something after it, and returns every other reference unchanged:
    the bare prefix, a tag, a name shorter than the prefix. *)
Theorem extractBranchName_strips :
  (forall branch, branch <> "" -> extractBranchName ("refs/heads/" +:+ branch) = branch)
  /\ extractBranchName "refs/heads/" = "refs/heads/"
  /\ (forall ref, (forall branch, ref <> "refs/heads/" +:+ branch) ->
        extractBranchName ref = ref).
Proof.
  split; [|split].
  - intros branch Hb. unfold extractBranchName.
    rewrite length_append. change (String.length "refs/heads/") with 11%nat.
    destruct branch as [|c branch]; [congruence|].
    replace (11 <? 11 + String.length (String c branch))%nat with true
      by (symmetry; apply Nat.ltb_lt; simpl; lia).
    rewrite (substring_of_append "refs/heads/").
    change (String.eqb "refs/heads/" "refs/heads/") with true. cbn [andb].
    exact (sliceFrom_of_append "refs/heads/" (String c branch)).
  - reflexivity.
  - intros ref Hno. unfold extractBranchName.
    destruct (11 <? String.length ref)%nat eqn:Hlen; [|reflexivity].
    destruct (String.eqb_spec (String.substring 0 11 ref) "refs/heads/") as [Hp | Hp];
      [|reflexivity].
    exfalso. apply (Hno (String.substring 11 (String.length ref - 11) ref)).
    apply Nat.ltb_lt in Hlen. rewrite <- Hp at 1. apply substring_split. lia.
Qed.

Lemma extractBranchName_strips_witness :
  extractBranchName "refs/heads/main" = "main"
  /\ extractBranchName "refs/tags/v1.0.0" = "refs/tags/v1.0.0".
Proof.
  destruct extractBranchName_strips as (Hstrip & _ & Hkeep). split.
  - apply (Hstrip "main"). discriminate.
  - apply Hkeep. intros branch. discriminate.
Defined.

(** ** The formatters *)

Lemma append_not_empty (s t : string) : t <> "" -> s +:+ t <> "".
Proof.
  intros Ht E. apply (f_equal String.length) in E. rewrite length_append in E.
  destruct t; [congruence | simpl in E; lia].
Qed.

Lemma append_inj_l (p a b : string) : p +:+ a = p +:+ b -> a = b.
Proof. induction p as [|c p IH]; simpl; [auto | intros [= H]; auto]. Qed.

Lemma truncateString_total s maxLen : 3 <= maxLen -> truncateString s maxLen <> None.
Proof.
  intros Hmax. unfold truncateString.
  destruct (Z.leb_spec (Z.of_nat (String.length s)) maxLen); [discriminate|].
  destruct (Z.ltb_spec (maxLen - 3) 0); [lia | discriminate].
Qed.

Lemma commitLine_panics g c : commitLine g c = None <-> shortHash c = true.
Proof.
  unfold commitLine, shortHash. destruct (String.length (SHA c) <? 7)%nat; [tauto|].
  destruct (truncateString (Message c) 50) eqn:E.
  - split; discriminate.
  - exfalso. apply (truncateString_total (Message c) 50); [lia | exact E].
Qed.

Lemma commitLines_panics g l msg :
  commitLines g l msg = None <-> existsb shortHash l = true.
Proof.
  revert msg. induction l as [|c l IH]; intros msg; simpl.
  - split; discriminate.
  - destruct (commitLine g c) eqn:E.
    + assert (Hc : shortHash c = false).
      { destruct (shortHash c) eqn:Es; [|reflexivity].
        apply (commitLine_panics g) in Es. congruence. }
      rewrite Hc. apply IH.
    + apply (commitLine_panics g) in E. rewrite E. tauto.
Qed.

Lemma firstn_at_most {A} (n : nat) (l : list A) :
  firstn (if (length l <? n)%nat then length l else n) l = firstn n l.
Proof.
  destruct (Nat.ltb_spec (length l) n) as [H | H]; [|reflexivity].
  rewrite firstn_all, firstn_all2 by lia. reflexivity.
Qed.

(** The formatters of the four events return a message that is never
    empty, and never panic, with one exception: the message of a push
    panics exactly when one of its first five commits has a hash shorter
    than seven bytes. *)
Theorem FormatMessageOf_panics g payload :
  (FormatMessageOf g payload = None <->
   exists e, payload = PPush e
     /\ existsb shortHash (firstn 5 (PushCommits e)) = true)
  /\ (forall text, FormatMessageOf g payload = Some text -> text <> "").
Proof.
  destruct payload as [e | e | e | e]; simpl.
  - unfold FormatPush. rewrite (firstn_at_most 5).
    destruct (commitLines g (firstn 5 (PushCommits e)) _) as [msg|] eqn:E.
    + split.
      * split; [discriminate|]. intros (e' & [= <-] & Hshort).
        match type of E with
        | commitLines _ _ ?m = _ =>
            pose proof (proj2 (commitLines_panics g _ m) Hshort) as Hn
        end.
        congruence.
      * intros text [= <-]. apply append_not_empty. discriminate.
    + split; [|discriminate]. split; [|reflexivity]. intros _.
      exists e. split; [reflexivity|]. eapply commitLines_panics, E.
  - unfold FormatRelease.
    assert (Ht := truncateString_total (RelBody e) 300 ltac:(lia)).
    destruct (negb (String.eqb (RelBody e) ""));
      [destruct (truncateString (RelBody e) 300); [|congruence]|];
      (split; [split; [discriminate | intros (e' & [=] & _)]
              | intros text [= <-]; apply append_not_empty; discriminate]).
  - split; [split; [discriminate | intros (e' & [=] & _)]|].
    intros text [= <-]. apply append_not_empty. discriminate.
  - split; [split; [discriminate | intros (e' & [=] & _)]|].
    intros text [= <-]. apply append_not_empty. discriminate.
Qed.

Lemma FormatMessageOf_panics_witness :
  FormatMessageOf Sample.glyphs
    (EvPayload (pushEventOf "acme" "widgets"
                  (mkRepositoryCommit "7fd1a6" "fix" "octocat" Sample.later "octocat" "")))
  = None.
Proof.
  apply (FormatMessageOf_panics Sample.glyphs).
  eexists. split; reflexivity.
Defined.

(** A merged pull request comes from the webhook as action closed with the
    merged flag, and from the poller as action merged.  The two events are
    formatted to the same message, but the notifier gives them different
    ledger keys, N-closed and N-merged. *)
Theorem merged_pull_request_keys g o n pr :
  FormatMessageOf g (EvPayload (prEvent o n "closed" "closed" true pr))
    = FormatMessageOf g (EvPayload (prEvent o n "merged" "closed" true pr))
  /\ keyOf (prEvent o n "closed" "closed" true pr)
     <> keyOf (prEvent o n "merged" "closed" true pr).
Proof.
  split; [reflexivity|].
  unfold keyOf, generateEventID; simpl. intros [= E].
  apply append_inj_l in E. discriminate.
Qed.

(** ** The polling interval *)

(** [NewPoller] never polls more often than once a minute: the interval is
    at least 60 seconds for every configured value.  It is the configured
    number of seconds from 60 up to 9223372036, and 60 seconds from
    -9223372036 up to 59, zero and the negative values included.  Beyond
    these bounds the multiplication by [time.Second] overflows the
    duration type and wraps around: one second more than the upper bound
    gives a negative product and so 60 seconds, and one second less than
    the lower bound gives a positive product, an interval of more than 292
    years, which is kept, and so do the 9223371976 values below it, each
    with an interval one second shorter than the one before. *)
Theorem pollInterval_floor n :
  60 * Second <= pollInterval n < 2 ^ 63
  /\ (60 <= n <= 9223372036 -> pollInterval n = n * Second)
  /\ (-9223372036 <= n < 60 -> pollInterval n = 60 * Second)
  /\ pollInterval 9223372037 = 60 * Second
  /\ pollInterval (-9223372037) = 9223372036709551616
  /\ (forall k, 0 <= k <= 9223371976 ->
        pollInterval (-9223372037 - k) = 2 ^ 64 - (9223372037 + k) * Second
        /\ 60 * Second < pollInterval (-9223372037 - k)).
Proof.
  unfold pollInterval, wrap64, Second.
  pose proof (Z.mod_pos_bound (n * 1000000000 + 2 ^ 63) (2 ^ 64) ltac:(lia)) as Hb.
  split; [|split; [|split; [|split; [|split]]]].
  - destruct (Z.ltb_spec ((n * 1000000000 + 2 ^ 63) mod 2 ^ 64 - 2 ^ 63)
                (60 * 1000000000)); lia.
  - intros Hn. rewrite Z.mod_small by lia.
    destruct (Z.ltb_spec (n * 1000000000 + 2 ^ 63 - 2 ^ 63) (60 * 1000000000)); lia.
  - intros Hn. rewrite Z.mod_small by lia.
    destruct (Z.ltb_spec (n * 1000000000 + 2 ^ 63 - 2 ^ 63) (60 * 1000000000)); lia.
  - reflexivity.
  - reflexivity.
  - intros k Hk.
    assert (E : ((-9223372037 - k) * 1000000000 + 2 ^ 63) mod 2 ^ 64
                = (-9223372037 - k) * 1000000000 + 2 ^ 63 + 2 ^ 64).
    { symmetry. apply (Z.mod_unique _ _ (-1)); [left; lia | lia]. }
    rewrite E.
    destruct (Z.ltb_spec ((-9223372037 - k) * 1000000000 + 2 ^ 63 + 2 ^ 64 - 2 ^ 63)
                (60 * 1000000000)); lia.
Qed.

Lemma pollInterval_floor_witness :
  pollInterval 300 = 300 * Second /\ pollInterval 5 = 60 * Second
  /\ 60 * Second < pollInterval (-9223372038).
Proof.
  destruct (pollInterval_floor 300) as (_ & Hexact & _).
  destruct (pollInterval_floor 5) as (_ & _ & Hfloor & _ & _ & Hwrap).
  split; [apply Hexact; lia|]. split; [apply Hfloor; lia|].
  exact (proj2 (Hwrap 1 ltac:(lia))).
Defined.

(** ** Signatures *)

Lemma hex_char_round_trip c :
  match fromHexChar (hexDigit (nat_of_ascii c / 16)),
        fromHexChar (hexDigit (nat_of_ascii c mod 16)) with
  | Some hi, Some lo => ascii_of_nat (16 * hi + lo) = c
  | _, _ => False
  end.
Proof. destruct c as [[] [] [] [] [] [] [] []]; vm_compute; reflexivity. Qed.

Lemma hex_round_trip s : DecodeString (EncodeToString s) = Some s.
Proof.
  induction s as [|c s IH]; [reflexivity|].
  cbn [EncodeToString DecodeString]. pose proof (hex_char_round_trip c) as Hc.
  destruct (fromHexChar (hexDigit (nat_of_ascii c / 16))) as [hi|]; [|contradiction].
  destruct (fromHexChar (hexDigit (nat_of_ascii c mod 16))) as [lo|]; [|contradiction].
  rewrite IH, Hc. reflexivity.
Qed.

Lemma DecodeString_length n :
  forall s out, (String.length s <= n)%nat -> DecodeString s = Some out ->
    String.length s = (2 * String.length out)%nat.
Proof.
  induction n as [|n IH]; intros s out Hn Hd.
  - destruct s; [|simpl in Hn; lia]. injection Hd as <-. reflexivity.
  - destruct s as [|a [|b rest]]; simpl in Hd.
    + injection Hd as <-. reflexivity.
    + discriminate.
    + destruct (fromHexChar a), (fromHexChar b); try discriminate.
      destruct (DecodeString rest) as [out'|] eqn:E; [|discriminate].
      injection Hd as <-. simpl in Hn.
      pose proof (IH rest out' ltac:(lia) E) as Hr. simpl. lia.
Qed.

Lemma prefix_split p s : String.prefix p s = true -> s = p +:+ sliceFrom (String.length p) s.
Proof.
  revert s. induction p as [|a p IH]; intros s H.
  - simpl. symmetry. exact (sliceFrom_of_append "" s).
  - destruct s as [|b s]; [discriminate|]. simpl in H.
    destruct (ascii_dec a b) as [-> | _]; [|discriminate].
    unfold sliceFrom in *. simpl.
    change (String b p +:+ ?x) with (String b (p +:+ x)). f_equal. apply IH, H.
Qed.

Lemma prefix_of_append p s : String.prefix p (p +:+ s) = true.
Proof.
  induction p as [|a p IH]; [destruct s; reflexivity|].
  change (String a p +:+ s) with (String a (p +:+ s)). simpl.
  destruct (ascii_dec a a); [exact IH | congruence].
Qed.

Section Signatures.

Variable hmacSHA256 : string -> string -> string.

(** [verifySignature] accepts the header sha256= followed by the
    hexadecimal digest of the body under the secret, and nothing that
    differs from it beyond the case of the digits: an accepted header
    starts with sha256=, has two hexadecimal digits per byte of the digest
    after it, and these decode to the digest.  A header without the prefix
    is refused, the empty one included. *)
Theorem verifySignature_accepts h body :
  verifySignature hmacSHA256 h body
    ("sha256=" +:+ EncodeToString (hmacSHA256 (secret h) body)) = true
  /\ (forall signature,
        verifySignature hmacSHA256 h body signature = true ->
        exists digits,
          signature = "sha256=" +:+ digits
          /\ DecodeString digits = Some (hmacSHA256 (secret h) body)
          /\ String.length digits
             = (2 * String.length (hmacSHA256 (secret h) body))%nat)
  /\ (forall signature,
        HasPrefix signature "sha256=" = false ->
        verifySignature hmacSHA256 h body signature = false)
  /\ verifySignature hmacSHA256 h body "" = false.
Proof.
  split; [|split; [|split]].
  - unfold verifySignature, HasPrefix.
    change 7%nat with (String.length "sha256=").
    rewrite sliceFrom_of_append, hex_round_trip, prefix_of_append.
    simpl. apply String.eqb_refl.
  - intros signature. unfold verifySignature, HasPrefix.
    destruct (String.prefix "sha256=" signature) eqn:Hp; [|discriminate]. simpl.
    destruct (DecodeString (sliceFrom 7 signature)) as [sig|] eqn:Hd; [|discriminate].
    intros Heq. apply String.eqb_eq in Heq. subst sig.
    exists (sliceFrom 7 signature). split; [exact (prefix_split "sha256=" signature Hp)|].
    split; [exact Hd|]. eapply DecodeString_length; [apply Nat.le_refl | exact Hd].
  - intros signature Hp. unfold verifySignature. rewrite Hp. reflexivity.
  - reflexivity.
Qed.

End Signatures.

Lemma verifySignature_accepts_witness :
  verifySignature Sample.mac (mkWebhookHandler "key") "body" "sha256" = false.
Proof.
  destruct (verifySignature_accepts Sample.mac (mkWebhookHandler "key") "body")
    as (_ & _ & Hprefix & _).
  apply Hprefix. reflexivity.
Defined.

(** ** Invariants of the producers *)

Lemma stable_IsEventProcessed I o n t i :
  stable I -> preserves I (IsEventProcessed o n t i).
Proof.
  intros (Hrec & Hdb). unfold IsEventProcessed.
  apply preserves_bind; [exact Hdb | intros err].
  apply preserves_bind; [apply Hrec; reflexivity | intros _].
  destruct err; [apply preserves_ret|].
  apply preserves_bind; [intros w H; exact H | intros; apply preserves_ret].
Qed.

Lemma stable_GetAllSubscribedRepos I : stable I -> preserves I GetAllSubscribedRepos.
Proof.
  intros (Hrec & Hdb). unfold GetAllSubscribedRepos.
  apply preserves_bind; [exact Hdb | intros err].
  apply preserves_bind; [apply Hrec; reflexivity | intros _].
  destruct err; [apply preserves_ret|].
  apply preserves_bind; [intros w H; exact H | intros; apply preserves_ret].
Qed.

Lemma stable_logWarn I msg : stable I -> preserves I (logWarn msg).
Proof. intros (Hrec & _). apply Hrec. reflexivity. Qed.

Lemma stable_logError I msg : stable I -> preserves I (logError msg).
Proof. intros (Hrec & _). apply Hrec. reflexivity. Qed.

(** Checking the ledger and then offering [ev], as every scan of the
    poller does. *)
Lemma stable_check_then_send I o n t i ev (k : bool -> M unit) :
  stable I -> preserves I (trySend ev) -> (forall sent, preserves I (k sent)) ->
  preserves I (r <- IsEventProcessed o n t i ;;
               let '(processed, _) := r in
               if processed then ret tt else sent <- trySend ev ;; k sent).
Proof.
  intros Hs Hsend Hk.
  apply preserves_bind; [apply stable_IsEventProcessed, Hs | intros [processed err]].
  destruct processed; [apply preserves_ret|].
  apply preserves_bind; [exact Hsend | exact Hk].
Qed.

Lemma wellKinded_pushEventOf o n c : eventOf o n (pushEventOf o n c).
Proof. repeat split. Qed.

Lemma wellKinded_releaseEventOf o n r : eventOf o n (releaseEventOf o n r).
Proof. repeat split. Qed.

Lemma wellKinded_issueEventOf o n a st i : eventOf o n (issueEventOf o n a st i).
Proof. repeat split. Qed.

Lemma wellKinded_prEvent o n a st m pr : eventOf o n (prEvent o n a st m pr).
Proof. repeat split. Qed.

(** A stable invariant that survives the offer of every event of the
    repository survives a tick on the repository. *)
Lemma stable_pollRepo I p o n :
  stable I -> (forall ev, eventOf o n ev -> preserves I (trySend ev)) ->
  preserves I (pollRepo p o n).
Proof.
  intros Hs Hsend. unfold pollRepo.
  apply preserves_bind; [|intros _; apply preserves_bind;
                           [|intros _; apply preserves_bind; [|intros _]]].
  - unfold pollCommits. destruct (ListCommits _ _ _ _); [|apply preserves_ret].
    apply preserves_forM_. intros c _. unfold pollCommit.
    destruct (String.eqb (GetSHA c) ""); [apply preserves_ret|].
    apply stable_check_then_send;
      [exact Hs | apply Hsend, wellKinded_pushEventOf | intros sent].
    destruct sent; [|apply stable_logWarn, Hs].
    destruct (String.length (GetSHA c) <? 7)%nat;
      [apply preserves_panic | apply preserves_ret].
  - unfold pollReleases. destruct (ListReleases _ _ _ _); [|apply preserves_ret].
    apply preserves_forM_. intros r _. unfold pollRelease.
    destruct (GetDraft r); [apply preserves_ret|].
    destruct (Before _ _); [apply preserves_ret|].
    apply stable_check_then_send;
      [exact Hs | apply Hsend, wellKinded_releaseEventOf | intros; apply preserves_ret].
  - unfold pollIssues. destruct (ListByRepo _ _ _ _); [|apply preserves_ret].
    apply preserves_forM_. intros i _. unfold pollIssue.
    destruct (IsPullRequest i); [apply preserves_ret|].
    destruct (Before _ _).
    + destruct (String.eqb _ _); [|apply preserves_ret].
      destruct (_ && _); [|apply preserves_ret]. unfold notifyIssueClosed.
      apply stable_check_then_send;
        [exact Hs | apply Hsend, wellKinded_issueEventOf | intros; apply preserves_ret].
    + apply stable_check_then_send;
        [exact Hs | apply Hsend, wellKinded_issueEventOf | intros; apply preserves_ret].
  - unfold pollPullRequests. destruct (ListPullRequests _ _ _ _); [|apply preserves_ret].
    apply preserves_forM_. intros pr _. unfold pollPullRequest.
    destruct (Before _ _).
    + destruct (String.eqb _ _); [|apply preserves_ret].
      destruct (_ && _); [|apply preserves_ret]. unfold notifyPRClosed.
      destruct (GetMerged pr);
        (apply stable_check_then_send;
         [exact Hs | apply Hsend, wellKinded_prEvent | intros; apply preserves_ret]).
    + apply stable_check_then_send;
        [exact Hs | apply Hsend, wellKinded_prEvent | intros; apply preserves_ret].
Qed.

Lemma subscribed_of_repos w repo :
  repo ∈ remove_dups (map (fun s => (SubRepoOwner s, SubRepoName s)) (subscriptions w)) ->
  exists s, In s (subscriptions w) /\ repo = (SubRepoOwner s, SubRepoName s).
Proof.
  intros H. apply elem_of_remove_dups, list_elem_of_In, in_map_iff in H.
  destruct H as (s & <- & Hs). eauto.
Qed.

(** A stable invariant that fixes the subscriptions and survives the offer
    of every event of a subscribed repository survives a tick over all
    repositories. *)
Lemma stable_pollAllRepos I subs p :
  stable I ->
  (forall w, I w -> subscriptions w = subs) ->
  (forall s ev, In s subs -> eventOf (SubRepoOwner s) (SubRepoName s) ev ->
     preserves I (trySend ev)) ->
  preserves I (pollAllRepos p).
Proof.
  intros Hs Hsubs Hsend w Hw. unfold exec, pollAllRepos, bind.
  rewrite GetAllSubscribedRepos_run.
  pose proof (stable_GetAllSubscribedRepos I Hs w Hw) as Hw1.
  unfold exec in Hw1. rewrite GetAllSubscribedRepos_run in Hw1. cbn [snd] in Hw1.
  destruct (hd false (dbFaults w)).
  - exact (stable_logError I "Failed to get subscribed repos" Hs _ Hw1).
  - destruct (length _ =? 0)%nat; [exact Hw1|].
    refine (preserves_forM_ I _ _ _ _ Hw1). intros repo Hrepo.
    destruct (subscribed_of_repos w repo Hrepo) as (s & Hin & ->). cbn [fst snd].
    apply stable_pollRepo; [exact Hs|]. intros ev Hev.
    apply (Hsend s ev); [rewrite <- (Hsubs w Hw); exact Hin | exact Hev].
Qed.

Lemma stable_RecordEvent I o n t i :
  stable I -> writable I -> preserves I (RecordEvent o n t i).
Proof.
  intros (Hrec & Hdb) (Hlog & Hins). unfold RecordEvent.
  apply preserves_bind; [exact Hdb | intros err].
  apply preserves_bind; [apply Hlog | intros _].
  destruct err; [apply preserves_ret|].
  apply preserves_bind; [apply Hins | intros; apply preserves_ret].
Qed.

Lemma stable_recordExistingEvents I p o n :
  stable I -> writable I -> preserves I (recordExistingEvents p o n).
Proof.
  intros Hs Hins.
  assert (Hrec : forall o n t i, preserves I (RecordEvent o n t i ;;; ret tt)).
  { intros. apply preserves_bind;
      [apply stable_RecordEvent; assumption | intros; apply preserves_ret]. }
  unfold recordExistingEvents.
  apply preserves_bind; [|intros _; apply preserves_bind;
                           [|intros _; apply preserves_bind; [|intros _]]];
    apply preserves_whenOk; intros l x _ _.
  - unfold recordCommit. destruct (negb _); [apply Hrec | apply preserves_ret].
  - unfold recordRelease. destruct (negb _); [apply Hrec | apply preserves_ret].
  - unfold recordIssue. destruct (negb _); [|apply preserves_ret].
    apply preserves_bind; [apply stable_RecordEvent; assumption | intros _].
    destruct (String.eqb _ _); [apply Hrec | apply preserves_ret].
  - unfold recordPR.
    apply preserves_bind; [apply stable_RecordEvent; assumption | intros _].
    destruct (String.eqb _ _); [apply Hrec | apply preserves_ret].
Qed.

Lemma stable_initializeRepos I p :
  stable I -> writable I -> preserves I (initializeRepos p).
Proof.
  intros Hs Hins. unfold initializeRepos.
  apply preserves_bind; [apply stable_GetAllSubscribedRepos, Hs | intros [repos err]].
  destruct err; [apply stable_logError, Hs|].
  destruct (length repos =? 0)%nat; [apply preserves_ret|].
  apply preserves_forM_. intros repo _. apply stable_recordExistingEvents; assumption.
Qed.

(** The same for the whole life of the poller: initialization and any
    number of ticks. *)
Lemma stable_pollLoop I subs p ticks :
  stable I ->
  writable I ->
  (forall w, I w -> subscriptions w = subs) ->
  (forall s ev, In s subs -> eventOf (SubRepoOwner s) (SubRepoName s) ev ->
     preserves I (trySend ev)) ->
  preserves I (pollLoop p ticks).
Proof.
  intros Hs Hins Hsubs Hsend. unfold pollLoop.
  apply preserves_bind; [apply stable_initializeRepos; assumption | intros _].
  apply preserves_forM_. intros api _. apply (stable_pollAllRepos I subs); assumption.
Qed.

Lemma subscriptions_kept (I : World -> Prop) subs :
  stable I -> stable (fun w => I w /\ subscriptions w = subs).
Proof.
  intros (Hrec & Hdb). split.
  - intros e He w [Hw Hsubs]. split; [apply Hrec; assumption | exact Hsubs].
  - intros w [Hw Hsubs]. split; [apply Hdb; assumption | exact Hsubs].
Qed.

Lemma subscriptions_written (I : World -> Prop) subs :
  writable I -> writable (fun w => I w /\ subscriptions w = subs).
Proof.
  intros (Hlog & Hins). split.
  - intros k err w [Hw Hsubs]. split; [apply Hlog; assumption | exact Hsubs].
  - intros k w [Hw Hsubs]. split; [apply Hins; assumption | exact Hsubs].
Qed.

(** The poller, from its start and through any number of ticks, only adds
    events at the end of the channel and never fills it beyond its
    capacity: what waited in the channel stays in front, in its order. *)
Theorem pollLoop_appends_within_capacity p ticks w :
  let w' := exec (pollLoop p ticks) w in
  chanCap w' = chanCap w
  /\ (exists more, eventsCh w' = eventsCh w ++ more)
  /\ (length (eventsCh w') <= Nat.max (length (eventsCh w)) (chanCap w))%nat.
Proof.
  apply (stable_pollLoop
           (fun w' => channelGrew (eventsCh w) (chanCap w) w'
                      /\ subscriptions w' = subscriptions w)
           (subscriptions w) p ticks).
  - apply subscriptions_kept. split; [intros e _ w0 H | intros w0 H]; exact H.
  - apply subscriptions_written. split; [intros k err w0 H | intros k w0 H]; exact H.
  - tauto.
  - intros s ev _ _ w0 [(Hcap & (more & Hch) & Hlen) Hsubs]. unfold exec, trySend.
    destruct (Nat.ltb_spec (length (eventsCh w0)) (chanCap w0)) as [Hroom | Hfull];
      cbn [snd chanCap eventsCh subscriptions]; (split; [|exact Hsubs]).
    + split; [exact Hcap|]. split.
      * exists (more ++ [ev]). rewrite Hch, app_assoc. reflexivity.
      * cbn [eventsCh]. rewrite length_app. simpl. lia.
    + split; [exact Hcap|]. split; [eauto | exact Hlen].
  - split; [|reflexivity].
    split; [reflexivity|]. split; [exists []; rewrite app_nil_r; reflexivity | lia].
Qed.

Lemma attempts_snoc h e : isAttempt e = false -> attempts (h ++ [e]) = attempts h.
Proof.
  intros He. unfold attempts. rewrite List.filter_app. simpl. rewrite He.
  apply app_nil_r.
Qed.

Lemma writes_snoc h e : isInsert e = false ->
  length (List.filter isInsert (h ++ [e])) = length (List.filter isInsert h).
Proof. intros He. rewrite List.filter_app. simpl. rewrite He, app_nil_r. reflexivity. Qed.

(** A polling tick only reads the storage: whatever the API lists and
    whatever fails, [pollAllRepos] leaves the ledger and the subscriptions
    as they were, attempts no ledger write and sends nothing to Telegram.
    What it found goes to the channel alone. *)
Theorem pollAllRepos_reads_only p w :
  let w' := exec (pollAllRepos p) w in
  records w' = records w
  /\ subscriptions w' = subscriptions w
  /\ tgFaults w' = tgFaults w
  /\ writes w' = writes w
  /\ attempts (history w') = attempts (history w).
Proof.
  cut (storeIs (records w) (subscriptions w) (tgFaults w) (writes w)
         (exec (pollAllRepos p) w)
       /\ attempts (history (exec (pollAllRepos p) w)) = attempts (history w)).
  { unfold storeIs. cbv zeta. tauto. }
  apply (stable_pollAllRepos
           (fun w' => storeIs (records w) (subscriptions w) (tgFaults w) (writes w) w'
                      /\ attempts (history w') = attempts (history w))
           (subscriptions w) p).
  - split.
    + intros e He w0 [(Hr & Hs & Ht & Hw) Ha]. unfold storeIs, writes, exec, record.
      cbn [snd records subscriptions tgFaults history].
      rewrite writes_snoc, attempts_snoc by (destruct e; try reflexivity; discriminate).
      repeat split; assumption.
    + intros w0 H; exact H.
  - unfold storeIs. tauto.
  - intros s ev _ _ w0 [(Hr & Hs & Ht & Hw) Ha]. unfold storeIs, writes, exec, trySend.
    destruct (length (eventsCh w0) <? chanCap w0)%nat;
      cbn [snd records subscriptions tgFaults history];
      rewrite writes_snoc, attempts_snoc by reflexivity;
      repeat split; assumption.
  - repeat split.
Qed.

(** Over its whole life, initialization and any number of ticks, the
    poller removes nothing from the ledger, leaves the subscriptions as
    they were and sends nothing to Telegram. *)
Theorem pollLoop_keeps_ledger p ticks w :
  let w' := exec (pollLoop p ticks) w in
  records w ⊆ records w'
  /\ subscriptions w' = subscriptions w
  /\ tgFaults w' = tgFaults w
  /\ attempts (history w') = attempts (history w).
Proof.
  cut ((records w ⊆ records (exec (pollLoop p ticks) w)
        /\ tgFaults (exec (pollLoop p ticks) w) = tgFaults w
        /\ attempts (history (exec (pollLoop p ticks) w)) = attempts (history w))
       /\ subscriptions (exec (pollLoop p ticks) w) = subscriptions w).
  { cbv zeta. tauto. }
  apply (stable_pollLoop
           (fun w' => (records w ⊆ records w' /\ tgFaults w' = tgFaults w
                       /\ attempts (history w') = attempts (history w))
                      /\ subscriptions w' = subscriptions w)
           (subscriptions w) p ticks).
  - apply subscriptions_kept. split.
    + intros e He w0 (Hr & Ht & Ha). unfold exec, record.
      cbn [snd records tgFaults history].
      rewrite attempts_snoc by (destruct e; try reflexivity; discriminate).
      repeat split; assumption.
    + intros w0 H; exact H.
  - apply subscriptions_written. split.
    + intros k err w0 (Hr & Ht & Ha). unfold exec, record.
      cbn [snd records tgFaults history]. rewrite attempts_snoc by reflexivity.
      repeat split; assumption.
    + intros k w0 (Hr & Ht & Ha). unfold exec, insertRow.
      cbn [snd records tgFaults history]. split; [set_solver | split; assumption].
  - tauto.
  - intros s ev _ _ w0 [(Hr & Ht & Ha) Hs]. unfold exec, trySend.
    destruct (length (eventsCh w0) <? chanCap w0)%nat;
      cbn [snd records subscriptions tgFaults history];
      rewrite attempts_snoc by reflexivity;
      repeat split; assumption.
  - repeat split. set_solver.
Qed.

Lemma emitted_snoc h e : silent e = true -> emitted (h ++ [e]) = emitted h.
Proof.
  intros He. rewrite emitted_app. destruct e; try discriminate; apply app_nil_r.
Qed.

(** Every event the poller offers to the channel, at any tick, is an event
    of a repository that has a subscription, and its type names the variant
    of its payload. *)
Theorem pollLoop_offers_subscribed p ticks w :
  exists more,
    emitted (history (exec (pollLoop p ticks) w)) = emitted (history w) ++ more
    /\ Forall (fromSubscribed (subscriptions w)) more.
Proof.
  cut (offeredOnly (fromSubscribed (subscriptions w)) (emitted (history w))
         (exec (pollLoop p ticks) w)
       /\ subscriptions (exec (pollLoop p ticks) w) = subscriptions w).
  { intros [H _]. exact H. }
  apply (stable_pollLoop
           (fun w' => offeredOnly (fromSubscribed (subscriptions w))
                        (emitted (history w)) w'
                      /\ subscriptions w' = subscriptions w)
           (subscriptions w) p ticks).
  - apply subscriptions_kept. split.
    + intros e He w0 (more & Hm & Hall). exists more. unfold exec, record.
      cbn [snd history].
      rewrite emitted_snoc by (destruct e; try reflexivity; discriminate).
      split; assumption.
    + intros w0 H; exact H.
  - apply subscriptions_written. split.
    + intros k err w0 (more & Hm & Hall). exists more. unfold exec, record.
      cbn [snd history]. rewrite emitted_snoc by reflexivity. split; assumption.
    + intros k w0 H; exact H.
  - tauto.
  - intros s ev Hin Hev w0 [(more & Hm & Hall) Hs]. split.
    + exists (more ++ [ev]). unfold exec, trySend.
      destruct (length (eventsCh w0) <? chanCap w0)%nat; cbn [snd history];
        rewrite emitted_app, Hm, <- app_assoc; simpl;
        (split; [reflexivity|]);
        (apply Forall_app; split; [exact Hall|]);
        (constructor; [exists s; split; assumption | constructor]).
    + unfold exec, trySend.
      destruct (length (eventsCh w0) <? chanCap w0)%nat; exact Hs.
  - split; [|reflexivity]. exists []. rewrite app_nil_r. split; [reflexivity | constructor].
Qed.

(** ** The ledger after initialization *)

Lemma within_RecordEvent R S o n t i :
  (o, n, t, i) ∈ S -> preserves (within R S) (RecordEvent o n t i).
Proof.
  intros Hk w Hw. unfold exec, within in *. rewrite RecordEvent_run.
  destruct (hd false (dbFaults w)); cbn [snd records]; set_solver.
Qed.

Lemma seed_of_page {A} (keys : A -> list Key) (r : option (list A)) l x k :
  r = Some l -> x ∈ l -> In k (keys x) -> In k (flat_map keys (page r)).
Proof.
  intros -> Hx Hk. apply in_flat_map. exists x. split; [apply list_elem_of_In, Hx | exact Hk].
Qed.

Lemma within_recordExistingEvents R S p o n :
  (forall k, In k (seedKeys p o n) -> k ∈ S) ->
  preserves (within R S) (recordExistingEvents p o n).
Proof.
  intros Hseed.
  assert (Hrec : forall t i, In (o, n, t, i) (seedKeys p o n) ->
                   preserves (within R S) (RecordEvent o n t i ;;; ret tt)).
  { intros t i Hk. apply preserves_bind;
      [apply within_RecordEvent, Hseed, Hk | intros; apply preserves_ret]. }
  unfold recordExistingEvents.
  apply preserves_bind; [|intros _; apply preserves_bind;
                           [|intros _; apply preserves_bind; [|intros _]]];
    apply preserves_whenOk; intros l x Hl Hx.
  - unfold recordCommit. destruct (String.eqb (GetSHA x) "") eqn:E;
      [apply preserves_ret|]. apply Hrec. unfold seedKeys.
    rewrite !in_app_iff. left.
    apply (seed_of_page (commitKeys o n) _ l x); [exact Hl | exact Hx|].
    unfold commitKeys. rewrite E. left; reflexivity.
  - unfold recordRelease. destruct (GetDraft x) eqn:E; [apply preserves_ret|].
    apply Hrec. unfold seedKeys. rewrite !in_app_iff. right; left.
    apply (seed_of_page (releaseKeys o n) _ l x); [exact Hl | exact Hx|].
    unfold releaseKeys. rewrite E. left; reflexivity.
  - assert (Hin : forall k, In k (issueKeys o n x) -> k ∈ S).
    { intros k Hk. apply Hseed. unfold seedKeys. rewrite !in_app_iff. right; right; left.
      apply (seed_of_page (issueKeys o n) _ l x); [exact Hl | exact Hx | exact Hk]. }
    unfold recordIssue. unfold issueKeys in Hin.
    destruct (IsPullRequest x); [apply preserves_ret|]. cbn [negb].
    apply preserves_bind; [apply within_RecordEvent, Hin; left; reflexivity | intros _].
    destruct (String.eqb (GetIssueState x) "closed"); [|apply preserves_ret].
    apply preserves_bind;
      [apply within_RecordEvent, Hin; right; left; reflexivity
      | intros; apply preserves_ret].
  - assert (Hin : forall k, In k (prKeys o n x) -> k ∈ S).
    { intros k Hk. apply Hseed. unfold seedKeys. rewrite !in_app_iff. right; right; right.
      apply (seed_of_page (prKeys o n) _ l x); [exact Hl | exact Hx | exact Hk]. }
    unfold recordPR. unfold prKeys in Hin.
    apply preserves_bind; [apply within_RecordEvent, Hin; left; reflexivity | intros _].
    destruct (String.eqb (GetPRState x) "closed"); [|apply preserves_ret].
    apply preserves_bind;
      [apply within_RecordEvent, Hin; right; left; reflexivity
      | intros; apply preserves_ret].
Qed.

Lemma allSeeds_spec p subs k :
  k ∈ allSeeds p subs <->
  exists s, In s subs /\ In k (seedKeys p (SubRepoOwner s) (SubRepoName s)).
Proof.
  unfold allSeeds. rewrite elem_of_list_to_set, list_elem_of_In, in_flat_map.
  reflexivity.
Qed.

(** Initialization writes the seed keys of the subscribed repositories and
    nothing else: it removes no key, every key it adds is a seed key of a
    repository that has a subscription, whatever fails, and with a healthy
    storage the ledger afterwards is exactly the ledger before together
    with these seeds.  Running it again on the same answers of the API then
    changes nothing. *)
Theorem initializeRepos_ledger p w :
  let w' := exec (initializeRepos p) w in
  records w ⊆ records w'
  /\ records w' ⊆ records w ∪ allSeeds p (subscriptions w)
  /\ (healthy w ->
      records w' = records w ∪ allSeeds p (subscriptions w)
      /\ records (exec (initializeRepos p) w') = records w').
Proof.
  assert (Hup : forall w0, records w0 ⊆ records (exec (initializeRepos p) w0)).
  { intros w0.
    apply (stable_initializeRepos (fun w' => records w0 ⊆ records w') p).
    - split; [intros e _ w1 H | intros w1 H]; exact H.
    - split; [intros k err w1 H; exact H|].
      intros k w1 H. unfold exec, insertRow. cbn [snd records]. set_solver.
    - set_solver. }
  assert (Hdown : forall w0, records (exec (initializeRepos p) w0)
                             ⊆ records w0 ∪ allSeeds p (subscriptions w0)).
  { intros w0. unfold exec, initializeRepos, bind. rewrite GetAllSubscribedRepos_run.
    destruct (hd false (dbFaults w0)); [cbn; set_solver|].
    destruct (length _ =? 0)%nat; [cbn; set_solver|].
    refine (preserves_forM_ (within (records w0) (allSeeds p (subscriptions w0)))
              _ _ _ _ _); [|unfold within; cbn; set_solver].
    intros repo Hrepo. destruct (subscribed_of_repos w0 repo Hrepo) as (s & Hin & ->).
    cbn [fst snd]. apply within_recordExistingEvents.
    intros k Hk. apply allSeeds_spec. eauto. }
  assert (Hseeds : forall w0, healthy w0 ->
            allSeeds p (subscriptions w0) ⊆ records (exec (initializeRepos p) w0)).
  { intros w0 Hh k Hk. apply allSeeds_spec in Hk. destruct Hk as (s & Hs & Hk).
    apply (seeded_by_initializeRepos p w0 s);
      [exact Hh | apply list_elem_of_In, Hs | apply list_elem_of_In, Hk]. }
  assert (Hkeep : forall w0,
            subscriptions (exec (initializeRepos p) w0) = subscriptions w0
            /\ (healthy w0 -> healthy (exec (initializeRepos p) w0))).
  { intros w0.
    apply (stable_initializeRepos
             (fun w' => subscriptions w' = subscriptions w0
                        /\ (healthy w0 -> healthy w')) p).
    - split; [intros e _ w1 H; exact H|].
      intros w1 [Hs Hh]. split; [exact Hs|]. intros H0. specialize (Hh H0).
      unfold healthy, exec, dbFault in *. cbn [snd dbFaults]. rewrite Hh. reflexivity.
    - split; [intros k err w1 H | intros k w1 H]; exact H.
    - split; [reflexivity | tauto]. }
  intros w'. subst w'. split; [apply Hup|]. split; [apply Hdown|].
  intros Hh.
  assert (E : records (exec (initializeRepos p) w)
              = records w ∪ allSeeds p (subscriptions w)).
  { apply set_eq. intros k. split.
    - apply Hdown.
    - intros [Hk | Hk]%elem_of_union; [apply Hup, Hk | apply (Hseeds w Hh), Hk]. }
  split; [exact E|].
  destruct (Hkeep w) as [Hsubs Hh']. specialize (Hh' Hh).
  apply set_eq. intros k. split.
  - intros Hk. apply Hdown in Hk. rewrite Hsubs in Hk.
    apply elem_of_union in Hk. destruct Hk as [Hk | Hk]; [exact Hk|].
    apply (Hseeds w Hh), Hk.
  - apply Hup.
Qed.

Lemma initializeRepos_ledger_witness :
  records (exec (initializeRepos (Sample.poller (Sample.upstream [Sample.oldCommit] [] [] [])))
             Sample.world)
    = records Sample.world
      ∪ allSeeds (Sample.poller (Sample.upstream [Sample.oldCommit] [] [] []))
          (subscriptions Sample.world).
Proof.
  destruct (initializeRepos_ledger
              (Sample.poller (Sample.upstream [Sample.oldCommit] [] [] []))
              Sample.world) as (_ & _ & H).
  exact (proj1 (H eq_refl)).
Defined.

(** ** A commit hash shorter than seven bytes *)

Lemma pollCommit_run o n c w :
  let k := (o, n, "push", GetSHA c) in
  let err := hd false (dbFaults w) in
  let looked hist ch :=
    mkWorld (records w) (subscriptions w) (tl (dbFaults w)) ch (chanCap w)
            (tgFaults w) (history w ++ Lookup k err :: hist) in
  pollCommit o n c w =
    if String.eqb (GetSHA c) "" then (Some tt, w)
    else if negb err && bool_decide (k ∈ records w) then (Some tt, looked [] (eventsCh w))
    else if (length (eventsCh w) <? chanCap w)%nat then
      (if (String.length (GetSHA c) <? 7)%nat then None else Some tt,
       looked [Enqueued (pushEventOf o n c)] (eventsCh w ++ [pushEventOf o n c]))
    else
      (Some tt,
       looked [Dropped (pushEventOf o n c); Warned "Event channel full"] (eventsCh w)).
Proof.
  intros k err looked. subst k err looked. unfold pollCommit.
  destruct (String.eqb (GetSHA c) ""); [reflexivity|].
  unfold bind at 1. rewrite IsEventProcessed_run.
  destruct (hd false (dbFaults w)); cbn [negb andb].
  - unfold bind, trySend, logWarn, record, panic, ret. cbn [eventsCh chanCap].
    destruct (length (eventsCh w) <? chanCap w)%nat;
      [destruct (String.length (GetSHA c) <? 7)%nat|];
      cbn [records subscriptions dbFaults eventsCh chanCap tgFaults history];
      rewrite <- ?app_assoc; reflexivity.
  - destruct (bool_decide _); [reflexivity|].
    unfold bind, trySend, logWarn, record, panic, ret. cbn [eventsCh chanCap].
    destruct (length (eventsCh w) <? chanCap w)%nat;
      [destruct (String.length (GetSHA c) <? 7)%nat|];
      cbn [records subscriptions dbFaults eventsCh chanCap tgFaults history];
      rewrite <- ?app_assoc; reflexivity.
Qed.

(** The scan of one commit panics in exactly one situation: the hash is
    not empty but shorter than seven bytes, the commit does not come out of
    the membership check as processed, and the channel has room.  The
    event is on the channel by then: the panic comes from the log line
    after the send, which slices the hash. *)
Theorem pollCommit_panics_iff o n c w :
  (result (pollCommit o n c) w = None <->
   GetSHA c <> ""
   /\ (String.length (GetSHA c) < 7)%nat
   /\ (hd false (dbFaults w) = true \/ (o, n, "push", GetSHA c) ∉ records w)
   /\ (length (eventsCh w) < chanCap w)%nat)
  /\ (result (pollCommit o n c) w = None ->
      eventsCh (exec (pollCommit o n c) w) = eventsCh w ++ [pushEventOf o n c]).
Proof.
  unfold result, exec. rewrite pollCommit_run.
  destruct (String.eqb_spec (GetSHA c) "") as [He | He].
  { split; [|discriminate]. split; [discriminate | tauto]. }
  destruct (hd false (dbFaults w)) eqn:Hf; cbn [negb andb].
  - destruct (Nat.ltb_spec (length (eventsCh w)) (chanCap w)) as [Hroom | Hfull].
    + destruct (Nat.ltb_spec (String.length (GetSHA c)) 7) as [Hs | Hs]; cbn [fst snd eventsCh].
      * split; [|reflexivity]. split; [tauto | reflexivity].
      * split; [|discriminate]. split; [discriminate | lia].
    + cbn [fst snd eventsCh]. split; [|discriminate]. split; [discriminate | lia].
  - destruct (decide ((o, n, "push", GetSHA c) ∈ records w)) as [Hk | Hk].
    + rewrite (bool_decide_eq_true_2 _ Hk). cbn [fst snd eventsCh].
      split; [|discriminate]. split; [discriminate|].
      intros (_ & _ & [H | H] & _); [discriminate | contradiction].
    + rewrite (bool_decide_eq_false_2 _ Hk).
      destruct (Nat.ltb_spec (length (eventsCh w)) (chanCap w)) as [Hroom | Hfull].
      * destruct (Nat.ltb_spec (String.length (GetSHA c)) 7) as [Hs | Hs];
          cbn [fst snd eventsCh].
        -- split; [|reflexivity]. split; [tauto | reflexivity].
        -- split; [|discriminate]. split; [discriminate | lia].
      * cbn [fst snd eventsCh]. split; [|discriminate]. split; [discriminate | lia].
Qed.

Lemma pollCommit_panics_iff_witness :
  result (pollCommit "acme" "widgets"
            (mkRepositoryCommit "7fd1a6" "fix" "octocat" Sample.later "octocat" ""))
         Sample.world = None.
Proof.
  apply (pollCommit_panics_iff "acme" "widgets"
           (mkRepositoryCommit "7fd1a6" "fix" "octocat" Sample.later "octocat" "")
           Sample.world).
  split; [discriminate|]. split; [simpl; lia|]. split; [right; set_solver | simpl; lia].
Defined.

(** ** The notifier *)

Lemma attempts_app h1 h2 : attempts (h1 ++ h2) = attempts h1 ++ attempts h2.
Proof. apply List.filter_app. Qed.

Lemma skipn_tl {A} (n : nat) (l : list A) : skipn n (tl l) = skipn (S n) l.
Proof. destruct l; [destruct n|]; reflexivity. Qed.

Section NotifierFurther.

Context {U_events : Unmarshal (list string)}.
Variable FormatMessage : Payload -> option string.

Lemma attempts_fanout eventType message subs faults :
  attempts (fanout eventType message subs faults)
    = sends message (enabledFor eventType subs) faults.
Proof.
  revert faults. induction subs as [|sub rest IH]; intros faults; [reflexivity|].
  unfold enabledFor in *. simpl. destruct (isEventEnabled sub eventType); [|apply IH].
  rewrite attempts_app, IH. unfold sendOutcome. simpl.
  destruct (hd false faults); reflexivity.
Qed.

Lemma fanoutFaults_skipn eventType subs faults :
  fanoutFaults eventType subs faults
    = skipn (length (enabledFor eventType subs)) faults.
Proof.
  revert faults. induction subs as [|sub rest IH]; intros faults; [reflexivity|].
  unfold enabledFor in *. simpl. destruct (isEventEnabled sub eventType); [|apply IH].
  rewrite IH. cbn [length]. apply skipn_tl.
Qed.

Lemma HandleWebhookEvent_early event w :
  hd false (dbFaults w) = true
  \/ subscribersOf (RepoOwner event) (RepoName event) w = [] ->
  HandleWebhookEvent FormatMessage event w =
    (Some (if hd false (dbFaults w) then Some "failed to get subscribers" else None),
     mkWorld (records w) (subscriptions w) (tl (dbFaults w)) (eventsCh w) (chanCap w)
             (tgFaults w) (history w ++ [Select (hd false (dbFaults w))])).
Proof.
  intros H. unfold HandleWebhookEvent, bind at 1. rewrite GetSubscriptionsByRepo_run.
  destruct (hd false (dbFaults w)); [reflexivity|].
  destruct H as [H | H]; [discriminate|]. rewrite H. reflexivity.
Qed.

Lemma HandleWebhookEvent_unformattable event w :
  hd false (dbFaults w) = false ->
  subscribersOf (RepoOwner event) (RepoName event) w <> [] ->
  hd false (tl (dbFaults w)) = true \/ keyOf event ∉ records w ->
  FormatMessage (EvPayload event) = None ->
  HandleWebhookEvent FormatMessage event w =
    (None,
     mkWorld (records w) (subscriptions w) (tl (tl (dbFaults w))) (eventsCh w)
             (chanCap w) (tgFaults w)
             (history w
              ++ [Select false; Lookup (keyOf event) (hd false (tl (dbFaults w)))]
              ++ (if hd false (tl (dbFaults w))
                  then [Warned "Failed to check event processing status"]
                  else []))).
Proof.
  intros Hsel Hsubs Hnew Hfmt. unfold keyOf in *.
  unfold HandleWebhookEvent, bind at 1. rewrite GetSubscriptionsByRepo_run, Hsel.
  destruct (subscribersOf (RepoOwner event) (RepoName event) w) as [|s0 rest];
    [congruence|].
  cbn [length Nat.eqb]. unfold bind at 1. rewrite IsEventProcessed_run.
  cbn [dbFaults records history subscriptions eventsCh chanCap tgFaults].
  match goal with
  | |- context [if (if ?c then false else ?b) then _ else _] =>
      assert (Hproc : (if c then false else b) = false)
  end.
  { destruct Hnew as [-> | Hk]; [reflexivity|].
    destruct (hd false (tl (dbFaults w))); [reflexivity|].
    apply bool_decide_eq_false, Hk. }
  rewrite Hproc. unfold buildMessage. rewrite Hfmt.
  unfold bind, logWarn, record, ret, panic.
  destruct (hd false (tl (dbFaults w)));
    cbn [dbFaults records history subscriptions eventsCh chanCap tgFaults];
    rewrite <- ?app_assoc; reflexivity.
Qed.

(** [HandleWebhookEvent] stops after reading the subscribers when the read
    fails or there are none: it returns the error in the first case and
    nil in the second, and in both it has formatted no message, attempted
    no send and touched neither the ledger nor its fault schedule beyond
    the one read.  This holds for an event whose message could not even be
    formatted. *)
Theorem HandleWebhookEvent_without_subscribers event w :
  hd false (dbFaults w) = true
  \/ subscribersOf (RepoOwner event) (RepoName event) w = [] ->
  let w' := exec (HandleWebhookEvent FormatMessage event) w in
  result (HandleWebhookEvent FormatMessage event) w
    = Some (if hd false (dbFaults w) then Some "failed to get subscribers" else None)
  /\ records w' = records w
  /\ tgFaults w' = tgFaults w
  /\ dbFaults w' = tl (dbFaults w)
  /\ history w' = history w ++ [Select (hd false (dbFaults w))].
Proof.
  intros H w'. subst w'. unfold result, exec.
  rewrite (HandleWebhookEvent_early event w H). repeat split.
Qed.

(** Once an event has been handled with a healthy storage, handling an
    event with the same ledger key again, then or in any later world that
    still holds the key and answers the two reads, attempts no send and
    leaves the ledger as it is: the repeat may even carry another payload,
    as a redelivery or the same event seen by the other source does. *)
Theorem HandleWebhookEvent_suppresses_repeat event text w :
  healthy w ->
  subscribersOf (RepoOwner event) (RepoName event) w <> [] ->
  FormatMessage (EvPayload event) = Some text ->
  let w1 := exec (HandleWebhookEvent FormatMessage event) w in
  keyOf event ∈ records w1
  /\ forall again w2,
       keyOf again = keyOf event ->
       records w1 ⊆ records w2 ->
       hd false (dbFaults w2) = false ->
       hd false (tl (dbFaults w2)) = false ->
       let w3 := exec (HandleWebhookEvent FormatMessage again) w2 in
       result (HandleWebhookEvent FormatMessage again) w2 = Some None
       /\ attempts (history w3) = attempts (history w2)
       /\ records w3 = records w2
       /\ tgFaults w3 = tgFaults w2.
Proof.
  intros Hh Hsubs Hfmt w1.
  destruct (HandleWebhookEvent_records FormatMessage event text w Hh Hsubs Hfmt)
    as (_ & Hk & _).
  fold w1 in Hk. split; [exact Hk|].
  intros again w2 Hkey Hsub Hsel Hlook w3. subst w3. unfold result, exec.
  destruct (subscribersOf (RepoOwner again) (RepoName again) w2) as [|s0 rest] eqn:Es.
  - rewrite (HandleWebhookEvent_early again w2 (or_intror Es)), Hsel.
    cbn [fst snd history records tgFaults].
    rewrite attempts_snoc by reflexivity. repeat split.
  - rewrite (HandleWebhookEvent_processed FormatMessage again w2);
      [|exact Hsel | rewrite Es; discriminate | exact Hlook
       | rewrite Hkey; apply Hsub, Hk].
    cbn [fst snd history records tgFaults].
    rewrite attempts_app. simpl. rewrite app_nil_r. repeat split.
Qed.

(** When an event is handled, every subscriber whose filter admits its
    type gets exactly one send attempt, in the order of the rows, each
    failing or not by what Telegram answers; a failed send stops nothing.
    The event is then recorded as processed whatever the sends did, so a
    message that could not be delivered is not sent again. *)
Theorem HandleWebhookEvent_fanout event text w :
  let subs := subscribersOf (RepoOwner event) (RepoName event) w in
  let enabled := enabledFor (Type_ event) subs in
  hd false (dbFaults w) = false ->
  subs <> [] ->
  hd false (tl (dbFaults w)) = true \/ keyOf event ∉ records w ->
  FormatMessage (EvPayload event) = Some text ->
  let w' := exec (HandleWebhookEvent FormatMessage event) w in
  result (HandleWebhookEvent FormatMessage event) w = Some None
  /\ attempts (history w')
     = attempts (history w) ++ sends (header event +:+ text) enabled (tgFaults w)
  /\ tgFaults w' = skipn (length enabled) (tgFaults w)
  /\ (hd false (tl (tl (dbFaults w))) = false -> keyOf event ∈ records w')
  /\ (hd false (tl (tl (dbFaults w))) = true -> records w' = records w).
Proof.
  intros subs enabled Hsel Hsubs Hnew Hfmt w'. subst w' subs enabled.
  unfold result, exec.
  rewrite (HandleWebhookEvent_run FormatMessage event text w Hsel Hsubs Hnew Hfmt).
  cbn [fst snd history records tgFaults].
  split; [reflexivity|]. split; [|split; [apply fanoutFaults_skipn|]].
  - rewrite !attempts_app, attempts_fanout.
    destruct (hd false (tl (dbFaults w))), (hd false (tl (tl (dbFaults w))));
      simpl; rewrite ?app_nil_r; reflexivity.
  - split; intros ->; [set_solver | reflexivity].
Qed.

End NotifierFurther.

Lemma HandleWebhookEvent_without_subscribers_witness :
  result (@HandleWebhookEvent Sample.events_decoder Sample.format
            (pushEventOf "acme" "gadgets" Sample.commit1)) Sample.world = Some None.
Proof.
  apply (@HandleWebhookEvent_without_subscribers Sample.events_decoder Sample.format
           (pushEventOf "acme" "gadgets" Sample.commit1) Sample.world).
  right. reflexivity.
Defined.

Lemma HandleWebhookEvent_suppresses_repeat_witness :
  keyOf (pushEventOf "acme" "widgets" Sample.commit1)
    ∈ records (exec (@HandleWebhookEvent Sample.events_decoder Sample.format
                       (pushEventOf "acme" "widgets" Sample.commit1)) Sample.world).
Proof.
  apply (@HandleWebhookEvent_suppresses_repeat Sample.events_decoder Sample.format
           (pushEventOf "acme" "widgets" Sample.commit1) "push" Sample.world).
  - reflexivity.
  - discriminate.
  - reflexivity.
Defined.

Lemma HandleWebhookEvent_fanout_witness :
  result (@HandleWebhookEvent Sample.events_decoder Sample.format
            (pushEventOf "acme" "widgets" Sample.commit1))
         (Sample.withFaults [false; true] Sample.world) = Some None.
Proof.
  apply (@HandleWebhookEvent_fanout Sample.events_decoder Sample.format
           (pushEventOf "acme" "widgets" Sample.commit1) "push"
           (Sample.withFaults [false; true] Sample.world)).
  - reflexivity.
  - discriminate.
  - left. reflexivity.
  - reflexivity.
Defined.

(** A push whose message cannot be formatted: one of its first five
    commits has a hash shorter than seven bytes. *)
Lemma FormatPush_short g e :
  existsb shortHash (firstn 5 (PushCommits e)) = true -> FormatPush g e = None.
Proof.
  intros Hshort. unfold FormatPush. rewrite (firstn_at_most 5).
  match goal with
  | |- context [commitLines g ?l ?m] =>
      rewrite (proj2 (commitLines_panics g l m) Hshort)
  end.
  reflexivity.
Qed.

(** The notifier panics on a push with a short commit hash as soon as it
    has a subscriber to tell and the event is not known to the ledger: the
    message is built before the loop over the subscribers, so nobody is
    sent anything and nothing is recorded, and the same event panics again
    when it is handled again.  Nothing recovers from the panic in the
    consumer. *)
Theorem HandleWebhookEvent_short_hash {U : Unmarshal (list string)} g event e w :
  EvPayload event = PPush e ->
  existsb shortHash (firstn 5 (PushCommits e)) = true ->
  hd false (dbFaults w) = false ->
  subscribersOf (RepoOwner event) (RepoName event) w <> [] ->
  hd false (tl (dbFaults w)) = true \/ keyOf event ∉ records w ->
  let w' := exec (HandleWebhookEvent (FormatMessageOf g) event) w in
  result (HandleWebhookEvent (FormatMessageOf g) event) w = None
  /\ records w' = records w
  /\ tgFaults w' = tgFaults w
  /\ attempts (history w') = attempts (history w)
  /\ result (consumeOne (FormatMessageOf g))
       (mkWorld (records w) (subscriptions w) (dbFaults w) (event :: eventsCh w)
                (chanCap w) (tgFaults w) (history w)) = None.
Proof.
  intros Hp Hshort Hsel Hsubs Hnew w'. subst w'.
  assert (Hfmt : FormatMessageOf g (EvPayload event) = None).
  { rewrite Hp. apply FormatPush_short, Hshort. }
  unfold result, exec.
  rewrite (HandleWebhookEvent_unformattable (FormatMessageOf g) event w
             Hsel Hsubs Hnew Hfmt).
  cbn [fst snd records tgFaults history].
  split; [reflexivity|]. split; [reflexivity|]. split; [reflexivity|]. split.
  - rewrite !attempts_app. destruct (hd false (tl (dbFaults w))); simpl;
      rewrite ?app_nil_r; reflexivity.
  - unfold consumeOne, bind, receive. cbn [eventsCh].
    cbn [dbFaults records history subscriptions eventsCh chanCap tgFaults].
    rewrite (HandleWebhookEvent_unformattable (FormatMessageOf g) event
               (mkWorld (records w) (subscriptions w) (dbFaults w) (eventsCh w)
                        (chanCap w) (tgFaults w) (history w))
               Hsel Hsubs Hnew Hfmt).
    reflexivity.
Qed.

Lemma HandleWebhookEvent_short_hash_witness :
  result (@HandleWebhookEvent Sample.events_decoder (FormatMessageOf Sample.glyphs)
            (pushEventOf "acme" "widgets"
               (mkRepositoryCommit "7fd1a6" "fix" "octocat" Sample.later "octocat" "")))
         Sample.world = None.
Proof.
  eapply (@HandleWebhookEvent_short_hash Sample.events_decoder Sample.glyphs
            (pushEventOf "acme" "widgets"
               (mkRepositoryCommit "7fd1a6" "fix" "octocat" Sample.later "octocat" ""))
            _ Sample.world).
  - reflexivity.
  - reflexivity.
  - reflexivity.
  - discriminate.
  - right. set_solver.
Defined.

(** ** The webhook ingestor *)

Section ServeFurther.

Context {U_base : Unmarshal baseEvent}
        {U_push : Unmarshal pushPayload}
        {U_release : Unmarshal releasePayload}
        {U_issue : Unmarshal issuePayload}
        {U_pr : Unmarshal prPayload}.

Lemma parseEvent_wellKinded eventType body ev :
  parseEvent eventType body = Parsed (Some ev) ->
  wellKinded ev /\ Type_ ev = eventType
  /\ exists base, unmarshal (T := baseEvent) body = Some base
       /\ RepoOwner ev = baseOwnerLogin base /\ RepoName ev = baseName base.
Proof.
  unfold parseEvent.
  destruct (unmarshal (T := baseEvent) body) as [base|]; [|discriminate]. cbv zeta.
  destruct (String.eqb_spec eventType "push") as [-> | _].
  { destruct (unmarshal (T := pushPayload) body); [|discriminate].
    intros [= <-]. repeat split. exists base. repeat split. }
  destruct (String.eqb_spec eventType "release") as [-> | _].
  { destruct (unmarshal (T := releasePayload) body); [|discriminate].
    destruct (negb _); [discriminate|].
    intros [= <-]. repeat split. exists base. repeat split. }
  destruct (String.eqb_spec eventType "issues") as [-> | _].
  { destruct (unmarshal (T := issuePayload) body); [|discriminate].
    destruct (_ && _); [discriminate|].
    intros [= <-]. repeat split. exists base. repeat split. }
  destruct (String.eqb_spec eventType "pull_request") as [-> | _]; [|discriminate].
  destruct (unmarshal (T := prPayload) body); [|discriminate].
  destruct (_ && _); [discriminate|].
  intros [= <-]. repeat split. exists base. repeat split.
Qed.

Variable hmacSHA256 : string -> string -> string.

(** A webhook request touches nothing but the channel and the log: the
    ledger, the subscriptions and both fault schedules are as before, no
    ledger write and no send to Telegram is attempted.  The channel is as
    it was or one event longer; an event is added only for a POST when the
    channel has room, and it carries the type of the X-GitHub-Event header
    with the payload variant of that type and the repository the body
    names. *)
Theorem ServeHTTP_frame h r w :
  let w' := exec (ServeHTTP hmacSHA256 h r) w in
  records w' = records w
  /\ subscriptions w' = subscriptions w
  /\ dbFaults w' = dbFaults w
  /\ tgFaults w' = tgFaults w
  /\ chanCap w' = chanCap w
  /\ writes w' = writes w
  /\ attempts (history w') = attempts (history w)
  /\ (eventsCh w' = eventsCh w
      \/ exists ev body base,
           eventsCh w' = eventsCh w ++ [ev]
           /\ (length (eventsCh w) < chanCap w)%nat
           /\ Method r = "POST" /\ Body r = Some body
           /\ wellKinded ev /\ Type_ ev = XGitHubEvent r
           /\ unmarshal (T := baseEvent) body = Some base
           /\ RepoOwner ev = baseOwnerLogin base /\ RepoName ev = baseName base).
Proof.
  intros w'. subst w'. pattern (exec (ServeHTTP hmacSHA256 h r) w).
  match goal with |- ?P _ => set (Q := P) end.
  assert (Hsame : Q w).
  { subst Q. cbv beta. repeat split. left; reflexivity. }
  assert (Hlog : forall e, passive e = true -> Q (snd (record e w))).
  { intros e He. subst Q. cbv beta. unfold record, writes.
    cbn [snd records subscriptions dbFaults tgFaults chanCap history eventsCh].
    rewrite writes_snoc, attempts_snoc by (destruct e; try reflexivity; discriminate).
    repeat split. left; reflexivity. }
  unfold exec. rewrite ServeHTTP_run.
  destruct (String.eqb_spec (Method r) "POST") as [Hm | _]; cbn [negb snd]; [|exact Hsame].
  destruct (Body r) as [body|] eqn:Hb;
    [|exact (Hlog (Errored "Failed to read webhook body") eq_refl)].
  destruct (_ && _); [exact (Hlog (Warned "Invalid webhook signature") eq_refl)|].
  destruct (String.eqb (XGitHubEvent r) ""); [exact Hsame|].
  destruct (parseEvent (XGitHubEvent r) body) as [[ev|]|msg] eqn:Hp;
    [|exact Hsame | exact (Hlog (Errored "Failed to parse event") eq_refl)].
  destruct (parseEvent_wellKinded _ _ _ Hp) as (Hk & Ht & base & Hbase & Ho & Hn).
  subst Q. cbv beta. unfold exec, trySend, logWarn, record, writes.
  destruct (Nat.ltb_spec (length (eventsCh w)) (chanCap w)) as [Hroom | Hfull];
    cbn [snd records subscriptions dbFaults tgFaults chanCap history eventsCh];
    rewrite ?writes_snoc, ?attempts_snoc by reflexivity;
    repeat split.
  - right. exists ev, body, base. repeat split; assumption.
  - left; reflexivity.
Qed.

(** Without a configured secret the signature header is not looked at:
    the handler does the same for a request whatever signature it carries,
    a missing, malformed or wrong one included. *)
Theorem ServeHTTP_without_secret h r signature w :
  secret h = "" ->
  ServeHTTP hmacSHA256 h
    (mkRequest (Method r) (Body r) signature (XGitHubEvent r)) w
  = ServeHTTP hmacSHA256 h r w.
Proof.
  intros Hs. rewrite !ServeHTTP_run. cbn [Method Body XHubSignature256 XGitHubEvent].
  rewrite Hs. reflexivity.
Qed.

End ServeFurther.

Lemma ServeHTTP_without_secret_witness :
  @ServeHTTP Sample.base_decoder Sample.push_decoder Sample.release_decoder
    Sample.issue_decoder Sample.pr_decoder Sample.mac (mkWebhookHandler "")
    (mkRequest "POST" (Some "push") "forged" "push") Sample.world
  = @ServeHTTP Sample.base_decoder Sample.push_decoder Sample.release_decoder
      Sample.issue_decoder Sample.pr_decoder Sample.mac (mkWebhookHandler "")
      (mkRequest "POST" (Some "push") "" "push") Sample.world.
Proof.
  apply (@ServeHTTP_without_secret Sample.base_decoder Sample.push_decoder
           Sample.release_decoder Sample.issue_decoder Sample.pr_decoder Sample.mac
           (mkWebhookHandler "") (mkRequest "POST" (Some "push") "" "push")
           "forged" Sample.world).
  reflexivity.
Defined.

(** ** The table of subscriptions *)

Lemma isSubscription_iff c o n s : isSubscription c o n s = true <-> rowKey s = (c, o, n).
Proof.
  unfold isSubscription, rowKey.
  rewrite !andb_true_iff, Z.eqb_eq, !String.eqb_eq. split.
  - intros [[-> ->] ->]; reflexivity.
  - intros [= -> -> ->]; auto.
Qed.

Lemma isSubscription_false c o n s : isSubscription c o n s = false <-> rowKey s <> (c, o, n).
Proof.
  rewrite <- isSubscription_iff. destruct (isSubscription c o n s); split; congruence.
Qed.

Lemma none_affected {A} (f : A -> bool) (l : list A) :
  (length l - length (List.filter f l) = 0)%nat <-> forall x, In x l -> f x = true.
Proof.
  induction l as [|x l IH]; simpl; [tauto|].
  pose proof (List.filter_length_le f l) as Hle.
  destruct (f x) eqn:E; simpl.
  - rewrite IH. split; [intros H y [<- | Hy]; auto | auto].
  - split; [lia|]. intros H. specialize (H x (or_introl eq_refl)). congruence.
Qed.

Lemma Unsubscribe_run c o n w :
  Unsubscribe c o n w =
    if hd false (dbFaults w)
    then (Some (Some ExecFailed),
          mkWorld (records w) (subscriptions w) (tl (dbFaults w)) (eventsCh w)
                  (chanCap w) (tgFaults w) (history w))
    else (Some (if (length (subscriptions w)
                    - length (otherRows c o n (subscriptions w)) =? 0)%nat
                then Some SubscriptionNotFound else None),
          mkWorld (records w) (otherRows c o n (subscriptions w)) (tl (dbFaults w))
                  (eventsCh w) (chanCap w) (tgFaults w) (history w)).
Proof.
  unfold Unsubscribe, bind, dbFault, rows, setRows, ret, otherRows.
  destruct (hd false (dbFaults w)); [reflexivity|].
  cbn [records subscriptions dbFaults eventsCh chanCap tgFaults history].
  destruct (_ =? 0)%nat; reflexivity.
Qed.

Lemma GetSubscription_run c o n w :
  GetSubscription c o n w =
    (Some (if hd false (dbFaults w) then (Some zeroSubscription, true)
           else (head (List.filter (isSubscription c o n) (subscriptions w)), false)),
     mkWorld (records w) (subscriptions w) (tl (dbFaults w)) (eventsCh w) (chanCap w)
             (tgFaults w) (history w ++ [Select (hd false (dbFaults w))])).
Proof.
  unfold GetSubscription, bind, dbFault, record, rows, ret.
  destruct (hd false (dbFaults w)); [reflexivity|].
  cbn [records subscriptions dbFaults eventsCh chanCap tgFaults history].
  destruct (List.filter _ _); reflexivity.
Qed.

Lemma otherRows_spec c o n subs s :
  In s (otherRows c o n subs) <-> In s subs /\ rowKey s <> (c, o, n).
Proof.
  unfold otherRows. rewrite filter_In, negb_true_iff, isSubscription_false. reflexivity.
Qed.

Lemma no_row_left c o n subs :
  List.filter (isSubscription c o n) (otherRows c o n subs) = [].
Proof.
  unfold otherRows. induction subs as [|s subs IH]; [reflexivity|]. simpl.
  destruct (isSubscription c o n s) eqn:E; simpl; [exact IH|]. rewrite E. exact IH.
Qed.

Lemma otherRows_idem c o n subs :
  otherRows c o n (otherRows c o n subs) = otherRows c o n subs.
Proof.
  unfold otherRows. induction subs as [|s subs IH]; [reflexivity|]. simpl.
  destruct (isSubscription c o n s) eqn:E; simpl; [exact IH|]. rewrite E. simpl.
  rewrite IH. reflexivity.
Qed.

(** [Unsubscribe] deletes the rows of the chat for the repository and no
    other: when the statement runs, the table afterwards holds exactly the
    other rows, in their order; the call returns nil when there was such a
    row and the error "subscription not found" when there was none; a second
    call then finds nothing to delete and [GetSubscription] finds no row.
    When the statement fails, the table is as it was.  The ledger is never
    touched. *)
Theorem Unsubscribe_removes c o n w :
  let w' := exec (Unsubscribe c o n) w in
  records w' = records w
  /\ (hd false (dbFaults w) = true ->
      result (Unsubscribe c o n) w = Some (Some ExecFailed)
      /\ subscriptions w' = subscriptions w)
  /\ (hd false (dbFaults w) = false ->
      subscriptions w' = otherRows c o n (subscriptions w)
      /\ (forall s, In s (subscriptions w') <->
                    In s (subscriptions w) /\ rowKey s <> (c, o, n))
      /\ (result (Unsubscribe c o n) w = Some None <->
          exists s, In s (subscriptions w) /\ rowKey s = (c, o, n))
      /\ (result (Unsubscribe c o n) w = Some (Some SubscriptionNotFound) <->
          forall s, In s (subscriptions w) -> rowKey s <> (c, o, n))
      /\ (hd false (dbFaults w') = false ->
          result (Unsubscribe c o n) w' = Some (Some SubscriptionNotFound)
          /\ result (GetSubscription c o n) w' = Some (None, false))).
Proof.
  intros w'. subst w'. unfold result, exec. rewrite Unsubscribe_run.
  destruct (hd false (dbFaults w)) eqn:Hf.
  { split; [reflexivity|]. split; [intros _; split; reflexivity | discriminate]. }
  cbn [fst snd records subscriptions dbFaults].
  split; [reflexivity|]. split; [discriminate|]. intros _.
  assert (Hnone : (length (subscriptions w)
                   - length (otherRows c o n (subscriptions w)) = 0)%nat
                  <-> forall s, In s (subscriptions w) -> rowKey s <> (c, o, n)).
  { unfold otherRows. rewrite none_affected. split; intros H s Hs.
    - apply isSubscription_false, negb_true_iff, H, Hs.
    - apply negb_true_iff, isSubscription_false, H, Hs. }
  split; [reflexivity|]. split; [apply otherRows_spec|]. split; [|split].
  - destruct (Nat.eqb_spec (length (subscriptions w)
                            - length (otherRows c o n (subscriptions w))) 0) as [E | E].
    + split; [discriminate|]. intros (s & Hs & Hk).
      exfalso. exact (proj1 Hnone E s Hs Hk).
    + split; [intros _ | reflexivity].
      destruct (existsb (isSubscription c o n) (subscriptions w)) eqn:Ex.
      * apply existsb_exists in Ex. destruct Ex as (s & Hs & Hk).
        exists s. split; [exact Hs | apply isSubscription_iff, Hk].
      * exfalso. apply E, Hnone. intros s Hs Hk.
        apply isSubscription_iff in Hk.
        assert (existsb (isSubscription c o n) (subscriptions w) = true)
          by (apply existsb_exists; eauto).
        congruence.
  - destruct (Nat.eqb_spec (length (subscriptions w)
                            - length (otherRows c o n (subscriptions w))) 0) as [E | E].
    + split; [intros _; apply Hnone, E | reflexivity].
    + split; [discriminate|]. intros H. exfalso. apply E, Hnone, H.
  - intros Hf2. rewrite Unsubscribe_run, GetSubscription_run.
    cbn [fst snd records subscriptions dbFaults]. rewrite Hf2.
    rewrite otherRows_idem, Nat.sub_diag, no_row_left. split; reflexivity.
Qed.

Lemma Unsubscribe_removes_witness :
  subscriptions (exec (Unsubscribe 1001 "acme" "widgets") Sample.world) = [].
Proof.
  destruct (Unsubscribe_removes 1001 "acme" "widgets" Sample.world) as (_ & _ & H).
  exact (proj1 (H eq_refl)).
Defined.

Lemma Subscribe_run {J : Marshal (list string)} c o n events w :
  Subscribe c o n events w =
    match marshal events with
    | None => (Some (Some MarshalFailed), w)
    | Some js =>
        if hd false (dbFaults w)
        then (Some (Some ExecFailed),
              mkWorld (records w) (subscriptions w) (tl (dbFaults w)) (eventsCh w)
                      (chanCap w) (tgFaults w) (history w))
        else (Some None,
              mkWorld (records w) (upsert (mkSubscription c o n js) (subscriptions w))
                      (tl (dbFaults w)) (eventsCh w) (chanCap w) (tgFaults w)
                      (history w))
    end.
Proof.
  unfold Subscribe. destruct (marshal events); [|reflexivity].
  unfold bind, dbFault, rows, setRows, ret.
  destruct (hd false (dbFaults w)); reflexivity.
Qed.

Lemma upsert_first row subs :
  head (List.filter (isSubscription (ChatID row) (SubRepoOwner row) (SubRepoName row))
          (upsert row subs)) = Some row.
Proof.
  assert (Hrow : isSubscription (ChatID row) (SubRepoOwner row) (SubRepoName row) row
                 = true) by (apply isSubscription_iff; reflexivity).
  induction subs as [|s subs IH]; simpl.
  - rewrite Hrow. reflexivity.
  - destruct (isSubscription _ _ _ s) eqn:E; simpl.
    + apply isSubscription_iff in E. injection E as E1 E2 E3.
      rewrite E1, E2, E3.
      replace (mkSubscription (ChatID row) (SubRepoOwner row) (SubRepoName row)
                 (Events row)) with row by (destruct row; reflexivity).
      rewrite Hrow. reflexivity.
    + rewrite E. exact IH.
Qed.

Lemma upsert_others row subs :
  otherRows (ChatID row) (SubRepoOwner row) (SubRepoName row) (upsert row subs)
  = otherRows (ChatID row) (SubRepoOwner row) (SubRepoName row) subs.
Proof.
  assert (Hrow : isSubscription (ChatID row) (SubRepoOwner row) (SubRepoName row) row
                 = true) by (apply isSubscription_iff; reflexivity).
  unfold otherRows. induction subs as [|s subs IH]; simpl.
  - rewrite Hrow. reflexivity.
  - destruct (isSubscription _ _ _ s) eqn:E; simpl.
    + apply isSubscription_iff in E. injection E as E1 E2 E3.
      rewrite E1, E2, E3.
      replace (mkSubscription (ChatID row) (SubRepoOwner row) (SubRepoName row)
                 (Events row)) with row by (destruct row; reflexivity).
      rewrite Hrow. reflexivity.
    + rewrite E. simpl. rewrite IH. reflexivity.
Qed.

Lemma upsert_keys row subs :
  map rowKey (upsert row subs)
  = if existsb (isSubscription (ChatID row) (SubRepoOwner row) (SubRepoName row)) subs
    then map rowKey subs else map rowKey subs ++ [rowKey row].
Proof.
  induction subs as [|s subs IH]; simpl; [reflexivity|].
  destruct (isSubscription _ _ _ s) eqn:E; simpl; [reflexivity|].
  rewrite IH. destruct (existsb _ subs); reflexivity.
Qed.

Lemma upsert_unique row subs : uniqueRows subs -> uniqueRows (upsert row subs).
Proof.
  unfold uniqueRows. intros Hu. rewrite upsert_keys.
  destruct (existsb _ subs) eqn:Ex; [exact Hu|].
  apply NoDup_app. split; [exact Hu|]. split; [|apply NoDup_singleton].
  intros k Hk%list_elem_of_In [= ->]%list_elem_of_singleton.
  apply in_map_iff in Hk. destruct Hk as (s & Hs & Hin).
  assert (existsb (isSubscription (ChatID row) (SubRepoOwner row) (SubRepoName row)) subs
          = true).
  { apply existsb_exists. exists s. split; [exact Hin | apply isSubscription_iff, Hs]. }
  congruence.
Qed.

Section StoreRoundTrip.

Context {J : Marshal (list string)} {U : Unmarshal (list string)}.

(** [Subscribe] writes one row and reads back: when the events encode and
    the statement runs, the table has the row of the chat for the
    repository with the encoded events, in the place of the row it had
    for them if it had one and at the end otherwise; the other rows are as
    they were and the UNIQUE constraint still holds.  [GetSubscribedEvents]
    then returns what the stored text decodes to, and the filter of the
    notifier admits for this row exactly the event types in that list.
    When the encoding or the statement fails, the table is as it was. *)
Theorem Subscribe_then_read c o n events w :
  let w' := exec (Subscribe c o n events) w in
  records w' = records w
  /\ (marshal events = None \/ hd false (dbFaults w) = true ->
      subscriptions w' = subscriptions w
      /\ result (Subscribe c o n events) w
         = Some (Some (match marshal events with
                       | Some _ => ExecFailed
                       | None => MarshalFailed
                       end)))
  /\ forall js,
       marshal events = Some js -> hd false (dbFaults w) = false ->
       result (Subscribe c o n events) w = Some None
       /\ head (List.filter (isSubscription c o n) (subscriptions w'))
          = Some (mkSubscription c o n js)
       /\ otherRows c o n (subscriptions w') = otherRows c o n (subscriptions w)
       /\ (uniqueRows (subscriptions w) -> uniqueRows (subscriptions w'))
       /\ (length (subscriptions w) <= length (subscriptions w')
           <= S (length (subscriptions w)))%nat
       /\ forall stored,
            unmarshal (T := list string) js = Some stored ->
            hd false (dbFaults w') = false ->
            result (GetSubscribedEvents c o n) w' = Some (stored, false)
            /\ forall eventType,
                 isEventEnabled (mkSubscription c o n js) eventType = true
                 <-> In eventType stored.
Proof.
  intros w'. subst w'. unfold result, exec. rewrite Subscribe_run.
  destruct (marshal events) as [js|] eqn:Hm.
  - destruct (hd false (dbFaults w)) eqn:Hf; cbn [fst snd records subscriptions dbFaults].
    + split; [reflexivity|]. split; [intros _; split; reflexivity|].
      intros js' _ [=].
    + split; [reflexivity|]. split; [intros [[=] | [=]]|].
      intros js' [= <-] _. split; [reflexivity|].
      split; [exact (upsert_first (mkSubscription c o n js) (subscriptions w))|].
      split; [exact (upsert_others (mkSubscription c o n js) (subscriptions w))|].
      split; [apply upsert_unique|].
      split.
      { rewrite <- !(length_map rowKey), upsert_keys.
        destruct (existsb _ _); rewrite ?length_app; simpl; lia. }
      intros stored Hdec Hf2. split.
      * pose proof (upsert_first (mkSubscription c o n js) (subscriptions w)) as Hfirst.
        cbn [ChatID SubRepoOwner SubRepoName] in Hfirst.
        unfold GetSubscribedEvents, bind at 1. rewrite GetSubscription_run.
        cbn [dbFaults subscriptions]. rewrite Hf2, Hfirst.
        cbn [Events]. rewrite Hdec. reflexivity.
      * intros eventType. unfold isEventEnabled. cbn [Events]. rewrite Hdec.
        rewrite existsb_exists. split.
        -- intros (e & He & ->%String.eqb_eq). exact He.
        -- intros He. exists eventType. split; [exact He | apply String.eqb_refl].
  - cbn [fst snd records subscriptions]. split; [reflexivity|].
    split; [intros _; split; reflexivity|]. intros js [=].
Qed.

(** A subscription made with the default events hears of everything the
    producers emit: for every event whose type names the variant of its
    payload, as those of the webhook and of the poller do, the filter of
    the notifier admits the event for the row.  The types star and fork the
    model also names are never among them. *)
Theorem default_subscription_admits c o n js ev :
  unmarshal (T := list string) js = Some DefaultEvents ->
  wellKinded ev ->
  isEventEnabled (mkSubscription c o n js) (Type_ ev) = true
  /\ isEventEnabled (mkSubscription c o n js) "star" = false
  /\ isEventEnabled (mkSubscription c o n js) "fork" = false.
Proof.
  intros Hdec Hk. unfold isEventEnabled. cbn [Events]. rewrite Hdec.
  split; [|split; reflexivity].
  unfold wellKinded in Hk. destruct (EvPayload ev); rewrite Hk; reflexivity.
Qed.

Lemma otherRows_all c o n subs :
  (forall s, In s subs -> rowKey s <> (c, o, n)) -> otherRows c o n subs = subs.
Proof.
  intros H. unfold otherRows. induction subs as [|s subs IH]; [reflexivity|]. simpl.
  rewrite (proj2 (isSubscription_false c o n s) (H s (or_introl eq_refl))). simpl.
  rewrite IH; [reflexivity|]. intros x Hx. apply H. right. exact Hx.
Qed.

(** [Unsubscribe] undoes [Subscribe]: when both statements run, the call
    returns nil, and the table holds the rows of the other chats and
    repositories as they were before the subscription was made; it is the
    table as it was when the chat had no row for the repository. *)
Theorem Subscribe_then_Unsubscribe c o n events js w :
  marshal events = Some js ->
  hd false (dbFaults w) = false ->
  hd false (tl (dbFaults w)) = false ->
  let w' := exec (Subscribe c o n events ;;; Unsubscribe c o n) w in
  result (Subscribe c o n events ;;; Unsubscribe c o n) w = Some None
  /\ subscriptions w' = otherRows c o n (subscriptions w)
  /\ ((forall s, In s (subscriptions w) -> rowKey s <> (c, o, n)) ->
      subscriptions w' = subscriptions w).
Proof.
  intros Hm Hf1 Hf2 w'. subst w'. unfold result, exec, bind.
  rewrite Subscribe_run, Hm, Hf1, Unsubscribe_run.
  cbn [dbFaults subscriptions]. rewrite Hf2. cbn [fst snd subscriptions].
  pose proof (upsert_others (mkSubscription c o n js) (subscriptions w)) as Ho.
  cbn [ChatID SubRepoOwner SubRepoName] in Ho. rewrite Ho.
  split; [|split; [reflexivity | apply otherRows_all]].
  destruct (Nat.eqb_spec
              (length (upsert (mkSubscription c o n js) (subscriptions w))
               - length (otherRows c o n (subscriptions w))) 0) as [E | E];
    [|reflexivity].
  exfalso. rewrite <- Ho in E. unfold otherRows in E.
  pose proof (proj1 (none_affected _ _) E) as E'. clear E. rename E' into E.
  cbv beta in E.
  pose proof (upsert_first (mkSubscription c o n js) (subscriptions w)) as Hfirst.
  cbn [ChatID SubRepoOwner SubRepoName] in Hfirst.
  destruct (List.filter (isSubscription c o n)
              (upsert (mkSubscription c o n js) (subscriptions w))) as [|row rest] eqn:Ef;
    [discriminate|].
  assert (Hin : In row (List.filter (isSubscription c o n)
                          (upsert (mkSubscription c o n js) (subscriptions w))))
    by (rewrite Ef; left; reflexivity).
  apply filter_In in Hin. destruct Hin as [Hin Hrow].
  specialize (E row Hin). rewrite Hrow in E. discriminate.
Qed.

End StoreRoundTrip.

Lemma Subscribe_then_read_witness :
  result (@Subscribe Sample.events_encoder 1002 "acme" "widgets" DefaultEvents)
         Sample.world = Some None.
Proof.
  destruct (@Subscribe_then_read Sample.events_encoder Sample.events_decoder
              1002 "acme" "widgets" DefaultEvents Sample.world) as (_ & _ & H).
  exact (proj1 (H _ eq_refl eq_refl)).
Defined.

Lemma Subscribe_then_Unsubscribe_witness :
  subscriptions
    (exec (@Subscribe Sample.events_encoder 1002 "acme" "widgets" DefaultEvents ;;;
           Unsubscribe 1002 "acme" "widgets") Sample.world)
  = subscriptions Sample.world.
Proof.
  destruct (@Subscribe_then_Unsubscribe Sample.events_encoder
              1002 "acme" "widgets" DefaultEvents _ Sample.world
              eq_refl eq_refl eq_refl) as (_ & _ & H).
  apply H. intros s [<- | []]. discriminate.
Defined.

Lemma default_subscription_admits_witness :
  @isEventEnabled Sample.events_decoder
    (mkSubscription 1001 "acme" "widgets" Sample.allEvents) "release" = true.
Proof.
  exact (proj1 (@default_subscription_admits Sample.events_decoder
                  1001 "acme" "widgets" Sample.allEvents
                  (releaseEventOf "acme" "widgets" Sample.oldRelease)
                  eq_refl eq_refl)).
Defined.

(** ** The consumer *)

Lemma chanFree_ret {A} (a : A) : chanFree (ret a).
Proof. intros ch w. reflexivity. Qed.

Lemma chanFree_panic {A} : chanFree (@panic A).
Proof. intros ch w. reflexivity. Qed.

Lemma chanFree_bind {A B} (m : M A) (f : A -> M B) :
  chanFree m -> (forall a, chanFree (f a)) -> chanFree (bind m f).
Proof.
  intros Hm Hf ch w. unfold bind. rewrite Hm.
  destruct (m w) as [[a|] w1]; cbn [fst snd]; [apply Hf | reflexivity].
Qed.

Lemma chanFree_forM_ {A} (l : list A) (body : A -> M unit) :
  (forall x, chanFree (body x)) -> chanFree (forM_ l body).
Proof.
  intros Hb. induction l as [|x l IH]; simpl; [apply chanFree_ret|].
  apply chanFree_bind; [apply Hb | intros _; exact IH].
Qed.

Lemma chanFree_record e : chanFree (record e).
Proof. intros ch w. reflexivity. Qed.

Lemma chanFree_dbFault : chanFree dbFault.
Proof. intros ch w. reflexivity. Qed.

Lemma chanFree_tgFault : chanFree tgFault.
Proof. intros ch w. reflexivity. Qed.

Lemma chanFree_insertRow k : chanFree (insertRow k).
Proof. intros ch w. reflexivity. Qed.

Lemma chanFree_hasRow k : chanFree (hasRow k).
Proof. intros ch w. reflexivity. Qed.

Lemma chanFree_rows : chanFree rows.
Proof. intros ch w. reflexivity. Qed.

Ltac chan_free :=
  repeat first
    [ apply chanFree_ret | apply chanFree_panic | apply chanFree_record
    | apply chanFree_dbFault | apply chanFree_tgFault | apply chanFree_insertRow
    | apply chanFree_hasRow | apply chanFree_rows
    | apply chanFree_bind; [|intros ?]
    | apply chanFree_forM_; intros ?
    | match goal with
      | |- chanFree (if ?b then _ else _) => destruct b
      | |- chanFree (match ?x with _ => _ end) => destruct x
      end ].

Section ConsumerProperties.

Context {U_events : Unmarshal (list string)}.
Variable FormatMessage : Payload -> option string.

(** The notifier does not look at the channel. *)
Lemma chanFree_HandleWebhookEvent event : chanFree (HandleWebhookEvent FormatMessage event).
Proof.
  unfold HandleWebhookEvent, GetSubscriptionsByRepo, IsEventProcessed, RecordEvent,
    buildMessage, notifySubscriber, sendNotification, logWarn, logError.
  chan_free.
Qed.

Lemma chanFree_handleOne event : chanFree (handleOne FormatMessage event).
Proof.
  unfold handleOne, logError.
  apply chanFree_bind; [apply chanFree_HandleWebhookEvent | intros err].
  chan_free.
Qed.

Lemma chanFree_handleEach events : chanFree (handleEach FormatMessage events).
Proof. apply chanFree_forM_, chanFree_handleOne. Qed.

Lemma emitted_fanout eventType message subs faults :
  emitted (fanout eventType message subs faults) = [].
Proof.
  revert faults. induction subs as [|x l IH]; intros f; simpl; [reflexivity|].
  destruct (isEventEnabled x eventType); [|apply IH].
  rewrite emitted_app, IH. destruct (hd false f); reflexivity.
Qed.

Lemma consumed_refl w : consumed w w.
Proof. repeat split. set_solver. Qed.

Lemma consumed_trans w1 w2 w3 : consumed w1 w2 -> consumed w2 w3 -> consumed w1 w3.
Proof.
  intros (Hc & Hs & Hr & He) (Hc' & Hs' & Hr' & He'). repeat split; try congruence.
  set_solver.
Qed.

(** When the message of the event can be formatted, [HandleWebhookEvent]
    returns, and leaves the channel as it is. *)
Lemma HandleWebhookEvent_returns event w :
  FormatMessage (EvPayload event) <> None ->
  exists r w', HandleWebhookEvent FormatMessage event w = (Some r, w')
    /\ eventsCh w' = eventsCh w /\ consumed w w'.
Proof.
  intros Hfmt.
  destruct (hd false (dbFaults w)) eqn:Hsel.
  { eexists _, _. split; [apply HandleWebhookEvent_early; left; exact Hsel|].
    unfold consumed. cbn [eventsCh chanCap subscriptions records history].
    rewrite emitted_snoc by reflexivity. repeat split. set_solver. }
  destruct (subscribersOf (RepoOwner event) (RepoName event) w) as [|s0 rest] eqn:Es.
  { eexists _, _. split; [apply HandleWebhookEvent_early; right; exact Es|].
    unfold consumed. cbn [eventsCh chanCap subscriptions records history].
    rewrite emitted_snoc by reflexivity. repeat split. set_solver. }
  assert (Hsubs : subscribersOf (RepoOwner event) (RepoName event) w <> [])
    by (rewrite Es; discriminate).
  destruct (hd false (tl (dbFaults w))) eqn:Hlook.
  - destruct (FormatMessage (EvPayload event)) as [text|] eqn:Ef; [|congruence].
    eexists _, _. split.
    + apply (HandleWebhookEvent_run FormatMessage event text w Hsel Hsubs);
        [left; exact Hlook | exact Ef].
    + unfold consumed. cbn [eventsCh chanCap subscriptions records history].
      rewrite !emitted_app, emitted_fanout. rewrite Hlook.
      split; [reflexivity|]. split; [reflexivity|]. split; [reflexivity|].
      split; [destruct (hd false (tl (tl (dbFaults w)))); set_solver|].
      destruct (hd false (tl (tl (dbFaults w)))); simpl; rewrite app_nil_r; reflexivity.
  - destruct (decide (keyOf event ∈ records w)) as [Hk | Hk].
    + eexists _, _. split.
      * apply (HandleWebhookEvent_processed FormatMessage event w Hsel Hsubs Hlook Hk).
      * unfold consumed. cbn [eventsCh chanCap subscriptions records history].
        rewrite emitted_app. simpl. rewrite app_nil_r. repeat split. set_solver.
    + destruct (FormatMessage (EvPayload event)) as [text|] eqn:Ef; [|congruence].
      eexists _, _. split.
      * apply (HandleWebhookEvent_run FormatMessage event text w Hsel Hsubs);
          [right; exact Hk | exact Ef].
      * unfold consumed. cbn [eventsCh chanCap subscriptions records history].
        rewrite !emitted_app, emitted_fanout. rewrite Hlook.
        split; [reflexivity|]. split; [reflexivity|]. split; [reflexivity|].
        split; [destruct (hd false (tl (tl (dbFaults w)))); set_solver|].
        destruct (hd false (tl (tl (dbFaults w)))); simpl; rewrite app_nil_r; reflexivity.
Qed.

(** With a healthy storage the handling leaves the storage healthy, and
    the key of the event in the ledger when its repository has a
    subscriber. *)
Lemma HandleWebhookEvent_keeps_healthy event w :
  FormatMessage (EvPayload event) <> None -> healthy w ->
  healthy (exec (HandleWebhookEvent FormatMessage event) w)
  /\ (subscribersOf (RepoOwner event) (RepoName event) w <> [] ->
      keyOf event ∈ records (exec (HandleWebhookEvent FormatMessage event) w)).
Proof.
  intros Hfmt Hh.
  destruct (subscribersOf (RepoOwner event) (RepoName event) w) as [|s0 rest] eqn:Es.
  - unfold exec. rewrite (HandleWebhookEvent_early FormatMessage event w (or_intror Es)).
    red in Hh. unfold healthy. cbn [snd dbFaults]. rewrite Hh.
    split; [reflexivity | congruence].
  - destruct (FormatMessage (EvPayload event)) as [text|] eqn:Ef; [|congruence].
    assert (Hsubs : subscribersOf (RepoOwner event) (RepoName event) w <> [])
      by (rewrite Es; discriminate).
    destruct (HandleWebhookEvent_records FormatMessage event text w Hh Hsubs Ef)
      as (Hh' & Hk & _).
    split; [exact Hh' | intros _; exact Hk].
Qed.

Lemma handleOne_returns event w :
  FormatMessage (EvPayload event) <> None ->
  exists w', handleOne FormatMessage event w = (Some tt, w')
    /\ consumed w w'
    /\ (healthy w ->
        healthy w'
        /\ (subscribersOf (RepoOwner event) (RepoName event) w <> [] ->
            keyOf event ∈ records w')).
Proof.
  intros Hfmt.
  destruct (HandleWebhookEvent_returns event w Hfmt) as (r & w1 & Hrun & _ & Hc).
  pose proof (HandleWebhookEvent_keeps_healthy event w Hfmt) as Hkeep.
  unfold exec in Hkeep. rewrite Hrun in Hkeep. cbn [snd] in Hkeep.
  unfold handleOne, bind. rewrite Hrun. destruct r as [msg|].
  - eexists. split; [reflexivity|]. unfold logError, record.
    destruct Hc as (Hc & Hs & Hr & He). unfold consumed, healthy in *.
    cbn [eventsCh chanCap subscriptions records history dbFaults].
    rewrite emitted_snoc by reflexivity. repeat split; try assumption; apply Hkeep; assumption.
  - exists w1. split; [reflexivity|]. split; [exact Hc | exact Hkeep].
Qed.

(** One turn of the consumer is the body of the loop on the event at the
    head of the channel. *)
Lemma consumeOne_is_handleOne event rest w :
  eventsCh w = event :: rest ->
  consumeOne FormatMessage w
  = (fst (handleOne FormatMessage event w),
     withChannel rest (snd (handleOne FormatMessage event w))).
Proof.
  intros Hch. rewrite <- (chanFree_handleOne event rest w).
  unfold consumeOne, bind at 1, receive. rewrite Hch. reflexivity.
Qed.

Lemma subscribersOf_consumed o n w w' :
  consumed w w' -> subscribersOf o n w' = subscribersOf o n w.
Proof. intros (_ & Hs & _). unfold subscribersOf. rewrite Hs. reflexivity. Qed.

Lemma handleEach_returns events w :
  (forall event, In event events -> FormatMessage (EvPayload event) <> None) ->
  result (handleEach FormatMessage events) w = Some tt
  /\ consumed w (exec (handleEach FormatMessage events) w)
  /\ (healthy w ->
      healthy (exec (handleEach FormatMessage events) w)
      /\ forall event, In event events ->
           subscribersOf (RepoOwner event) (RepoName event) w <> [] ->
           keyOf event ∈ records (exec (handleEach FormatMessage events) w)).
Proof.
  revert w. induction events as [|event rest IH]; intros w Hfmt.
  - split; [reflexivity|]. split; [apply consumed_refl|].
    intros Hh. split; [exact Hh | intros event []].
  - destruct (handleOne_returns event w (Hfmt event (or_introl eq_refl)))
      as (w1 & Hrun & Hc & Hkeep).
    destruct (IH w1 (fun e He => Hfmt e (or_intror He))) as (Hres & Hc' & Hkeep').
    unfold result, exec, handleEach in *. cbn [forM_]. unfold bind. rewrite Hrun.
    split; [exact Hres|]. split; [exact (consumed_trans _ _ _ Hc Hc')|].
    intros Hh. destruct (Hkeep Hh) as [Hh1 Hk1]. destruct (Hkeep' Hh1) as [Hh2 Hk2].
    split; [exact Hh2|]. intros e [<- | He] Hsubs.
    + destruct Hc' as (_ & _ & Hr & _). apply Hr, Hk1, Hsubs.
    + apply Hk2; [exact He|]. rewrite (subscribersOf_consumed _ _ w w1 Hc). exact Hsubs.
Qed.

Lemma drain_is_handleEach events :
  forall w (turns : list WebhookEvent),
    eventsCh w = events -> length turns = length events ->
    (forall event, In event events -> FormatMessage (EvPayload event) <> None) ->
    forM_ turns (fun _ => consumeOne FormatMessage) w
    = (Some tt, withChannel [] (exec (handleEach FormatMessage events) w)).
Proof.
  induction events as [|event rest IH]; intros w turns Hch Hlen Hfmt.
  - destruct turns; [|discriminate]. destruct w. simpl in Hch. subst. reflexivity.
  - destruct turns as [|x turns]; [discriminate|]. cbn [forM_]. unfold bind at 1.
    rewrite (consumeOne_is_handleOne event rest w Hch).
    destruct (handleOne_returns event w (Hfmt event (or_introl eq_refl)))
      as (w1 & Hrun & _).
    rewrite Hrun. cbn [fst snd].
    rewrite (IH (withChannel rest w1) turns eq_refl ltac:(simpl in Hlen; lia)
               (fun e He => Hfmt e (or_intror He))).
    assert (E : exec (handleEach FormatMessage (event :: rest)) w
                = exec (handleEach FormatMessage rest) w1).
    { unfold exec, handleEach. cbn [forM_]. unfold bind. rewrite Hrun. reflexivity. }
    rewrite E. unfold exec. rewrite (chanFree_handleEach rest rest w1). reflexivity.
Qed.

(** The consumer handles every waiting event, once and in the order of
    the channel.  When the message of every waiting event can be
    formatted, it returns whatever the storage and Telegram do, and the
    world it leaves is the one in which [HandleWebhookEvent] has been
    called on each of the events in turn (an error it returns logged),
    with the channel empty.  So with a healthy storage the key of every
    waiting event whose repository has a subscriber is in the ledger
    afterwards.  The consumer offers no event of its own, leaves the
    subscriptions as they are and removes nothing from the ledger. *)
Theorem drain_empties_channel w :
  (forall event, In event (eventsCh w) -> FormatMessage (EvPayload event) <> None) ->
  let w' := exec (drain FormatMessage) w in
  result (drain FormatMessage) w = Some tt
  /\ result (handleEach FormatMessage (eventsCh w)) w = Some tt
  /\ w' = withChannel [] (exec (handleEach FormatMessage (eventsCh w)) w)
  /\ eventsCh w' = []
  /\ chanCap w' = chanCap w
  /\ subscriptions w' = subscriptions w
  /\ records w ⊆ records w'
  /\ emitted (history w') = emitted (history w)
  /\ (healthy w ->
      forall event, In event (eventsCh w) ->
        subscribersOf (RepoOwner event) (RepoName event) w <> [] ->
        keyOf event ∈ records w').
Proof.
  intros Hfmt w'. subst w'. unfold result, exec, drain.
  rewrite (drain_is_handleEach (eventsCh w) w (eventsCh w) eq_refl eq_refl Hfmt).
  destruct (handleEach_returns (eventsCh w) w Hfmt)
    as (Hres & (Hc & Hs & Hr & He) & Hkeep).
  unfold result, exec in *. cbn [fst snd eventsCh chanCap subscriptions records history].
  split; [reflexivity|]. split; [exact Hres|]. split; [reflexivity|].
  split; [reflexivity|]. split; [exact Hc|]. split; [exact Hs|].
  split; [exact Hr|]. split; [exact He|].
  intros Hh. apply (Hkeep Hh).
Qed.

End ConsumerProperties.

Lemma drain_empties_channel_witness :
  keyOf (pushEventOf "acme" "widgets" Sample.commit1)
    ∈ records (exec (@drain Sample.events_decoder Sample.format)
                 (withChannel [pushEventOf "acme" "widgets" Sample.commit1]
                    Sample.world)).
Proof.
  destruct (@drain_empties_channel Sample.events_decoder Sample.format
              (withChannel [pushEventOf "acme" "widgets" Sample.commit1] Sample.world))
    as (_ & _ & _ & _ & _ & _ & _ & _ & Hkeys).
  - intros event [<- | []]. discriminate.
  - apply (Hkeys eq_refl (pushEventOf "acme" "widgets" Sample.commit1)).
    + left; reflexivity.
    + discriminate.
Defined.

(** ** From the webhook to the subscribers *)

Section EndToEnd.

Context {U_base : Unmarshal baseEvent}
        {U_push : Unmarshal pushPayload}
        {U_release : Unmarshal releasePayload}
        {U_issue : Unmarshal issuePayload}
        {U_pr : Unmarshal prPayload}
        {U_events : Unmarshal (list string)}.
Variable hmacSHA256 : string -> string -> string.
Variable FormatMessage : Payload -> option string.

Lemma parsed_has_type eventType body ev :
  parseEvent eventType body = Parsed (Some ev) -> eventType <> "".
Proof.
  intros Hp ->. unfold parseEvent in Hp.
  destruct (unmarshal (T := baseEvent) body); discriminate.
Qed.

(** One accepted request on an empty channel, and the consumer run after
    it. *)
Lemma serve_and_drain_run h r body ev w :
  Method r = "POST" -> Body r = Some body -> ~ badSignature hmacSHA256 h r ->
  parseEvent (XGitHubEvent r) body = Parsed (Some ev) ->
  eventsCh w = [] -> (0 < chanCap w)%nat ->
  (ServeHTTP hmacSHA256 h r ;;; drain FormatMessage) w =
    match HandleWebhookEvent FormatMessage ev
            (mkWorld (records w) (subscriptions w) (dbFaults w) [] (chanCap w)
                     (tgFaults w) (history w ++ [Enqueued ev])) with
    | (Some None, w') => (Some tt, w')
    | (Some (Some _), w') => (Some tt, exec (logError "Failed to handle event") w')
    | (None, w') => (None, w')
    end.
Proof.
  intros Hm Hb Hsig Hp Hch Hcap. unfold bind at 1.
  rewrite (ServeHTTP_accepts hmacSHA256 h r w body Hm Hb Hsig
             (parsed_has_type _ _ _ Hp)), Hp.
  unfold exec, trySend. rewrite Hch. cbn [length].
  apply Nat.ltb_lt in Hcap. rewrite Hcap. cbn [snd app].
  unfold drain. cbn [eventsCh forM_]. unfold bind at 1, consumeOne, bind at 1, receive.
  cbn [eventsCh records subscriptions dbFaults chanCap tgFaults history].
  unfold bind. destruct (HandleWebhookEvent _ _ _) as [[[msg|]|] w']; reflexivity.
Qed.

(** A webhook delivery reaches the subscribers once.  With a healthy
    storage, an accepted request for an event the ledger does not know is
    put on the channel and, when the consumer takes it, sent once to every
    subscriber of the repository whose filter admits its type, and its key
    is recorded.  When GitHub delivers the same request again, it is
    accepted and taken from the channel again, but nobody is sent anything
    and the ledger stays as it is. *)
Theorem webhook_delivered_once h r body ev text w :
  Method r = "POST" -> Body r = Some body -> ~ badSignature hmacSHA256 h r ->
  parseEvent (XGitHubEvent r) body = Parsed (Some ev) ->
  healthy w -> eventsCh w = [] -> (0 < chanCap w)%nat ->
  subscribersOf (RepoOwner ev) (RepoName ev) w <> [] ->
  FormatMessage (EvPayload ev) = Some text ->
  keyOf ev ∉ records w ->
  let step := ServeHTTP hmacSHA256 h r ;;; drain FormatMessage in
  let w1 := exec step w in
  let w2 := exec step w1 in
  result step w = Some tt
  /\ attempts (history w1)
     = attempts (history w)
       ++ sends (header ev +:+ text)
            (enabledFor (Type_ ev) (subscribersOf (RepoOwner ev) (RepoName ev) w))
            (tgFaults w)
  /\ records w1 = {[ keyOf ev ]} ∪ records w
  /\ eventsCh w1 = []
  /\ result step w1 = Some tt
  /\ attempts (history w2) = attempts (history w1)
  /\ records w2 = records w1
  /\ eventsCh w2 = [].
Proof.
  intros Hm Hb Hsig Hp Hh Hch Hcap Hsubs Hfmt Hk step w1 w2.
  red in Hh.
  assert (E1 : step w = _) by exact (serve_and_drain_run h r body ev w Hm Hb Hsig Hp Hch Hcap).
  rewrite (HandleWebhookEvent_run FormatMessage ev text
             (mkWorld (records w) (subscriptions w) (dbFaults w) [] (chanCap w)
                      (tgFaults w) (history w ++ [Enqueued ev])))
    in E1;
    [|cbn [dbFaults]; rewrite Hh; reflexivity
     | exact Hsubs
     | right; exact Hk
     | exact Hfmt].
  cbn [dbFaults records subscriptions eventsCh chanCap tgFaults history] in E1.
  rewrite Hh in E1. cbn [hd tl] in E1.
  change (subscribersOf (RepoOwner ev) (RepoName ev)
            (mkWorld (records w) (subscriptions w) [] [] (chanCap w) (tgFaults w)
                     (history w ++ [Enqueued ev])))
    with (subscribersOf (RepoOwner ev) (RepoName ev) w) in E1.
  assert (Ew1 : w1 = snd (step w)) by reflexivity.
  rewrite E1 in Ew1. cbn [snd] in Ew1.
  assert (Hch1 : eventsCh w1 = []) by (rewrite Ew1; reflexivity).
  assert (Hcap1 : (0 < chanCap w1)%nat) by (rewrite Ew1; exact Hcap).
  pose proof (serve_and_drain_run h r body ev w1 Hm Hb Hsig Hp Hch1 Hcap1) as E2.
  fold step in E2.
  rewrite (HandleWebhookEvent_processed FormatMessage ev) in E2;
    [|rewrite Ew1; reflexivity
     |rewrite Ew1; exact Hsubs
     |rewrite Ew1; reflexivity
     |rewrite Ew1; cbn [records]; set_solver].
  assert (Ew2 : w2 = snd (step w1)) by reflexivity.
  rewrite E2 in Ew2. cbn [snd] in Ew2.
  unfold result. rewrite E1, E2. cbn [fst].
  split; [reflexivity|]. split.
  { rewrite Ew1. cbn [history].
    rewrite !attempts_app, attempts_fanout. simpl. rewrite !app_nil_r. reflexivity. }
  split; [rewrite Ew1; reflexivity|]. split; [rewrite Ew1; reflexivity|].
  split; [reflexivity|]. split.
  { rewrite Ew2. cbn [history]. rewrite !attempts_app. simpl.
    rewrite !app_nil_r. reflexivity. }
  split; rewrite Ew2; reflexivity.
Qed.

End EndToEnd.

Lemma webhook_delivered_once_witness :
  result (@ServeHTTP Sample.base_decoder Sample.push_decoder Sample.release_decoder
            Sample.issue_decoder Sample.pr_decoder Sample.mac (mkWebhookHandler "")
            (mkRequest "POST" (Some "push") "" "push") ;;;
          @drain Sample.events_decoder Sample.format) Sample.world = Some tt.
Proof.
  eapply (@webhook_delivered_once Sample.base_decoder Sample.push_decoder
            Sample.release_decoder Sample.issue_decoder Sample.pr_decoder
            Sample.events_decoder Sample.mac Sample.format (mkWebhookHandler "")
            (mkRequest "POST" (Some "push") "" "push") "push" _ "push" Sample.world).
  - reflexivity.
  - reflexivity.
  - intros [H _]. apply H. reflexivity.
  - reflexivity.
  - reflexivity.
  - reflexivity.
  - simpl. lia.
  - discriminate.
  - reflexivity.
  - set_solver.
Defined.

(** ** What the seeds are for *)

(** A membership check that finds its key offers nothing, when the
    storage answers. *)
Lemma known_check_silent S ch sent o n t i ev (k : bool -> M unit) :
  (o, n, t, i) ∈ S ->
  preserves (fun w => covers S w /\ quiet_since ch sent w)
    (r <- IsEventProcessed o n t i ;;
     let '(processed, _) := r in
     if processed then ret tt else sent <- trySend ev ;; k sent).
Proof.
  intros Hk w ([Hh HS] & Hch & Hsent). red in Hh. unfold exec, bind.
  rewrite IsEventProcessed_run, Hh. cbn [hd tl].
  rewrite bool_decide_eq_true_2 by set_solver.
  cbn [snd]. unfold ret. cbn [snd]. split; [split; [reflexivity | exact HS]|].
  unfold quiet_since in *. cbn [eventsCh history].
  rewrite emitted_snoc by reflexivity. split; assumption.
Qed.

Lemma seeded_pollRepo p o n S ch sent :
  (forall c, c ∈ tickCommits p o n -> forall k, In k (commitKeys o n c) -> k ∈ S) ->
  (forall r, r ∈ tickReleases p o n -> forall k, In k (releaseKeys o n r) -> k ∈ S) ->
  (forall i, i ∈ tickIssues p o n -> forall k, In k (issueKeys o n i) -> k ∈ S) ->
  (forall pr, pr ∈ tickPRs p o n -> forall k, In k (prKeys o n pr) -> k ∈ S) ->
  preserves (fun w => covers S w /\ quiet_since ch sent w) (pollRepo p o n).
Proof.
  intros Hc Hr Hi Hp. unfold pollRepo.
  apply preserves_bind; [|intros _; apply preserves_bind;
                           [|intros _; apply preserves_bind; [|intros _]]].
  - unfold pollCommits. unfold tickCommits in Hc.
    destruct (ListCommits _ _ _ _) as [l|]; [|apply preserves_ret].
    apply preserves_forM_. intros c Hin. specialize (Hc c Hin).
    unfold pollCommit. unfold commitKeys in Hc.
    destruct (String.eqb (GetSHA c) ""); [apply preserves_ret|].
    apply known_check_silent, Hc. left; reflexivity.
  - unfold pollReleases. unfold tickReleases in Hr.
    destruct (ListReleases _ _ _ _) as [l|]; [|apply preserves_ret].
    apply preserves_forM_. intros r Hin. specialize (Hr r Hin).
    unfold pollRelease. unfold releaseKeys in Hr.
    destruct (GetDraft r); [apply preserves_ret|].
    destruct (Before _ _); [apply preserves_ret|].
    apply known_check_silent, Hr. left; reflexivity.
  - unfold pollIssues. unfold tickIssues in Hi.
    destruct (ListByRepo _ _ _ _) as [l|]; [|apply preserves_ret].
    apply preserves_forM_. intros i Hin. specialize (Hi i Hin).
    unfold pollIssue. unfold issueKeys in Hi.
    destruct (IsPullRequest i); [apply preserves_ret|].
    destruct (Before _ _).
    + destruct (String.eqb (GetIssueState i) "closed"); [|apply preserves_ret].
      destruct (_ && _); [|apply preserves_ret]. unfold notifyIssueClosed.
      apply known_check_silent, Hi. right; left; reflexivity.
    + apply known_check_silent, Hi. left; reflexivity.
  - unfold pollPullRequests. unfold tickPRs in Hp.
    destruct (ListPullRequests _ _ _ _) as [l|]; [|apply preserves_ret].
    apply preserves_forM_. intros pr Hin. specialize (Hp pr Hin).
    unfold pollPullRequest. unfold prKeys in Hp.
    destruct (Before _ _).
    + destruct (String.eqb (GetPRState pr) "closed"); [|apply preserves_ret].
      destruct (_ && _); [|apply preserves_ret]. unfold notifyPRClosed.
      destruct (GetMerged pr);
        (apply known_check_silent, Hp; right; left; reflexivity).
    + apply known_check_silent, Hp. left; reflexivity.
Qed.

Lemma preserves_and_records p o n (I : World -> Prop) w :
  preserves I (pollRepo p o n) -> I w ->
  I (exec (pollRepo p o n) w) /\ records (exec (pollRepo p o n) w) = records w.
Proof.
  intros HI Hw. split; [apply HI, Hw|].
  apply (stable_pollRepo (fun w' => records w' = records w) p o n).
  - split; [intros e _ w0 H | intros w0 H]; exact H.
  - intros ev _ w0 H. unfold exec, trySend.
    destruct (length (eventsCh w0) <? chanCap w0)%nat; exact H.
  - reflexivity.
Qed.

(** What initialization has seen is never announced.  With the storage
    answering, a tick whose listings hold only items that initialization
    listed, in the state it listed them in, offers nothing to the channel:
    every check the scans make, for the creation of an item and for its
    closing or merging, finds the key that was seeded.  This holds whatever
    the dates of the items and whatever the epoch of the poller. *)
Theorem seeded_items_stay_silent p0 p o n w :
  healthy w ->
  (forall c, c ∈ tickCommits p o n -> c ∈ initialCommits p0 o n) ->
  (forall r, r ∈ tickReleases p o n -> r ∈ initialReleases p0 o n) ->
  (forall i, i ∈ tickIssues p o n -> i ∈ initialIssues p0 o n) ->
  (forall pr, pr ∈ tickPRs p o n -> pr ∈ initialPRs p0 o n) ->
  let initialized := exec (recordExistingEvents p0 o n) w in
  let ticked := exec (pollRepo p o n) initialized in
  eventsCh ticked = eventsCh w
  /\ emitted (history ticked) = emitted (history w)
  /\ records ticked = records initialized
  /\ healthy ticked.
Proof.
  intros Hh Hc Hr Hi Hp initialized ticked.
  destruct (frame_of_quiet (recordExistingEvents p0 o n) w
              (quiet_recordExistingEvents p0 o n)) as [H3 H4].
  fold initialized in H3, H4.
  destruct (covers_recordExistingEvents p0 o n ∅ w) as (a & w1 & E & Hcov).
  { split; [exact Hh | set_solver]. }
  assert (Ew : initialized = w1) by (unfold initialized, exec; rewrite E; reflexivity).
  assert (Hseed : forall k, In k (seedKeys p0 o n)
                    -> k ∈ (∅ ∪ list_to_set (seedKeys p0 o n) : gset Key)).
  { intros k Hk. apply elem_of_union_r, elem_of_list_to_set, list_elem_of_In, Hk. }
  assert (Hkeep : (covers (∅ ∪ list_to_set (seedKeys p0 o n)) ticked
                   /\ quiet_since (eventsCh initialized) (emitted (history initialized))
                        ticked)
                  /\ records ticked = records initialized).
  { apply (preserves_and_records p o n
             (fun w' => covers (∅ ∪ list_to_set (seedKeys p0 o n)) w'
                        /\ quiet_since (eventsCh initialized)
                             (emitted (history initialized)) w')
             initialized).
    - apply seeded_pollRepo.
      + intros c Hin k Hk. apply Hseed. unfold seedKeys. rewrite !in_app_iff. left.
        apply in_flat_map. exists c. split; [apply list_elem_of_In, Hc, Hin | exact Hk].
      + intros r Hin k Hk. apply Hseed. unfold seedKeys. rewrite !in_app_iff.
        right; left.
        apply in_flat_map. exists r. split; [apply list_elem_of_In, Hr, Hin | exact Hk].
      + intros i Hin k Hk. apply Hseed. unfold seedKeys. rewrite !in_app_iff.
        right; right; left.
        apply in_flat_map. exists i. split; [apply list_elem_of_In, Hi, Hin | exact Hk].
      + intros pr Hin k Hk. apply Hseed. unfold seedKeys. rewrite !in_app_iff.
        right; right; right.
        apply in_flat_map. exists pr. split; [apply list_elem_of_In, Hp, Hin | exact Hk].
    - rewrite Ew. split; [exact Hcov | split; reflexivity]. }
  destruct Hkeep as [[[Hh' _] [H1 H2]] Hrec].
  split; [congruence|]. split; [congruence|]. split; [exact Hrec | exact Hh'].
Qed.

Lemma seeded_items_stay_silent_witness :
  emitted (history
    (exec (pollRepo (Sample.poller (Sample.upstream [Sample.commit1] [] [Sample.issue43] []))
             "acme" "widgets")
       (exec (recordExistingEvents
                (Sample.poller (Sample.upstream [Sample.commit1] [] [Sample.issue43] []))
                "acme" "widgets") Sample.world)))
  = emitted (history Sample.world).
Proof.
  apply (seeded_items_stay_silent
           (Sample.poller (Sample.upstream [Sample.commit1] [] [Sample.issue43] []))
           (Sample.poller (Sample.upstream [Sample.commit1] [] [Sample.issue43] []))
           "acme" "widgets" Sample.world).
  - reflexivity.
  - intros c Hc. vm_compute in Hc. vm_compute. exact Hc.
  - intros r Hr. vm_compute in Hr. vm_compute. exact Hr.
  - intros i Hi. vm_compute in Hi. vm_compute. exact Hi.
  - intros pr Hpr. vm_compute in Hpr. vm_compute. exact Hpr.
Defined.
